(** * Switch box firmware (encoder + two buttons over UART)

    A shallow embedding of [src/switch-box-V1.5.py] and
    [src/Switch_box_V1.3.py], and the properties of the interrupt to
    main-loop pipeline proved about it.

    The two revisions have the same interrupt handlers, rate limiter,
    processing routines and reset; they differ in [safe_uart_write]
    (V1.5 runs [ensure_uart_alive] after a failure, V1.3 does not), so the
    routines that send take the revision as a parameter.

    Modelling conventions.
    - Python integers are unbounded: counters and pin values are [Z].
    - The dictionaries [encoder_state], [button_state] and [stats] are used
      with a fixed set of string keys; they are records here.
    - The board is the [Env] part of the machine: a microsecond clock, the
      level of every input pin as a function of time, the UART receive
      buffer, a schedule that says which of the next UART driver calls
      raise, and the trace of I/O performed so far.
    - Reading a pin or the clock takes no time; [time.sleep_ms n] advances
      the clock by [n] milliseconds.
    - A routine runs without being preempted; an interrupt handler is a
      transition of its own between routines.
    - The forever loop is embedded as one pass ([loop_body]) and observed
      for a number of passes ([iterate], [main]); interrupts fire between
      routines, not inside them. *)

From Stdlib Require Import ZArith List String Ascii Bool Lia DecimalString.
Import ListNotations.
Open Scope string_scope.
Open Scope list_scope.
Open Scope Z_scope.

(** ** MicroPython ticks *)

Module Ticks.

(** [time.ticks_ms()] and [time.ticks_us()] count modulo [TICKS_PERIOD]
    (2^30 on the RP2 port); [time.ticks_diff] is the signed difference in
    the ring. *)
Definition TICKS_PERIOD : Z := 2 ^ 30.
Definition TICKS_HALF : Z := TICKS_PERIOD / 2.

Definition ticks_diff (a b : Z) : Z :=
  ((a - b + TICKS_HALF) mod TICKS_PERIOD) - TICKS_HALF.

End Ticks.
Import Ticks.

(** ** The board *)

Inductive PinId : Type :=
| PinA | PinB | PinModifier | PinOverride | PinPumpStop.

(** One entry per I/O action, oldest first.  The [bool] of a UART driver
    call is [true] when the call returned and [false] when it raised. *)
Inductive IO : Type :=
| IoAny (ok : bool)
| IoRead (ok : bool)
| IoWrite (payload : string) (ok : bool)
| IoDeinit (ok : bool)
| IoInit (ok : bool)
| IoSleep (ms : Z)
| IoPrint (text : string).

Record Env : Type := mkEnv {
  clock_us : Z;                    (* time since boot, microseconds *)
  level : PinId -> Z -> bool;      (* level p t: pin p is high at time t *)
  rx_buf : list ascii;             (* inbound bytes buffered by the UART *)
  faults : list bool;              (* head = does the next driver call raise *)
  trace : list IO
}.

(** ** Program state (the module globals) *)

Record EncoderState : Type := mkEncoderState {
  last_a : Z;
  last_time : Z;
  debounce_us : Z;
  interrupt_count : Z;
  last_rate_check : Z;
  max_rate : Z
}.

Record ButtonState : Type := mkButtonState {
  override_last_time : Z;
  pump_last_time : Z;
  debounce_ms : Z
}.

Record Stats : Type := mkStats {
  steps : Z;
  overrides : Z;
  pump_stops : Z;
  blocked : Z
}.

Record Machine : Type := mkMachine {
  interrupt_lock : bool;
  encoder_pending : bool;
  override_pending : bool;
  pump_pending : bool;
  encoder_state : EncoderState;
  button_state : ButtonState;
  stats : Stats;
  env : Env;
  (* Ghost: every message handed to [safe_uart_write], oldest first.  The
     transport is best effort, so this is what "emitted" means. *)
  emitted : list string
}.

(** Field updates. *)

Definition set_interrupt_lock (v : bool) (m : Machine) : Machine :=
  mkMachine v (encoder_pending m) (override_pending m) (pump_pending m)
            (encoder_state m) (button_state m) (stats m) (env m) (emitted m).

Definition set_encoder_pending (v : bool) (m : Machine) : Machine :=
  mkMachine (interrupt_lock m) v (override_pending m) (pump_pending m)
            (encoder_state m) (button_state m) (stats m) (env m) (emitted m).

Definition set_override_pending (v : bool) (m : Machine) : Machine :=
  mkMachine (interrupt_lock m) (encoder_pending m) v (pump_pending m)
            (encoder_state m) (button_state m) (stats m) (env m) (emitted m).

Definition set_pump_pending (v : bool) (m : Machine) : Machine :=
  mkMachine (interrupt_lock m) (encoder_pending m) (override_pending m) v
            (encoder_state m) (button_state m) (stats m) (env m) (emitted m).

Definition set_encoder_state (v : EncoderState) (m : Machine) : Machine :=
  mkMachine (interrupt_lock m) (encoder_pending m) (override_pending m)
            (pump_pending m) v (button_state m) (stats m) (env m) (emitted m).

Definition set_button_state (v : ButtonState) (m : Machine) : Machine :=
  mkMachine (interrupt_lock m) (encoder_pending m) (override_pending m)
            (pump_pending m) (encoder_state m) v (stats m) (env m) (emitted m).

Definition set_stats (v : Stats) (m : Machine) : Machine :=
  mkMachine (interrupt_lock m) (encoder_pending m) (override_pending m)
            (pump_pending m) (encoder_state m) (button_state m) v (env m)
            (emitted m).

Definition set_env (v : Env) (m : Machine) : Machine :=
  mkMachine (interrupt_lock m) (encoder_pending m) (override_pending m)
            (pump_pending m) (encoder_state m) (button_state m) (stats m) v
            (emitted m).

Definition set_emitted (v : list string) (m : Machine) : Machine :=
  mkMachine (interrupt_lock m) (encoder_pending m) (override_pending m)
            (pump_pending m) (encoder_state m) (button_state m) (stats m)
            (env m) v.

Definition set_last_a (v : Z) (e : EncoderState) : EncoderState :=
  mkEncoderState v (last_time e) (debounce_us e) (interrupt_count e)
                 (last_rate_check e) (max_rate e).

Definition set_last_time (v : Z) (e : EncoderState) : EncoderState :=
  mkEncoderState (last_a e) v (debounce_us e) (interrupt_count e)
                 (last_rate_check e) (max_rate e).

Definition set_interrupt_count (v : Z) (e : EncoderState) : EncoderState :=
  mkEncoderState (last_a e) (last_time e) (debounce_us e) v
                 (last_rate_check e) (max_rate e).

Definition set_last_rate_check (v : Z) (e : EncoderState) : EncoderState :=
  mkEncoderState (last_a e) (last_time e) (debounce_us e) (interrupt_count e)
                 v (max_rate e).

Definition set_override_last_time (v : Z) (b : ButtonState) : ButtonState :=
  mkButtonState v (pump_last_time b) (debounce_ms b).

Definition set_pump_last_time (v : Z) (b : ButtonState) : ButtonState :=
  mkButtonState (override_last_time b) v (debounce_ms b).

Definition set_steps (v : Z) (s : Stats) : Stats :=
  mkStats v (overrides s) (pump_stops s) (blocked s).

Definition set_overrides (v : Z) (s : Stats) : Stats :=
  mkStats (steps s) v (pump_stops s) (blocked s).

Definition set_pump_stops (v : Z) (s : Stats) : Stats :=
  mkStats (steps s) (overrides s) v (blocked s).

Definition set_blocked (v : Z) (s : Stats) : Stats :=
  mkStats (steps s) (overrides s) (pump_stops s) v.

Definition set_clock_us (v : Z) (e : Env) : Env :=
  mkEnv v (level e) (rx_buf e) (faults e) (trace e).

Definition set_rx_buf (v : list ascii) (e : Env) : Env :=
  mkEnv (clock_us e) (level e) v (faults e) (trace e).

Definition set_faults (v : list bool) (e : Env) : Env :=
  mkEnv (clock_us e) (level e) (rx_buf e) v (trace e).

Definition log (io : IO) (e : Env) : Env :=
  mkEnv (clock_us e) (level e) (rx_buf e) (faults e) (trace e ++ [io]).

(** ** Computations that may raise *)

Inductive Res (A : Type) : Type :=
| Ok (a : A)
| Raised.
Arguments Ok {A} a.
Arguments Raised {A}.

Definition M (A : Type) : Type := Machine -> Res A * Machine.

Definition ret {A} (a : A) : M A := fun m => (Ok a, m).

Definition bind {A B} (c : M A) (k : A -> M B) : M B :=
  fun m => match c m with
           | (Ok a, m') => k a m'
           | (Raised, m') => (Raised, m')
           end.

(** [try: body / except: handler]; what [body] did before it raised stays. *)
Definition try_except {A} (body handler : M A) : M A :=
  fun m => match body m with
           | (Ok a, m') => (Ok a, m')
           | (Raised, m') => handler m'
           end.

Definition get {A} (f : Machine -> A) : M A := fun m => (Ok (f m), m).
Definition modify (f : Machine -> Machine) : M unit := fun m => (Ok tt, f m).

Notation "x <- c ;; k" := (bind c (fun x => k))
  (at level 61, c at next level, right associativity).
Notation "c ;;; k" := (bind c (fun _ => k))
  (at level 61, right associativity).

(** ** Board primitives *)

(** The value [time.ticks_ms()] (resp. [time.ticks_us()]) returns now. *)
Definition now_ms (m : Machine) : Z :=
  (clock_us (env m) / 1000) mod TICKS_PERIOD.

Definition now_us (m : Machine) : Z :=
  clock_us (env m) mod TICKS_PERIOD.

Definition ticks_ms : M Z := get now_ms.

Definition ticks_us : M Z := get now_us.

Definition sleep_ms (n : Z) : M unit :=
  modify (fun m =>
    set_env (log (IoSleep n) (set_clock_us (clock_us (env m) + n * 1000) (env m))) m).

(** [pin.value()]: 1 when the pin is high now, 0 when it is low. *)
Definition pin_now (p : PinId) (m : Machine) : Z :=
  if level (env m) p (clock_us (env m)) then 1 else 0.

Definition pin_value (p : PinId) : M Z := get (pin_now p).

Definition print (text : string) : M unit :=
  modify (fun m => set_env (log (IoPrint text) (env m)) m).

(** A UART driver call consults the fault schedule: when its head is [true]
    the call raises; an exhausted schedule means no further fault. *)
Definition driver_call {A} (ev : bool -> IO) (run : Env -> A * Env) : M A :=
  fun m =>
    let e := env m in
    match faults e with
    | true :: fs => (Raised, set_env (log (ev false) (set_faults fs e)) m)
    | _ =>
        let (a, e') := run (set_faults (tl (faults e)) e) in
        (Ok a, set_env (log (ev true) e') m)
    end.

(** [serial.any()] *)
Definition serial_any : M Z :=
  driver_call IoAny (fun e => (Z.of_nat (List.length (rx_buf e)), e)).

(** [serial.read(1)] *)
Definition serial_read1 : M (option ascii) :=
  driver_call IoRead (fun e =>
    match rx_buf e with
    | [] => (None, e)
    | b :: rest => (Some b, set_rx_buf rest e)
    end).

(** [serial.write(message)] *)
Definition serial_write (message : string) : M Z :=
  driver_call (IoWrite message)
              (fun e => (Z.of_nat (String.length message), e)).

(** [serial.deinit()] *)
Definition serial_deinit : M unit :=
  driver_call IoDeinit (fun e => (tt, e)).

(** [UART(0, baudrate=115200, tx=0, rx=1)]: a fresh peripheral, with an
    empty receive buffer. *)
Definition uart_init : M unit :=
  driver_call IoInit (fun e => (tt, set_rx_buf [] e)).

(** What reached the wire: the payloads of the writes that returned. *)
Fixpoint wire (t : list IO) : list string :=
  match t with
  | [] => []
  | IoWrite payload true :: t' => payload :: wire t'
  | _ :: t' => wire t'
  end.

(** ** The firmware *)

Inductive Revision : Type := V1_3 | V1_5.

Definition NL : string := String (ascii_of_nat 10) EmptyString.

(** Python's [str] of an integer, as an f-string renders it. *)
Definition str_of_int (n : Z) : string := NilZero.string_of_int (Z.to_int n).

Definition upd_encoder (f : EncoderState -> EncoderState) : M unit :=
  modify (fun m => set_encoder_state (f (encoder_state m)) m).

Definition upd_button (f : ButtonState -> ButtonState) : M unit :=
  modify (fun m => set_button_state (f (button_state m)) m).

Definition upd_stats (f : Stats -> Stats) : M unit :=
  modify (fun m => set_stats (f (stats m)) m).

(** *** UART health management *)

(** [ensure_uart_alive] (V1.5 only).  The text of the exception, which
    Python appends to the two error lines, is not part of the model. *)
Definition ensure_uart_alive : M bool :=
  try_except
    (serial_write EmptyString ;;; ret true)
    (print "UART error, reinitializing:" ;;;
     try_except serial_deinit (ret tt) ;;;
     sleep_ms 50 ;;;
     try_except
       (uart_init ;;; print "UART reinitialized" ;;; ret true)
       (print "UART reinit failed:" ;;; ret false)).

(** [while serial.any(): serial.read(1)].  Every round that reads removes
    one buffered byte, so one round more than the buffer holds is enough;
    [drain_rx_spec] below shows the bound is never what stops the loop. *)
Fixpoint drain_rx (fuel : nat) : M unit :=
  match fuel with
  | O => ret tt
  | S k =>
      n <- serial_any ;;
      if n =? 0 then ret tt else (serial_read1 ;;; drain_rx k)
  end.

Definition drain : M unit :=
  fun m => drain_rx (S (List.length (rx_buf (env m)))) m.

(** [safe_uart_write].  The first line is ghost: it records the message
    the caller hands over. *)
Definition safe_uart_write (rev : Revision) (message : string) : M bool :=
  modify (fun m => set_emitted (emitted m ++ [message]) m) ;;;
  try_except
    (drain ;;;
     serial_write message ;;;
     ret true)
    (match rev with
     | V1_5 =>
         print "UART write failed:" ;;;
         ensure_uart_alive ;;;
         ret false
     | V1_3 => ret false
     end).

(** *** Interrupt handlers *)

Definition check_rate_limit : M bool :=
  now <- ticks_ms ;;
  start <- get (fun m => last_rate_check (encoder_state m)) ;;
  if ticks_diff now start >=? 1000 then
    upd_encoder (set_interrupt_count 0) ;;;
    upd_encoder (set_last_rate_check now) ;;;
    ret true
  else
    upd_encoder (fun e => set_interrupt_count (interrupt_count e + 1) e) ;;;
    e <- get encoder_state ;;
    ret (interrupt_count e <=? max_rate e).

Definition encoder_isr : M unit :=
  lock <- get interrupt_lock ;;
  (* [not interrupt_lock and check_rate_limit()] short-circuits *)
  pass <- (if negb lock then check_rate_limit else ret false) ;;
  if pass then modify (set_encoder_pending true)
  else upd_stats (fun s => set_blocked (blocked s + 1) s).

Definition override_isr : M unit :=
  lock <- get interrupt_lock ;;
  if negb lock then modify (set_override_pending true) else ret tt.

Definition pump_stop_isr : M unit :=
  lock <- get interrupt_lock ;;
  if negb lock then modify (set_pump_pending true) else ret tt.

(** *** Processing routines *)

Definition process_encoder (rev : Revision) : M unit :=
  pending <- get encoder_pending ;;
  if negb pending then ret tt else
  modify (set_encoder_pending false) ;;;
  now <- ticks_us ;;
  es <- get encoder_state ;;
  if ticks_diff now (last_time es) <? debounce_us es then ret tt else
  a <- pin_value PinA ;;
  b <- pin_value PinB ;;
  (if a =? 1 then
     modifier <- pin_value PinModifier ;;
     let step := if modifier =? 0 then 10 else 1 in
     let msg := if b =? 0 then ("+" ++ str_of_int step)%string
                else ("-" ++ str_of_int step)%string in
     print msg ;;;
     safe_uart_write rev (msg ++ NL)%string ;;;
     upd_stats (fun s => set_steps (steps s + 1) s) ;;;
     upd_encoder (set_last_time now)
   else ret tt) ;;;
  upd_encoder (set_last_a a).

Definition process_override (rev : Revision) : M unit :=
  pending <- get override_pending ;;
  if negb pending then ret tt else
  modify (set_override_pending false) ;;;
  now <- ticks_ms ;;
  bs <- get button_state ;;
  if ticks_diff now (override_last_time bs) <? debounce_ms bs then ret tt else
  upd_button (set_override_last_time now) ;;;
  sleep_ms 5 ;;;
  v <- pin_value PinOverride ;;
  if v =? 0 then
    safe_uart_write rev ("OV" ++ NL)%string ;;;
    print "OV" ;;;
    upd_stats (fun s => set_overrides (overrides s + 1) s)
  else ret tt.

Definition process_pump_stop (rev : Revision) : M unit :=
  pending <- get pump_pending ;;
  if negb pending then ret tt else
  modify (set_pump_pending false) ;;;
  now <- ticks_ms ;;
  bs <- get button_state ;;
  if ticks_diff now (pump_last_time bs) <? debounce_ms bs then ret tt else
  upd_button (set_pump_last_time now) ;;;
  sleep_ms 5 ;;;
  v <- pin_value PinPumpStop ;;
  if v =? 0 then
    safe_uart_write rev ("PS" ++ NL)%string ;;;
    print "PS" ;;;
    upd_stats (fun s => set_pump_stops (pump_stops s + 1) s)
  else ret tt.

(** [gc.collect()] touches nothing the model holds. *)
Definition gc_collect : M unit := ret tt.

Definition periodic_cleanup : M unit :=
  gc_collect ;;;
  drain.

Definition system_reset : M unit :=
  modify (set_interrupt_lock true) ;;;
  modify (set_encoder_pending false) ;;;
  modify (set_override_pending false) ;;;
  modify (set_pump_pending false) ;;;
  a <- pin_value PinA ;;
  upd_encoder (set_last_a a) ;;;
  t <- ticks_us ;;
  upd_encoder (set_last_time t) ;;;
  upd_encoder (set_interrupt_count 0) ;;;
  periodic_cleanup ;;;
  sleep_ms 10 ;;;
  modify (set_interrupt_lock false).

(** *** Start-up state and running *)

(** The module-level initialisers, evaluated on the board [e]. *)
Definition boot (e : Env) : Machine :=
  let t_ms := (clock_us e / 1000) mod TICKS_PERIOD in
  mkMachine false false false false
    (mkEncoderState (if level e PinA (clock_us e) then 1 else 0)
                    (clock_us e mod TICKS_PERIOD) 1500 0 t_ms 1000)
    (mkButtonState t_ms t_ms 50)
    (mkStats 0 0 0 0)
    e [].

Definition result {A} (c : M A) (m : Machine) : Res A := fst (c m).
Definition after {A} (c : M A) (m : Machine) : Machine := snd (c m).

(** Time passing with nothing running. *)
Definition advance (d_us : Z) (m : Machine) : Machine :=
  set_env (set_clock_us (clock_us (env m) + d_us) (env m)) m.

(** [n] encoder interrupts in a row, no time passing between them. *)
Fixpoint isr_burst (n : nat) (m : Machine) : Machine :=
  match n with
  | O => m
  | S k => isr_burst k (after encoder_isr m)
  end.

(** The three configuration entries no routine writes. *)
Definition config_ok (m : Machine) : Prop :=
  debounce_us (encoder_state m) = 1500 /\
  max_rate (encoder_state m) = 1000 /\
  debounce_ms (button_state m) = 50.

(** What the reset property observes: the three pending flags, the lock
    and the encoder interrupt counter. *)
Definition observable (m : Machine) : bool * bool * bool * bool * Z :=
  (encoder_pending m, override_pending m, pump_pending m,
   interrupt_lock m, interrupt_count (encoder_state m)).

(** A quiet board for examples: pins low, nothing buffered, no fault. *)
Definition quiet_env : Env :=
  mkEnv 0 (fun _ _ => false) [] [] [].


(** Encoder interrupts separated by the given delays (microseconds): the
    clock advances by the head, the handler runs, and so on. *)
Fixpoint isr_train (gaps : list Z) (m : Machine) : Machine :=
  match gaps with
  | [] => m
  | d :: rest => isr_train rest (after encoder_isr (advance d m))
  end.

Definition pending_flags (m : Machine) : bool * bool * bool :=
  (encoder_pending m, override_pending m, pump_pending m).

(** The zero-length probe write of the health check occurs in a trace. *)
Definition is_probe (io : IO) : bool :=
  match io with
  | IoWrite EmptyString _ => true
  | _ => false
  end.

Definition probed (t : list IO) : bool := existsb is_probe t.

(** A successful [any] or [read]: the calls of a completed discard loop. *)
Definition is_discard (io : IO) : bool :=
  match io with
  | IoAny true | IoRead true => true
  | _ => false
  end.

Definition is_write (io : IO) : bool :=
  match io with
  | IoWrite _ _ => true
  | _ => false
  end.

(** The driver calls on which a send can fail. *)
Definition failed_call (message : string) (io : IO) : Prop :=
  io = IoAny false \/ io = IoRead false \/ io = IoWrite message false.

(** A board on which the first driver call raises. *)
Definition faulty_env : Env :=
  mkEnv 0 (fun _ _ => false) [] [true] [].

(** The wire text of an encoder step as the interface section words it:
    a sign from phase B, then 10 when the modifier reads 0 and 1 otherwise,
    then a newline. *)
Definition encoder_msg (b modifier : Z) : string :=
  let sign := if b =? 0 then "+" else "-" in
  let digits := if modifier =? 0 then "10" else "1" in
  (sign ++ digits)%string.

Definition encoder_text (b modifier : Z) : string :=
  (encoder_msg b modifier ++ NL)%string.

(** Example boards and machines.  [turning]: 2 ms after start-up, encoder
    interrupt pending, phase A high, phase B low, modifier released. *)
Definition turn_env : Env :=
  mkEnv 0 (fun p t => match p with
                      | PinA => 1000 <=? t
                      | PinB => false
                      | _ => true
                      end) [] [] [].


(** [pressed]: 100 ms after start-up both buttons went low and stay low;
    both interrupts are pending. *)
Definition pressed_env : Env :=
  mkEnv 0 (fun p t => match p with
                      | PinOverride | PinPumpStop => t <? 100000
                      | _ => true
                      end) [] [] [].

Definition pressed : Machine :=
  set_override_pending true
    (set_pump_pending true (advance 100000 (boot pressed_env))).

(** [glitching]: as [pressed], but the override pin was low for 2 ms only,
    so it reads high again at the confirmation re-read. *)
Definition glitch_env : Env :=
  mkEnv 0 (fun p t => match p with
                      | PinOverride => (t <? 100000) || (102000 <=? t)
                      | _ => true
                      end) [] [] [].

Definition glitching : Machine :=
  set_override_pending true (advance 100000 (boot glitch_env)).

(** What [system_reset] has written when it reaches [periodic_cleanup]. *)
Definition reset_prologue (m : Machine) : Machine :=
  set_encoder_state
    (set_interrupt_count 0
       (set_last_time (now_us m)
          (set_last_a (pin_now PinA m) (encoder_state m))))
    (set_pump_pending false
       (set_override_pending false
          (set_encoder_pending false (set_interrupt_lock true m)))).

(** A board on which the second driver call raises. *)
Definition late_fault_env : Env :=
  mkEnv 0 (fun _ _ => false) [] [false; true] [].



(** Encoder interrupts under load: the first arrives 1000 ms after
    start-up and opens a new rate window, [k] more follow 900 us apart, all
    of them inside that window when [k] is at most 1110. *)
Definition window_train (k : nat) : list Z := 1000000 :: repeat 900 k.

(** A computation that touches the board only, and one that never raises. *)
Definition env_only {A} (c : M A) : Prop :=
  forall m, exists r e', c m = (r, set_env e' m).

Definition never_raises {A} (c : M A) : Prop :=
  forall m, exists a, fst (c m) = Ok a.

(** The three interrupt sources and their handlers. *)
Inductive Irq : Type := IrqEncoder | IrqOverride | IrqPumpStop.

Definition handler (i : Irq) : M unit :=
  match i with
  | IrqEncoder => encoder_isr
  | IrqOverride => override_isr
  | IrqPumpStop => pump_stop_isr
  end.

(** Interrupts firing one after the other, each after the given delay
    (microseconds), with nothing else running in between. *)
Fixpoint irq_sequence (evs : list (Z * Irq)) (m : Machine) : Machine :=
  match evs with
  | [] => m
  | (d, i) :: rest => irq_sequence rest (after (handler i) (advance d m))
  end.

(** ** The main loop *)

(** The two module-level variables of the loop.  V1.3 has no heartbeat and
    never reads or writes [last_status]. *)
Record LoopVars : Type := mkLoopVars {
  last_cleanup : Z;
  last_status : Z
}.

(** [raise]: what a failing Python operation does. *)
Definition raise {A} : M A := fun m => (Raised, m).

(** [bytes.decode('utf-8')] of a single byte: bytes 0..127 decode to the
    character with that code, any other byte alone is not valid UTF-8 and
    raises. *)
Definition decode_utf8 (b : ascii) : option ascii :=
  if (nat_of_ascii b <? 128)%nat then Some b else None.

(** The command step at the end of an iteration:
    [if serial.any(): try: cmd = serial.read(1).decode('utf-8') ...].
    [serial.any()] is outside the [try].  [serial.read(1)] returning [None]
    makes [.decode] raise.  V1.3 also tests for an [s] command, which does
    nothing. *)
Definition poll_command (rev : Revision) : M unit :=
  n <- serial_any ;;
  if n =? 0 then ret tt else
  try_except
    (ob <- serial_read1 ;;
     match ob with
     | None => raise
     | Some b =>
         match decode_utf8 b with
         | None => raise
         | Some cmd =>
             if Ascii.eqb cmd "r"%char then system_reset else ret tt
         end
     end)
    (match rev with
     | V1_5 => ensure_uart_alive ;;; ret tt
     | V1_3 => ret tt
     end).

(** The periodic maintenance of an iteration; the result is the new
    [last_cleanup]. *)
Definition maintenance (rev : Revision) (current_time : Z) (lv : LoopVars) : M Z :=
  if ticks_diff current_time (last_cleanup lv) >? 5000 then
    periodic_cleanup ;;;
    (match rev with
     | V1_5 => ensure_uart_alive ;;; ret tt
     | V1_3 => ret tt
     end) ;;;
    ret current_time
  else ret (last_cleanup lv).

(** The heartbeat of an iteration (V1.5 only); the result is the new
    [last_status]. *)
Definition heartbeat (rev : Revision) (current_time : Z) (lv : LoopVars) : M Z :=
  match rev with
  | V1_5 =>
      if ticks_diff current_time (last_status lv) >? 10000 then
        safe_uart_write rev ("OK" ++ NL)%string ;;;
        print "OK" ;;;
        ret current_time
      else ret (last_status lv)
  | V1_3 => ret (last_status lv)
  end.

(** One pass through the body of [while True]. *)
Definition loop_body (rev : Revision) (lv : LoopVars) : M LoopVars :=
  current_time <- ticks_ms ;;
  process_encoder rev ;;;
  process_override rev ;;;
  process_pump_stop rev ;;;
  lc <- maintenance rev current_time lv ;;
  ls <- heartbeat rev current_time lv ;;
  poll_command rev ;;;
  sleep_ms 5 ;;;
  ret (mkLoopVars lc ls).

(** The first [n] passes of the loop; a pass that raises ends it. *)
Fixpoint iterate (n : nat) (rev : Revision) (lv : LoopVars) : M LoopVars :=
  match n with
  | O => ret lv
  | S k => lv' <- loop_body rev lv ;; iterate k rev lv'
  end.

(** The body of the [except Exception] handler of the program. *)
Definition on_exception (rev : Revision) : M unit :=
  match rev with
  | V1_5 =>
      print "Main loop exception:" ;;;
      ensure_uart_alive ;;;
      system_reset
  | V1_3 => system_reset
  end.

(** The loop inside its [try], observed for [n] passes, with the
    [except Exception] handler.  ([KeyboardInterrupt] comes from outside and
    is not modelled.) *)
Definition main (rev : Revision) (n : nat) (lv : LoopVars) : M unit :=
  try_except
    (iterate n rev lv ;;; ret tt)
    (on_exception rev).

(** The loop variables as the module initialises them. *)
Definition boot_vars (e : Env) : LoopVars :=
  let t_ms := (clock_us e / 1000) mod TICKS_PERIOD in
  mkLoopVars t_ms t_ms.

(** The bytes that reached the wire, as one string. *)
Definition wire_bytes (t : list IO) : string :=
  fold_right String.append EmptyString (wire t).

(** No driver call is scheduled to raise. *)
Definition healthy (m : Machine) : Prop := faults (env m) = [].

(** [stale_turning]: as [turning], but ten minutes after start-up, with
    the encoder timestamp still the one taken at start-up. *)
Definition stale_turning : Machine :=
  set_encoder_pending true (advance 600000000 (boot turn_env)).

(** [stale_pressed]: as [pressed], but 600000 s (almost seven days) after
    start-up, with the button timestamps still those taken at start-up. *)
Definition stale_pressed : Machine :=
  set_override_pending true
    (set_pump_pending true (advance 600000000000 (boot pressed_env))).

(** Whether a pass that reads [current_time] sends the heartbeat: more
    than 10000 ms since [last_status], in V1.5 only. *)
Definition heartbeat_due (rev : Revision) (current_time : Z) (lv : LoopVars) : bool :=
  match rev with
  | V1_5 => ticks_diff current_time (last_status lv) >? 10000
  | V1_3 => false
  end.

(** A board that received the reset command [r] and whose third driver
    call raises: the [any] and the [read] of the command step succeed, the
    [any] of the reset's buffer clean-up raises. *)
Definition reset_fault_env : Env :=
  mkEnv 0 (fun _ _ => true) ["r"%char] [false; false; true] [].

(** From [m] to [m']: the transport is still without faults, the clock did
    not go back, and a clear lock is still clear. *)
Definition keeps_going (m m' : Machine) : Prop :=
  healthy m' /\
  clock_us (env m) <= clock_us (env m') /\
  (interrupt_lock m = false -> interrupt_lock m' = false).

(** The lines of the wire protocol. *)
Definition protocol_lines : list string :=
  [("+1" ++ NL)%string; ("+10" ++ NL)%string;
   ("-1" ++ NL)%string; ("-10" ++ NL)%string;
   ("OV" ++ NL)%string; ("PS" ++ NL)%string; ("OK" ++ NL)%string].

Definition on_protocol (line : string) : Prop := In line protocol_lines.

(** A payload the UART may carry: a protocol line, or the zero-length
    probe of the health check. *)
Definition wire_payload (w : string) : Prop :=
  w = EmptyString \/ on_protocol w.

(** From [m] to [m']: the three configuration entries are the same, what
    was emitted since is protocol lines only, and so is what reached the
    wire since (zero-length probes apart). *)
Definition steady (m m' : Machine) : Prop :=
  debounce_us (encoder_state m') = debounce_us (encoder_state m) /\
  max_rate (encoder_state m') = max_rate (encoder_state m) /\
  debounce_ms (button_state m') = debounce_ms (button_state m) /\
  (exists msgs, emitted m' = emitted m ++ msgs /\ Forall on_protocol msgs) /\
  (exists ws, wire (trace (env m')) = wire (trace (env m)) ++ ws /\
              Forall wire_payload ws).

(** A computation that is [steady] from every state, whether it returns
    or raises. *)
Definition respects {A} (c : M A) : Prop :=
  forall m, steady m (after c m).

(** A board whose first driver call raises, with the clock at 20 s. *)
Definition late_faulty_env : Env :=
  mkEnv 20000000 (fun _ _ => true) [] [true] [].

(** The time a pass can lose to failures: V1.5 runs the health check
    after a failed send or read, and the health check sleeps 50 ms when its
    probe raises; V1.3 has no health check. *)
Definition fault_budget (rev : Revision) : Z :=
  match rev with
  | V1_3 => 0
  | V1_5 => 50000
  end.

(** The longest a pass of the loop can take, in microseconds.  V1.3: two
    confirmations of 5 ms, the 10 ms of a reset and the final 5 ms.  V1.5:
    two confirmations of 5 ms, the final 5 ms and six health checks of
    50 ms (three sends, maintenance, heartbeat, command step); its command
    step either resets, 10 ms, or runs the health check, never both. *)
Definition pass_budget (rev : Revision) : Z :=
  match rev with
  | V1_3 => 25000
  | V1_5 => 315000
  end.

(** [takes lo hh hi c]: from any state [c] never moves the clock back and
    takes at most [hi] microseconds; when it returns it took at least [lo];
    on a transport without faults it leaves the transport without faults
    and takes at most [hh]. *)
Definition takes {A} (lo hh hi : Z) (c : M A) : Prop :=
  forall m,
    clock_us (env m) <= clock_us (env (after c m)) <= clock_us (env m) + hi /\
    (forall a, result c m = Ok a ->
               clock_us (env m) + lo <= clock_us (env (after c m))) /\
    (healthy m ->
     healthy (after c m) /\
     clock_us (env (after c m)) <= clock_us (env m) + hh).

(** The command handed to the inner [try] of the command step. *)
Definition command_body : M unit :=
  ob <- serial_read1 ;;
  match ob with
  | None => raise
  | Some b =>
      match decode_utf8 b with
      | None => raise
      | Some cmd =>
          if Ascii.eqb cmd "r"%char then system_reset else ret tt
      end
  end.

(** [jammed]: as [pressed], on a board whose first driver call raises. *)
Definition jammed : Machine :=
  set_env (set_faults [true] (env pressed)) pressed.

(** A pass up to the command step. *)
Definition before_poll (rev : Revision) (lv : LoopVars) : M LoopVars :=
  current_time <- ticks_ms ;;
  process_encoder rev ;;;
  process_override rev ;;;
  process_pump_stop rev ;;;
  lc <- maintenance rev current_time lv ;;
  ls <- heartbeat rev current_time lv ;;
  ret (mkLoopVars lc ls).

(** From [m] to [m'] on a transport without faults: either the receive
    buffer has been emptied, or nothing was sent and the buffer is as it
    was. *)
Definition drained_or_quiet (m m' : Machine) : Prop :=
  healthy m' /\
  (rx_buf (env m') = [] \/
   (emitted m' = emitted m /\ rx_buf (env m') = rx_buf (env m))).

(** [pressed], with the reset command waiting in the receive buffer. *)
Definition pressed_with_command : Machine :=
  set_env (set_rx_buf ["r"%char] (env pressed)) pressed.

(** [c] sets no pending flag: a flag that is set afterwards was set
    before. *)
Definition never_sets {A} (c : M A) : Prop :=
  forall m,
    (encoder_pending (after c m) = true -> encoder_pending m = true) /\
    (override_pending (after c m) = true -> override_pending m = true) /\
    (pump_pending (after c m) = true -> pump_pending m = true).

(** The program with its interrupts: before each pass of the loop a burst
    of interrupts fires (each after the given delay), possibly empty. *)
Fixpoint run (rev : Revision) (sched : list (list (Z * Irq))) (lv : LoopVars)
  : M LoopVars :=
  match sched with
  | [] => ret lv
  | evs :: rest =>
      modify (irq_sequence evs) ;;;
      lv' <- loop_body rev lv ;;
      run rev rest lv'
  end.

(** [c] leaves the statistics alone. *)
Definition keeps_stats {A} (c : M A) : Prop :=
  forall m, stats (after c m) = stats m.



(** * Properties *)

Arguments ticks_diff : simpl never.
Arguments TICKS_PERIOD : simpl never.
Arguments Z.modulo : simpl never.
Arguments Z.div : simpl never.
Arguments check_rate_limit : simpl never.
Arguments safe_uart_write : simpl never.
Arguments drain : simpl never.
Arguments ensure_uart_alive : simpl never.

(** ** Ticks *)

(** With less than half a period between two readings of a clock,
    [ticks_diff] is the time that passed. *)
Lemma ticks_diff_elapsed (t d : Z) :
  - TICKS_HALF <= d < TICKS_HALF ->
  ticks_diff ((t + d) mod TICKS_PERIOD) (t mod TICKS_PERIOD) = d.
Proof.
  intros Hd. unfold ticks_diff.
  assert (HP : TICKS_PERIOD = 2 * TICKS_HALF) by reflexivity.
  assert (Hh : 0 < TICKS_HALF) by reflexivity.
  rewrite <- Zplus_mod_idemp_l, <- Zminus_mod, Zplus_mod_idemp_l.
  replace (t + d - t + TICKS_HALF) with (d + TICKS_HALF) by ring.
  rewrite Z.mod_small by lia. ring.
Qed.

Lemma ticks_diff_same (t : Z) : ticks_diff t t = 0.
Proof.
  unfold ticks_diff. replace (t - t + TICKS_HALF) with TICKS_HALF by ring.
  reflexivity.
Qed.

(** ** The monad *)

Lemma set_env_set_env (e e' : Env) (m : Machine) :
  set_env e' (set_env e m) = set_env e' m.
Proof. reflexivity. Qed.

Lemma set_env_same (m : Machine) : set_env (env m) m = m.
Proof. destruct m; reflexivity. Qed.

Lemma env_only_ret {A} (a : A) : env_only (ret a).
Proof. intros m. exists (Ok a), (env m). unfold ret. now rewrite set_env_same. Qed.

Lemma env_only_bind {A B} (c : M A) (k : A -> M B) :
  env_only c -> (forall a, env_only (k a)) -> env_only (bind c k).
Proof.
  intros Hc Hk m. unfold bind.
  destruct (Hc m) as (r & e1 & ->).
  destruct r as [a|].
  - destruct (Hk a (set_env e1 m)) as (r2 & e2 & ->).
    exists r2, e2. reflexivity.
  - exists Raised, e1. reflexivity.
Qed.

Lemma env_only_try {A} (body handler : M A) :
  env_only body -> env_only handler -> env_only (try_except body handler).
Proof.
  intros Hb Hh m. unfold try_except.
  destruct (Hb m) as (r & e1 & ->).
  destruct r as [a|].
  - exists (Ok a), e1. reflexivity.
  - destruct (Hh (set_env e1 m)) as (r2 & e2 & ->).
    exists r2, e2. reflexivity.
Qed.

Lemma env_only_driver_call {A} (ev : bool -> IO) (run : Env -> A * Env) :
  env_only (driver_call ev run).
Proof.
  intros m. unfold driver_call.
  destruct (faults (env m)) as [|[|] fs].
  - destruct (run _) as [a e']. eexists _, _. reflexivity.
  - eexists _, _. reflexivity.
  - destruct (run _) as [a e']. eexists _, _. reflexivity.
Qed.

Lemma env_only_print (text : string) : env_only (print text).
Proof. intros m. eexists _, _. reflexivity. Qed.

Lemma env_only_sleep_ms (n : Z) : env_only (sleep_ms n).
Proof. intros m. eexists _, _. reflexivity. Qed.

Lemma never_raises_ret {A} (a : A) : never_raises (ret a).
Proof. intros m. now exists a. Qed.

Lemma never_raises_modify (f : Machine -> Machine) : never_raises (modify f).
Proof. intros m. now exists tt. Qed.

Lemma never_raises_get {A} (f : Machine -> A) : never_raises (get f).
Proof. intros m. now exists (f m). Qed.

Lemma never_raises_bind {A B} (c : M A) (k : A -> M B) :
  never_raises c -> (forall a, never_raises (k a)) -> never_raises (bind c k).
Proof.
  intros Hc Hk m. unfold bind.
  destruct (Hc m) as (a & Ha). destruct (c m) as [r m1]. simpl in Ha. subst r.
  apply Hk.
Qed.

Lemma never_raises_try {A} (body handler : M A) :
  never_raises handler -> never_raises (try_except body handler).
Proof.
  intros Hh m. unfold try_except.
  destruct (body m) as [[a|] m1].
  - now exists a.
  - apply Hh.
Qed.

Create HintDb fw.

#[local] Hint Resolve env_only_ret env_only_bind env_only_try
  env_only_driver_call env_only_print env_only_sleep_ms
  never_raises_ret never_raises_modify never_raises_get never_raises_bind
  never_raises_try : fw.

Lemma env_only_drain_rx (fuel : nat) : env_only (drain_rx fuel).
Proof.
  induction fuel as [|k IH]; simpl.
  - auto with fw.
  - apply env_only_bind; [apply env_only_driver_call|].
    intros n. destruct (n =? 0); [auto with fw|].
    apply env_only_bind; [apply env_only_driver_call|auto].
Qed.

Lemma env_only_drain : env_only drain.
Proof. intros m. unfold drain. apply env_only_drain_rx. Qed.

Lemma env_only_ensure_uart_alive : env_only ensure_uart_alive.
Proof.
  unfold ensure_uart_alive.
  apply env_only_try.
  - apply env_only_bind; [apply env_only_driver_call|intros _; apply env_only_ret].
  - apply env_only_bind; [apply env_only_print|intros _].
    apply env_only_bind.
    { apply env_only_try; [apply env_only_driver_call|apply env_only_ret]. }
    intros _. apply env_only_bind; [apply env_only_sleep_ms|intros _].
    apply env_only_try.
    + apply env_only_bind; [apply env_only_driver_call|intros _].
      apply env_only_bind; [apply env_only_print|intros _; apply env_only_ret].
    + apply env_only_bind; [apply env_only_print|intros _; apply env_only_ret].
Qed.

Lemma never_raises_ensure_uart_alive : never_raises ensure_uart_alive.
Proof.
  unfold ensure_uart_alive.
  apply never_raises_try.
  apply never_raises_bind; [apply never_raises_modify|intros _].
  apply never_raises_bind; [apply never_raises_try, never_raises_ret|intros _].
  apply never_raises_bind; [apply never_raises_modify|intros _].
  apply never_raises_try.
  apply never_raises_bind; [apply never_raises_modify|intros _].
  apply never_raises_ret.
Qed.

(** [safe_uart_write] always returns; besides the ghost record it changes
    the board only. *)
Lemma safe_uart_write_frame (rev : Revision) (message : string) (m : Machine) :
  exists (b : bool) (e' : Env),
    safe_uart_write rev message m
    = (Ok b, set_env e' (set_emitted (emitted m ++ [message]) m)).
Proof.
  unfold safe_uart_write.
  set (c := try_except _ _).
  assert (He : env_only c).
  { subst c. apply env_only_try.
    - apply env_only_bind; [apply env_only_drain|intros _].
      unfold serial_write. auto with fw.
    - destruct rev; [auto with fw|].
      apply env_only_bind; [apply env_only_print|intros _].
      apply env_only_bind; [apply env_only_ensure_uart_alive|auto with fw]. }
  assert (Hn : never_raises c).
  { subst c. apply never_raises_try. destruct rev; [auto with fw|].
    unfold print. apply never_raises_bind; [auto with fw|intros _].
    apply never_raises_bind; [apply never_raises_ensure_uart_alive|auto with fw]. }
  unfold bind, modify.
  destruct (He (set_emitted (emitted m ++ [message]) m)) as (r & e' & Hc).
  destruct (Hn (set_emitted (emitted m ++ [message]) m)) as (b & Hb).
  rewrite Hc in Hb. simpl in Hb. subst r.
  exists b, e'. exact Hc.
Qed.

(** ** Interrupt handlers *)

Lemma check_rate_limit_eq (m : Machine) :
  check_rate_limit m =
  let es := encoder_state m in
  if ticks_diff (now_ms m) (last_rate_check es) >=? 1000 then
    (Ok true,
     set_encoder_state (set_last_rate_check (now_ms m) (set_interrupt_count 0 es)) m)
  else
    (Ok (interrupt_count es + 1 <=? max_rate es),
     set_encoder_state (set_interrupt_count (interrupt_count es + 1) es) m).
Proof.
  unfold check_rate_limit, bind, ticks_ms, get, upd_encoder, modify, ret. cbn.
  destruct (ticks_diff (now_ms m) (last_rate_check (encoder_state m)) >=? 1000);
    reflexivity.
Qed.


(** The handlers never raise. *)
Lemma handler_returns (i : Irq) (m : Machine) : result (handler i) m = Ok tt.
Proof.
  destruct i; unfold result, handler.
  - unfold encoder_isr, bind, get. destruct (interrupt_lock m); cbn; [reflexivity|].
    rewrite check_rate_limit_eq. cbn.
    destruct (ticks_diff _ _ >=? 1000); cbn; [reflexivity|].
    destruct (_ <=? _); reflexivity.
  - unfold override_isr, bind, get. destruct (interrupt_lock m); reflexivity.
  - unfold pump_stop_isr, bind, get. destruct (interrupt_lock m); reflexivity.
Qed.

Lemma encoder_isr_locked (m : Machine) :
  interrupt_lock m = true ->
  after encoder_isr m = set_stats (set_blocked (blocked (stats m) + 1) (stats m)) m.
Proof.
  intros H. unfold after, encoder_isr, bind, get. rewrite H. reflexivity.
Qed.

Lemma encoder_isr_unlocked (m : Machine) :
  interrupt_lock m = false ->
  after encoder_isr m =
  let m1 := after check_rate_limit m in
  match result check_rate_limit m with
  | Ok true => set_encoder_pending true m1
  | _ => set_stats (set_blocked (blocked (stats m1) + 1) (stats m1)) m1
  end.
Proof.
  intros H. unfold after, result, encoder_isr, bind, get. rewrite H. cbn.
  rewrite check_rate_limit_eq. cbn.
  destruct (ticks_diff _ _ >=? 1000); cbn; [reflexivity|].
  destruct (_ <=? _); reflexivity.
Qed.

Lemma handler_keeps_lock (i : Irq) (m : Machine) :
  interrupt_lock (after (handler i) m) = interrupt_lock m.
Proof.
  destruct i; unfold handler.
  - destruct (interrupt_lock m) eqn:E.
    + now rewrite encoder_isr_locked.
    + rewrite encoder_isr_unlocked by assumption. cbn.
      unfold result, after. rewrite check_rate_limit_eq. cbn.
      destruct (ticks_diff _ _ >=? 1000); cbn; [assumption|].
      destruct (_ <=? _); assumption.
  - unfold after, override_isr, bind, get. destruct (interrupt_lock m) eqn:E; cbn; assumption.
  - unfold after, pump_stop_isr, bind, get. destruct (interrupt_lock m) eqn:E; cbn; assumption.
Qed.

Lemma handler_locked_pending (i : Irq) (m : Machine) :
  interrupt_lock m = true ->
  pending_flags (after (handler i) m) = pending_flags m.
Proof.
  intros H. destruct i; unfold handler.
  - now rewrite encoder_isr_locked.
  - unfold after, override_isr, bind, get. now rewrite H.
  - unfold after, pump_stop_isr, bind, get. now rewrite H.
Qed.

(** C5.  While [interrupt_lock] is set, no pending flag changes: each of the
    three handlers, run with the lock set, leaves the three pending flags as
    they were, and so does any sequence of interrupts, whatever the delays
    between them. *)
Theorem C5_lock_freezes_pending (m : Machine) :
  interrupt_lock m = true ->
  pending_flags (after encoder_isr m) = pending_flags m /\
  pending_flags (after override_isr m) = pending_flags m /\
  pending_flags (after pump_stop_isr m) = pending_flags m /\
  forall evs, pending_flags (irq_sequence evs m) = pending_flags m.
Proof.
  intros Hlock.
  split; [exact (handler_locked_pending IrqEncoder m Hlock)|].
  split; [exact (handler_locked_pending IrqOverride m Hlock)|].
  split; [exact (handler_locked_pending IrqPumpStop m Hlock)|].
  intros evs. revert m Hlock.
  induction evs as [|[d i] rest IH]; intros m Hlock; [reflexivity|].
  simpl. rewrite IH.
  - now rewrite handler_locked_pending.
  - now rewrite handler_keeps_lock.
Qed.

Lemma C5_witness :
  let m := set_interrupt_lock true (boot quiet_env) in
  interrupt_lock m = true /\
  pending_flags (irq_sequence [(10, IrqEncoder); (20, IrqOverride); (5, IrqPumpStop)] m)
  = (false, false, false).
Proof.
  split; [reflexivity|].
  apply (C5_lock_freezes_pending (set_interrupt_lock true (boot quiet_env))).
  reflexivity.
Defined.





(** C4, as the code has it.  With [interrupt_lock] clear, the override and
    pump-stop handlers do one thing: set their own pending flag.  The
    encoder handler, when the rate limiter lets the interrupt through, sets
    its pending flag and besides writes the rate limiter's own two entries
    (interrupt counter and window start) through [check_rate_limit].  No
    handler touches the board (no I/O, no sleeping), the ghost record, the
    debounce timestamps or the other handlers' flags. *)
Theorem C4_isr_writes (m : Machine) :
  interrupt_lock m = false ->
  after override_isr m = set_override_pending true m /\
  after pump_stop_isr m = set_pump_pending true m /\
  (result check_rate_limit m = Ok true ->
   exists count start,
     after encoder_isr m
     = set_encoder_pending true
         (set_encoder_state
            (set_last_rate_check start
               (set_interrupt_count count (encoder_state m))) m)) /\
  (forall i,
     env (after (handler i) m) = env m /\
     emitted (after (handler i) m) = emitted m /\
     last_time (encoder_state (after (handler i) m)) = last_time (encoder_state m) /\
     button_state (after (handler i) m) = button_state m).
Proof.
  intros Hlock.
  split. { unfold after, override_isr, bind, get. now rewrite Hlock. }
  split. { unfold after, pump_stop_isr, bind, get. now rewrite Hlock. }
  split.
  - intros Hpass. rewrite encoder_isr_unlocked by assumption. cbv zeta.
    rewrite Hpass. unfold after. rewrite check_rate_limit_eq. cbv zeta.
    destruct (ticks_diff _ _ >=? 1000).
    + exists 0, (now_ms m). reflexivity.
    + exists (interrupt_count (encoder_state m) + 1),
             (last_rate_check (encoder_state m)).
      cbn. destruct m as [? ? ? ? [] ? ? ? ?]; reflexivity.
  - intros [| |]; unfold handler.
    + rewrite encoder_isr_unlocked by assumption. cbv zeta.
      unfold result, after. rewrite check_rate_limit_eq. cbv zeta.
      destruct (ticks_diff _ _ >=? 1000); cbn; [repeat split|].
      destruct (_ <=? _); repeat split.
    + unfold after, override_isr, bind, get. rewrite Hlock. repeat split.
    + unfold after, pump_stop_isr, bind, get. rewrite Hlock. repeat split.
Qed.

Lemma C4_witness :
  interrupt_lock (boot quiet_env) = false /\
  after override_isr (boot quiet_env) = set_override_pending true (boot quiet_env).
Proof.
  split; [reflexivity|].
  apply (C4_isr_writes (boot quiet_env)). reflexivity.
Defined.

(** C4 as the spec words it fails for the encoder: at start-up the lock is
    clear and the rate limiter lets the interrupt through, yet the handler
    leaves more than the pending flag changed (the interrupt counter went
    from 0 to 1). *)
Lemma C4_counterexample :
  interrupt_lock (boot quiet_env) = false /\
  result check_rate_limit (boot quiet_env) = Ok true /\
  after encoder_isr (boot quiet_env) <> set_encoder_pending true (boot quiet_env) /\
  interrupt_count (encoder_state (boot quiet_env)) = 0 /\
  interrupt_count (encoder_state (after encoder_isr (boot quiet_env))) = 1.
Proof.
  split; [reflexivity|]. split; [reflexivity|].
  split; [|split; reflexivity].
  intros H.
  apply (f_equal (fun m => interrupt_count (encoder_state m))) in H.
  vm_compute in H. discriminate H.
Qed.

(** ** The transport *)

Lemma driver_call_cases {A} (ev : bool -> IO) (run : Env -> A * Env) (m : Machine) :
  (exists fs, faults (env m) = true :: fs /\
     driver_call ev run m
     = (Raised, set_env (log (ev false) (set_faults fs (env m))) m)) \/
  (let e0 := set_faults (tl (faults (env m))) (env m) in
   driver_call ev run m
   = (Ok (fst (run e0)), set_env (log (ev true) (snd (run e0))) m)).
Proof.
  unfold driver_call.
  destruct (faults (env m)) as [|[|] fs] eqn:E.
  - right. cbv zeta. now destruct (run _).
  - left. exists fs. split; reflexivity.
  - right. cbv zeta. now destruct (run _).
Qed.

Lemma drain_rx_S (k : nat) (m : Machine) :
  drain_rx (S k) m =
  match serial_any m with
  | (Ok n, m1) =>
      if n =? 0 then (Ok tt, m1)
      else match serial_read1 m1 with
           | (Ok _, m2) => drain_rx k m2
           | (Raised, m2) => (Raised, m2)
           end
  | (Raised, m1) => (Raised, m1)
  end.
Proof.
  simpl. unfold bind. destruct (serial_any m) as [[n|] m1]; [|reflexivity].
  destruct (n =? 0); reflexivity.
Qed.

(** The discard loop: it makes successful [any] and [read] calls only, and
    either ends with the buffer empty or stops at the first call that
    raises.  The bound on the rounds is never what ends it. *)
Lemma drain_rx_spec (fuel : nat) (m : Machine) :
  (List.length (rx_buf (env m)) < fuel)%nat ->
  exists pre e',
    forallb is_discard pre = true /\
    ((drain_rx fuel m = (Ok tt, set_env e' m) /\
      rx_buf e' = [] /\ trace e' = trace (env m) ++ pre) \/
     (drain_rx fuel m = (Raised, set_env e' m) /\
      exists bad, (bad = IoAny false \/ bad = IoRead false) /\
                  trace e' = trace (env m) ++ pre ++ [bad])).
Proof.
  revert m. induction fuel as [|k IH]; intros m Hlen; [inversion Hlen|].
  rewrite drain_rx_S. unfold serial_any.
  destruct (driver_call_cases IoAny
              (fun e => (Z.of_nat (List.length (rx_buf e)), e)) m)
    as [(fs & Hf & ->)|Hok].
  - exists [], (log (IoAny false) (set_faults fs (env m))).
    split; [reflexivity|]. right. split; [reflexivity|].
    exists (IoAny false). split; [now left|reflexivity].
  - cbv zeta in Hok. rewrite Hok. clear Hok. cbn [fst snd set_faults rx_buf].
    destruct (rx_buf (env m)) as [|b rest] eqn:Erx.
    + cbn. eexists [IoAny true], _. split; [reflexivity|]. left.
      split; [reflexivity|]. split; [exact Erx|reflexivity].
    + cbn [List.length].
      replace (Z.of_nat (S (List.length rest)) =? 0) with false
        by (symmetry; apply Z.eqb_neq; lia).
      unfold serial_read1.
      match goal with |- context [driver_call IoRead ?r ?mm] =>
        destruct (driver_call_cases IoRead r mm) as [(fs & Hf & ->)|Hok]
      end.
      * eexists [IoAny true], _. split; [reflexivity|]. right.
        split; [reflexivity|]. exists (IoRead false).
        split; [now right|]. cbn. now rewrite <- app_assoc.
      * cbv zeta in Hok. rewrite Hok. clear Hok.
        cbn [fst snd env set_env log set_faults rx_buf faults trace clock_us level].
        rewrite Erx. cbn [fst snd].
        match goal with |- context [drain_rx k ?mm] =>
          destruct (IH mm) as (pre & e' & Hpre & Hcase)
        end.
        { cbn. simpl in Hlen. lia. }
        exists (IoAny true :: IoRead true :: pre), e'.
        split; [cbn; exact Hpre|].
        destruct Hcase as [(Hr & Hrx & Ht)|(Hr & bad & Hbad & Ht)].
        -- left. rewrite Hr. split; [reflexivity|]. split; [exact Hrx|].
           rewrite Ht. cbn. now rewrite <- !app_assoc.
        -- right. rewrite Hr. split; [reflexivity|]. exists bad.
           split; [exact Hbad|]. rewrite Ht. cbn. now rewrite <- !app_assoc.
Qed.

Lemma drain_spec (m : Machine) :
  exists pre e',
    forallb is_discard pre = true /\
    ((drain m = (Ok tt, set_env e' m) /\
      rx_buf e' = [] /\ trace e' = trace (env m) ++ pre) \/
     (drain m = (Raised, set_env e' m) /\
      exists bad, (bad = IoAny false \/ bad = IoRead false) /\
                  trace e' = trace (env m) ++ pre ++ [bad])).
Proof. unfold drain. apply drain_rx_spec. lia. Qed.

Lemma safe_uart_write_eq (rev : Revision) (message : string) (m : Machine) :
  safe_uart_write rev message m =
  match (drain ;;; serial_write message ;;; ret true)
          (set_emitted (emitted m ++ [message]) m) with
  | (Ok b, m1) => (Ok b, m1)
  | (Raised, m1) =>
      match rev with
      | V1_5 => (print "UART write failed:" ;;; ensure_uart_alive ;;; ret false) m1
      | V1_3 => (Ok false, m1)
      end
  end.
Proof.
  unfold safe_uart_write, try_except, bind at 1, modify.
  destruct ((drain ;;; serial_write message ;;; ret true) _) as [[b|] m1];
    [reflexivity|]. now destruct rev.
Qed.

(** The body of the [try]: discard, then one write. *)
Lemma send_body_spec (message : string) (m : Machine) :
  exists pre e',
    forallb is_discard pre = true /\
    (((drain ;;; serial_write message ;;; ret true) m = (Ok true, set_env e' m) /\
      rx_buf e' = [] /\
      trace e' = trace (env m) ++ pre ++ [IoWrite message true]) \/
     ((drain ;;; serial_write message ;;; ret true) m = (Raised, set_env e' m) /\
      exists bad, failed_call message bad /\
                  trace e' = trace (env m) ++ pre ++ [bad])).
Proof.
  destruct (drain_spec m) as (pre & e1 & Hpre & [(Hd & Hrx & Ht)|(Hd & bad & Hbad & Ht)]).
  - assert (Hb : (drain ;;; serial_write message ;;; ret true) m
                 = match serial_write message (set_env e1 m) with
                   | (Ok _, m2) => (Ok true, m2)
                   | (Raised, m2) => (Raised, m2)
                   end).
    { unfold bind. rewrite Hd. now destruct (serial_write _ _) as [[?|] ?]. }
    rewrite Hb. clear Hb. unfold serial_write.
    match goal with |- context [driver_call ?ev ?r ?mm] =>
      destruct (driver_call_cases ev r mm) as [(fs & Hf & Hw)|Hw]
    end.
    + exists pre. eexists. split; [exact Hpre|]. right. rewrite Hw.
      split; [reflexivity|]. exists (IoWrite message false).
      split; [right; now right|]. cbn. rewrite Ht. now rewrite <- app_assoc.
    + cbv zeta in Hw. exists pre. eexists. split; [exact Hpre|]. left.
      rewrite Hw. cbn. split; [reflexivity|]. cbn. split; [exact Hrx|].
      rewrite Ht. now rewrite <- app_assoc.
  - assert (Hb : (drain ;;; serial_write message ;;; ret true) m
                 = (Raised, set_env e1 m)).
    { unfold bind. now rewrite Hd. }
    exists pre, e1. split; [exact Hpre|]. right. rewrite Hb.
    split; [reflexivity|]. exists bad. split; [|exact Ht].
    destruct Hbad as [->| ->]; [now left|right; now left].
Qed.

(** The health check starts with the zero-length probe write and writes
    nothing else. *)
Lemma ensure_uart_alive_trace (m : Machine) :
  exists ok rest,
    trace (env (after ensure_uart_alive m))
    = trace (env m) ++ IoWrite EmptyString ok :: rest /\
    forallb (fun io => negb (is_write io)) rest = true.
Proof.
  unfold after, ensure_uart_alive, try_except, bind, serial_write, serial_deinit,
    uart_init, driver_call, print, modify, sleep_ms, ret.
  destruct m as [l ep op pp es bs st [c lv rx fs t] em].
  destruct fs as [|[|] [|[|] [|[|] fs]]]; cbn;
    repeat rewrite <- app_assoc; cbn;
    eexists _, _; (split; [reflexivity|reflexivity]).
Qed.

Lemma ensure_uart_alive_probes (m : Machine) :
  probed (trace (env (after ensure_uart_alive m))) = true.
Proof.
  destruct (ensure_uart_alive_trace m) as (ok & rest & -> & _).
  unfold probed. rewrite existsb_app. cbn. apply orb_true_r.
Qed.

(** What a send does, in both revisions. *)
Lemma safe_uart_write_spec (rev : Revision) (message : string) (m : Machine) :
  exists pre e',
    after (safe_uart_write rev message) m
      = set_env e' (set_emitted (emitted m ++ [message]) m) /\
    forallb is_discard pre = true /\
    ((result (safe_uart_write rev message) m = Ok true /\
      rx_buf e' = [] /\
      trace e' = trace (env m) ++ pre ++ [IoWrite message true]) \/
     (result (safe_uart_write rev message) m = Ok false /\
      exists bad m1,
        failed_call message bad /\
        trace (env m1) = trace (env m) ++ pre ++ [bad] /\
        match rev with
        | V1_5 =>
            after (safe_uart_write V1_5 message) m
              = after ensure_uart_alive (after (print "UART write failed:") m1) /\
            exists ok rest,
              trace e' = trace (env m) ++ pre
                         ++ [bad; IoPrint "UART write failed:";
                             IoWrite EmptyString ok] ++ rest /\
              forallb (fun io => negb (is_write io)) rest = true
        | V1_3 =>
            after (safe_uart_write V1_3 message) m = m1 /\
            trace e' = trace (env m) ++ pre ++ [bad]
        end)).
Proof.
  unfold after, result. rewrite !safe_uart_write_eq.
  set (m0 := set_emitted (emitted m ++ [message]) m).
  destruct (send_body_spec message m0)
    as (pre & e1 & Hpre & [(Hb & Hrx & Ht)|(Hb & bad & Hbad & Ht)]).
  - rewrite Hb. exists pre, e1. split; [reflexivity|]. split; [exact Hpre|].
    left. split; [reflexivity|]. split; [exact Hrx|exact Ht].
  - rewrite Hb. exists pre. destruct rev.
    + exists e1. split; [reflexivity|]. split; [exact Hpre|]. right.
      split; [reflexivity|]. exists bad, (set_env e1 m0).
      split; [exact Hbad|]. split; [exact Ht|]. split; [reflexivity|exact Ht].
    + set (m1 := set_env e1 m0).
      set (m2 := after (print "UART write failed:") m1).
      destruct (env_only_ensure_uart_alive m2) as (r & e2 & He).
      destruct (never_raises_ensure_uart_alive m2) as (b & Hr).
      rewrite He in Hr. simpl in Hr. subst r.
      assert (Hrun : (print "UART write failed:" ;;; ensure_uart_alive ;;; ret false) m1
                     = (Ok false, set_env e2 m2)).
      { unfold bind. change (print "UART write failed:" m1) with (Ok tt, m2).
        cbv iota beta. now rewrite He. }
      rewrite Hrun. exists e2. split; [reflexivity|]. split; [exact Hpre|].
      right. split; [reflexivity|]. exists bad, m1.
      split; [exact Hbad|]. split; [exact Ht|]. split.
      * change (set_env e2 m2 = snd (ensure_uart_alive m2)). now rewrite He.
      * destruct (ensure_uart_alive_trace m2) as (ok & rest & Htr & Hrest).
        unfold after in Htr. rewrite He in Htr. cbn [snd env set_env] in Htr.
        exists ok, rest. split; [|exact Hrest].
        rewrite Htr. subst m2. cbn. rewrite Ht.
        now rewrite <- !app_assoc.
Qed.

(** C9, as the code has it.  [safe_uart_write] never raises and changes
    nothing of the program state (the message is kept nowhere).  It first
    runs the discard loop, whose calls are the successful [any]/[read] calls
    [pre], and then makes one write.
    - On success it returns true: the receive buffer is empty and the
      write of the message is the last thing in the trace.
    - When a driver call raises ([any], [read] or the write itself) it
      returns false, and the message is not written again.  In V1.5 the
      handler prints and runs [ensure_uart_alive], whose zero-length probe
      is the only write that follows.  In V1.3 nothing at all follows the
      failed call: that revision has no health check. *)
Theorem C9_safe_uart_write (rev : Revision) (message : string) (m : Machine) :
  exists pre e',
    after (safe_uart_write rev message) m
      = set_env e' (set_emitted (emitted m ++ [message]) m) /\
    forallb is_discard pre = true /\
    ((result (safe_uart_write rev message) m = Ok true /\
      rx_buf e' = [] /\
      trace e' = trace (env m) ++ pre ++ [IoWrite message true]) \/
     (result (safe_uart_write rev message) m = Ok false /\
      exists bad m1,
        failed_call message bad /\
        trace (env m1) = trace (env m) ++ pre ++ [bad] /\
        match rev with
        | V1_5 =>
            after (safe_uart_write V1_5 message) m
              = after ensure_uart_alive (after (print "UART write failed:") m1) /\
            exists ok rest,
              trace e' = trace (env m) ++ pre
                         ++ [bad; IoPrint "UART write failed:";
                             IoWrite EmptyString ok] ++ rest /\
              forallb (fun io => negb (is_write io)) rest = true
        | V1_3 =>
            after (safe_uart_write V1_3 message) m = m1 /\
            trace e' = trace (env m) ++ pre ++ [bad]
        end)).
Proof. exact (safe_uart_write_spec rev message m). Qed.

(** C9 as the spec words it fails on revision V1.3: when the first driver
    call raises, the send returns false and the failed call is all the
    trace holds; no probe write was made, and the resulting machine is not
    the result of any run of the health check. *)
Lemma C9_counterexample :
  result (safe_uart_write V1_3 "OK") (boot faulty_env) = Ok false /\
  trace (env (after (safe_uart_write V1_3 "OK") (boot faulty_env))) = [IoAny false] /\
  probed (trace (env (after (safe_uart_write V1_3 "OK") (boot faulty_env)))) = false /\
  forall m1,
    after (safe_uart_write V1_3 "OK") (boot faulty_env) <> after ensure_uart_alive m1.
Proof.
  split; [reflexivity|]. split; [reflexivity|]. split; [reflexivity|].
  intros m1 H.
  pose proof (ensure_uart_alive_probes m1) as Hp.
  rewrite <- H in Hp. vm_compute in Hp. discriminate Hp.
Qed.

(** *** A transport without faults *)

Lemma wire_app (t u : list IO) : wire (t ++ u) = wire t ++ wire u.
Proof.
  induction t as [|io t IH]; [reflexivity|].
  destruct io as [| |p [|]| | | |]; simpl; now rewrite IH.
Qed.

Lemma wire_discard (pre : list IO) :
  forallb is_discard pre = true -> wire pre = [].
Proof.
  induction pre as [|io pre IH]; [reflexivity|].
  simpl. intros H. apply andb_prop in H. destruct H as [Hio Hpre].
  destruct io as [[|]|[|]|p ok| | | |]; try discriminate Hio; now apply IH.
Qed.

Lemma driver_call_healthy {A} (ev : bool -> IO) (run : Env -> A * Env) (m : Machine) :
  faults (env m) = [] ->
  driver_call ev run m
  = (Ok (fst (run (env m))), set_env (log (ev true) (snd (run (env m)))) m).
Proof.
  intros H. unfold driver_call. rewrite H. cbn [tl].
  replace (set_faults [] (env m)) with (env m)
    by (destruct (env m); cbn in *; now subst).
  now destruct (run (env m)).
Qed.

Lemma drain_rx_healthy (fuel : nat) (m : Machine) :
  faults (env m) = [] ->
  (List.length (rx_buf (env m)) < fuel)%nat ->
  exists e',
    drain_rx fuel m = (Ok tt, set_env e' m) /\
    faults e' = [] /\ rx_buf e' = [] /\ wire (trace e') = wire (trace (env m)).
Proof.
  revert m. induction fuel as [|k IH]; intros m Hf Hlen; [inversion Hlen|].
  rewrite drain_rx_S. unfold serial_any. rewrite driver_call_healthy by assumption.
  cbn [fst snd].
  destruct (rx_buf (env m)) as [|b rest] eqn:Erx.
  - cbn. eexists. split; [reflexivity|]. cbn.
    split; [exact Hf|]. split; [exact Erx|].
    rewrite wire_app. cbn. apply app_nil_r.
  - cbn [List.length].
    replace (Z.of_nat (S (List.length rest)) =? 0) with false
      by (symmetry; apply Z.eqb_neq; lia).
    unfold serial_read1. rewrite driver_call_healthy by exact Hf.
    cbn [fst snd env set_env log rx_buf faults trace clock_us level].
    rewrite Erx. cbn [fst snd].
    match goal with |- context [drain_rx k ?mm] =>
      destruct (IH mm) as (e' & Hr & Hf' & Hrx & Hw)
    end.
    { cbn. exact Hf. }
    { cbn. simpl in Hlen. lia. }
    exists e'. rewrite Hr. split; [reflexivity|].
    split; [exact Hf'|]. split; [exact Hrx|].
    rewrite Hw. cbn. rewrite !wire_app. cbn. now rewrite !app_nil_r.
Qed.


(** ** Processing routines *)

Ltac break_machine m :=
  destruct m as [?l ?ep ?op ?pp [?la ?lt ?du ?ic ?lrc ?mr] [?olt ?plt ?dm]
                 [?st ?ov ?ps ?bl] [?c ?lv ?rx ?fs ?t] ?em].

Ltac unfold_routine :=
  unfold process_encoder, process_override, process_pump_stop, system_reset,
    periodic_cleanup, gc_collect, bind, get, modify, ret, ticks_us, ticks_ms,
    sleep_ms, print, pin_value, upd_stats, upd_encoder, upd_button, pin_now,
    now_us, now_ms, result, after in *.

Ltac step_send :=
  match goal with
  | |- context [safe_uart_write ?r ?msg ?mm] =>
      let b := fresh "b" in
      let e' := fresh "e'" in
      let Hs := fresh "Hs" in
      destruct (safe_uart_write_frame r msg mm) as (b & e' & Hs);
      rewrite !Hs
  end.

Lemma process_encoder_idle (rev : Revision) (m : Machine) :
  encoder_pending m = false -> process_encoder rev m = (Ok tt, m).
Proof. intros H. unfold process_encoder, bind, get. now rewrite H. Qed.

Lemma process_encoder_bounce (rev : Revision) (m : Machine) :
  encoder_pending m = true ->
  ticks_diff (now_us m) (last_time (encoder_state m)) < debounce_us (encoder_state m) ->
  process_encoder rev m = (Ok tt, set_encoder_pending false m).
Proof.
  intros Hp Hw. apply Z.ltb_lt in Hw. break_machine m. unfold_routine.
  cbn in *. subst. cbn. now rewrite Hw.
Qed.

Lemma process_encoder_low (rev : Revision) (m : Machine) :
  encoder_pending m = true ->
  debounce_us (encoder_state m) <= ticks_diff (now_us m) (last_time (encoder_state m)) ->
  pin_now PinA m = 0 ->
  process_encoder rev m
  = (Ok tt, set_encoder_state (set_last_a 0 (encoder_state m))
              (set_encoder_pending false m)).
Proof.
  intros Hp Hw Ha. apply Z.ltb_ge in Hw. break_machine m. unfold_routine.
  cbn in *. subst. cbn. rewrite Hw. cbn. destruct (lv PinA c); [discriminate Ha|].
  cbn. reflexivity.
Qed.

Lemma process_encoder_emit (rev : Revision) (m : Machine) :
  encoder_pending m = true ->
  debounce_us (encoder_state m) <= ticks_diff (now_us m) (last_time (encoder_state m)) ->
  pin_now PinA m = 1 ->
  let msg := encoder_msg (pin_now PinB m) (pin_now PinModifier m) in
  let text := encoder_text (pin_now PinB m) (pin_now PinModifier m) in
  let m1 := after (print msg) (set_encoder_pending false m) in
  process_encoder rev m
  = (Ok tt,
     mkMachine (interrupt_lock m) false (override_pending m) (pump_pending m)
       (set_last_a 1 (set_last_time (now_us m) (encoder_state m)))
       (button_state m)
       (set_steps (steps (stats m) + 1) (stats m))
       (env (after (safe_uart_write rev text) m1))
       (emitted m ++ [text])).
Proof.
  intros Hp Hw Ha. apply Z.ltb_ge in Hw. break_machine m.
  unfold encoder_text, encoder_msg. unfold_routine.
  cbn in *. subst. cbn. rewrite Hw. cbn. destruct (lv PinA c); [|discriminate Ha].
  cbn. 
  destruct (lv PinB c), (lv PinModifier c); cbn; step_send; reflexivity.
Qed.

Lemma process_override_idle (rev : Revision) (m : Machine) :
  override_pending m = false -> process_override rev m = (Ok tt, m).
Proof. intros H. unfold process_override, bind, get. now rewrite H. Qed.

Lemma process_override_bounce (rev : Revision) (m : Machine) :
  override_pending m = true ->
  ticks_diff (now_ms m) (override_last_time (button_state m))
    < debounce_ms (button_state m) ->
  process_override rev m = (Ok tt, set_override_pending false m).
Proof.
  intros Hp Hw. apply Z.ltb_lt in Hw. break_machine m. unfold_routine.
  cbn in *. subst. cbn. now rewrite Hw.
Qed.

Lemma process_override_glitch (rev : Revision) (m : Machine) :
  override_pending m = true ->
  debounce_ms (button_state m)
    <= ticks_diff (now_ms m) (override_last_time (button_state m)) ->
  pin_now PinOverride (after (sleep_ms 5) m) = 1 ->
  process_override rev m
  = (Ok tt,
     after (sleep_ms 5)
       (set_button_state (set_override_last_time (now_ms m) (button_state m))
          (set_override_pending false m))).
Proof.
  intros Hp Hw Hv. apply Z.ltb_ge in Hw. break_machine m. unfold_routine.
  cbn in *. subst. cbn. rewrite Hw. cbn.
  destruct (lv PinOverride (c + 5000)); [|discriminate Hv]. cbn. reflexivity.
Qed.

Lemma process_override_confirm (rev : Revision) (m : Machine) :
  override_pending m = true ->
  debounce_ms (button_state m)
    <= ticks_diff (now_ms m) (override_last_time (button_state m)) ->
  pin_now PinOverride (after (sleep_ms 5) m) = 0 ->
  let m1 := after (sleep_ms 5)
              (set_button_state
                 (set_override_last_time (now_ms m) (button_state m))
                 (set_override_pending false m)) in
  process_override rev m
  = (Ok tt,
     mkMachine (interrupt_lock m) (encoder_pending m) false (pump_pending m)
       (encoder_state m)
       (set_override_last_time (now_ms m) (button_state m))
       (set_overrides (overrides (stats m) + 1) (stats m))
       (log (IoPrint "OV") (env (after (safe_uart_write rev ("OV" ++ NL)%string) m1)))
       (emitted m ++ [("OV" ++ NL)%string])).
Proof.
  intros Hp Hw Hv. apply Z.ltb_ge in Hw. break_machine m. unfold_routine.
  cbn in *. subst. cbn. rewrite Hw. cbn.
  destruct (lv PinOverride (c + 5000)); [discriminate Hv|]. cbn.
  step_send. reflexivity.
Qed.

Lemma process_pump_stop_idle (rev : Revision) (m : Machine) :
  pump_pending m = false -> process_pump_stop rev m = (Ok tt, m).
Proof. intros H. unfold process_pump_stop, bind, get. now rewrite H. Qed.

Lemma process_pump_stop_bounce (rev : Revision) (m : Machine) :
  pump_pending m = true ->
  ticks_diff (now_ms m) (pump_last_time (button_state m))
    < debounce_ms (button_state m) ->
  process_pump_stop rev m = (Ok tt, set_pump_pending false m).
Proof.
  intros Hp Hw. apply Z.ltb_lt in Hw. break_machine m. unfold_routine.
  cbn in *. subst. cbn. now rewrite Hw.
Qed.

Lemma process_pump_stop_glitch (rev : Revision) (m : Machine) :
  pump_pending m = true ->
  debounce_ms (button_state m)
    <= ticks_diff (now_ms m) (pump_last_time (button_state m)) ->
  pin_now PinPumpStop (after (sleep_ms 5) m) = 1 ->
  process_pump_stop rev m
  = (Ok tt,
     after (sleep_ms 5)
       (set_button_state (set_pump_last_time (now_ms m) (button_state m))
          (set_pump_pending false m))).
Proof.
  intros Hp Hw Hv. apply Z.ltb_ge in Hw. break_machine m. unfold_routine.
  cbn in *. subst. cbn. rewrite Hw. cbn.
  destruct (lv PinPumpStop (c + 5000)); [|discriminate Hv]. cbn. reflexivity.
Qed.

Lemma process_pump_stop_confirm (rev : Revision) (m : Machine) :
  pump_pending m = true ->
  debounce_ms (button_state m)
    <= ticks_diff (now_ms m) (pump_last_time (button_state m)) ->
  pin_now PinPumpStop (after (sleep_ms 5) m) = 0 ->
  let m1 := after (sleep_ms 5)
              (set_button_state
                 (set_pump_last_time (now_ms m) (button_state m))
                 (set_pump_pending false m)) in
  process_pump_stop rev m
  = (Ok tt,
     mkMachine (interrupt_lock m) (encoder_pending m) (override_pending m) false
       (encoder_state m)
       (set_pump_last_time (now_ms m) (button_state m))
       (set_pump_stops (pump_stops (stats m) + 1) (stats m))
       (log (IoPrint "PS") (env (after (safe_uart_write rev ("PS" ++ NL)%string) m1)))
       (emitted m ++ [("PS" ++ NL)%string])).
Proof.
  intros Hp Hw Hv. apply Z.ltb_ge in Hw. break_machine m. unfold_routine.
  cbn in *. subst. cbn. rewrite Hw. cbn.
  destruct (lv PinPumpStop (c + 5000)); [discriminate Hv|]. cbn.
  step_send. reflexivity.
Qed.

Lemma pin_now_01 (p : PinId) (m : Machine) : pin_now p m = 0 \/ pin_now p m = 1.
Proof. unfold pin_now. destruct (level _ _ _); [now right|now left]. Qed.






Lemma sleep_ms_clock (n : Z) (m : Machine) :
  clock_us (env (after (sleep_ms n) m)) = clock_us (env m) + n * 1000.
Proof. reflexivity. Qed.






(** Rewrite [after c m] with the machine an equation [c m = (r, m')] gives. *)
Ltac run_with H :=
  let Ha := fresh "Hafter" in
  pose proof (f_equal snd H) as Ha; cbv zeta in Ha; cbn [snd] in Ha;
  match type of Ha with
  | snd (?c ?m) = _ => change (snd (c m)) with (after c m) in Ha
  end;
  rewrite !Ha.

Lemma handler_frame (i : Irq) (m : Machine) :
  env (after (handler i) m) = env m /\
  emitted (after (handler i) m) = emitted m /\
  last_time (encoder_state (after (handler i) m)) = last_time (encoder_state m) /\
  button_state (after (handler i) m) = button_state m.
Proof.
  destruct i; unfold handler.
  - destruct (interrupt_lock m) eqn:Hlock.
    + rewrite encoder_isr_locked by assumption. repeat split.
    + rewrite encoder_isr_unlocked by assumption. cbv zeta.
      unfold result, after. rewrite check_rate_limit_eq. cbv zeta.
      destruct (ticks_diff _ _ >=? 1000); cbn; [repeat split|].
      destruct (_ <=? _); repeat split.
  - unfold after, override_isr, bind, get. destruct (interrupt_lock m); repeat split.
  - unfold after, pump_stop_isr, bind, get. destruct (interrupt_lock m); repeat split.
Qed.

(** C1, as the code has it.  For each signal an event is emitted only for
    a pending interrupt whose distance to the signal's timestamp is at least
    the window (1500 us for the encoder, 50 ms for the buttons); an edge
    inside the window leaves output and timestamp alone; no interrupt
    handler touches a timestamp or emits.  The encoder's timestamp is
    written only together with an emission, and is written with every
    emission.  A button's timestamp is set to the current time whenever its
    pending interrupt passes the window check, before the 5 ms
    confirmation: it is updated whether the re-read then confirms the
    press (one line emitted) or not (nothing emitted).  The first three
    parts say what can have happened at all; the parts on a pending
    interrupt outside the window say what then must happen. *)
Theorem C1_debounce (rev : Revision) (m : Machine) :
  config_ok m ->
  ((emitted (after (process_encoder rev) m) = emitted m /\
    last_time (encoder_state (after (process_encoder rev) m))
    = last_time (encoder_state m)) \/
   (encoder_pending m = true /\
    1500 <= ticks_diff (now_us m) (last_time (encoder_state m)) /\
    (exists text, emitted (after (process_encoder rev) m) = emitted m ++ [text]) /\
    last_time (encoder_state (after (process_encoder rev) m)) = now_us m)) /\
  ((emitted (after (process_override rev) m) = emitted m /\
    override_last_time (button_state (after (process_override rev) m))
    = override_last_time (button_state m)) \/
   (override_pending m = true /\
    50 <= ticks_diff (now_ms m) (override_last_time (button_state m)) /\
    override_last_time (button_state (after (process_override rev) m)) = now_ms m /\
    ((pin_now PinOverride (after (sleep_ms 5) m) = 0 /\
      emitted (after (process_override rev) m) = emitted m ++ [("OV" ++ NL)%string]) \/
     (pin_now PinOverride (after (sleep_ms 5) m) = 1 /\
      emitted (after (process_override rev) m) = emitted m)))) /\
  ((emitted (after (process_pump_stop rev) m) = emitted m /\
    pump_last_time (button_state (after (process_pump_stop rev) m))
    = pump_last_time (button_state m)) \/
   (pump_pending m = true /\
    50 <= ticks_diff (now_ms m) (pump_last_time (button_state m)) /\
    pump_last_time (button_state (after (process_pump_stop rev) m)) = now_ms m /\
    ((pin_now PinPumpStop (after (sleep_ms 5) m) = 0 /\
      emitted (after (process_pump_stop rev) m) = emitted m ++ [("PS" ++ NL)%string]) \/
     (pin_now PinPumpStop (after (sleep_ms 5) m) = 1 /\
      emitted (after (process_pump_stop rev) m) = emitted m)))) /\
  (ticks_diff (now_us m) (last_time (encoder_state m)) < 1500 ->
   emitted (after (process_encoder rev) m) = emitted m /\
   last_time (encoder_state (after (process_encoder rev) m))
   = last_time (encoder_state m)) /\
  (ticks_diff (now_ms m) (override_last_time (button_state m)) < 50 ->
   emitted (after (process_override rev) m) = emitted m /\
   override_last_time (button_state (after (process_override rev) m))
   = override_last_time (button_state m)) /\
  (ticks_diff (now_ms m) (pump_last_time (button_state m)) < 50 ->
   emitted (after (process_pump_stop rev) m) = emitted m /\
   pump_last_time (button_state (after (process_pump_stop rev) m))
   = pump_last_time (button_state m)) /\
  (encoder_pending m = true ->
   1500 <= ticks_diff (now_us m) (last_time (encoder_state m)) ->
   (pin_now PinA m = 1 ->
    (exists text, emitted (after (process_encoder rev) m) = emitted m ++ [text]) /\
    last_time (encoder_state (after (process_encoder rev) m)) = now_us m) /\
   (pin_now PinA m = 0 ->
    emitted (after (process_encoder rev) m) = emitted m /\
    last_time (encoder_state (after (process_encoder rev) m))
    = last_time (encoder_state m))) /\
  (override_pending m = true ->
   50 <= ticks_diff (now_ms m) (override_last_time (button_state m)) ->
   override_last_time (button_state (after (process_override rev) m)) = now_ms m /\
   (pin_now PinOverride (after (sleep_ms 5) m) = 0 ->
    emitted (after (process_override rev) m) = emitted m ++ [("OV" ++ NL)%string]) /\
   (pin_now PinOverride (after (sleep_ms 5) m) = 1 ->
    emitted (after (process_override rev) m) = emitted m)) /\
  (pump_pending m = true ->
   50 <= ticks_diff (now_ms m) (pump_last_time (button_state m)) ->
   pump_last_time (button_state (after (process_pump_stop rev) m)) = now_ms m /\
   (pin_now PinPumpStop (after (sleep_ms 5) m) = 0 ->
    emitted (after (process_pump_stop rev) m) = emitted m ++ [("PS" ++ NL)%string]) /\
   (pin_now PinPumpStop (after (sleep_ms 5) m) = 1 ->
    emitted (after (process_pump_stop rev) m) = emitted m)) /\
  (forall i,
     emitted (after (handler i) m) = emitted m /\
     last_time (encoder_state (after (handler i) m)) = last_time (encoder_state m) /\
     button_state (after (handler i) m) = button_state m).
Proof.
  intros (Hus & _ & Hms).
  assert (Henc :
    (emitted (after (process_encoder rev) m) = emitted m /\
     last_time (encoder_state (after (process_encoder rev) m))
     = last_time (encoder_state m)) \/
    (encoder_pending m = true /\
     1500 <= ticks_diff (now_us m) (last_time (encoder_state m)) /\
     (exists text, emitted (after (process_encoder rev) m) = emitted m ++ [text]) /\
     last_time (encoder_state (after (process_encoder rev) m)) = now_us m)).
  { unfold after. destruct (encoder_pending m) eqn:Hp.
    - destruct (Z_lt_le_dec (ticks_diff (now_us m) (last_time (encoder_state m)))
                            (debounce_us (encoder_state m))) as [Hw|Hw].
      + left. rewrite process_encoder_bounce by assumption. split; reflexivity.
      + destruct (pin_now_01 PinA m) as [Ha|Ha].
        * left. rewrite process_encoder_low by assumption. split; reflexivity.
        * right. rewrite process_encoder_emit by assumption.
          split; [reflexivity|]. split; [lia|].
          split; [eexists; reflexivity|reflexivity].
    - left. rewrite process_encoder_idle by assumption. split; reflexivity. }
  assert (Hov :
    (emitted (after (process_override rev) m) = emitted m /\
     override_last_time (button_state (after (process_override rev) m))
     = override_last_time (button_state m)) \/
    (override_pending m = true /\
     50 <= ticks_diff (now_ms m) (override_last_time (button_state m)) /\
     override_last_time (button_state (after (process_override rev) m)) = now_ms m /\
     ((pin_now PinOverride (after (sleep_ms 5) m) = 0 /\
       emitted (after (process_override rev) m) = emitted m ++ [("OV" ++ NL)%string]) \/
      (pin_now PinOverride (after (sleep_ms 5) m) = 1 /\
       emitted (after (process_override rev) m) = emitted m)))).
  { destruct (override_pending m) eqn:Hp.
    - destruct (Z_lt_le_dec (ticks_diff (now_ms m) (override_last_time (button_state m)))
                            (debounce_ms (button_state m))) as [Hw|Hw].
      + left. unfold after. rewrite process_override_bounce by assumption.
        split; reflexivity.
      + right. split; [reflexivity|]. split; [lia|].
        destruct (pin_now_01 PinOverride (after (sleep_ms 5) m)) as [Hv|Hv].
        * run_with (process_override_confirm rev m Hp Hw Hv).
          split; [reflexivity|]. left. split; [exact Hv|reflexivity].
        * run_with (process_override_glitch rev m Hp Hw Hv).
          split; [reflexivity|]. right. split; [exact Hv|reflexivity].
    - left. unfold after. rewrite process_override_idle by assumption.
      split; reflexivity. }
  assert (Hps :
    (emitted (after (process_pump_stop rev) m) = emitted m /\
     pump_last_time (button_state (after (process_pump_stop rev) m))
     = pump_last_time (button_state m)) \/
    (pump_pending m = true /\
     50 <= ticks_diff (now_ms m) (pump_last_time (button_state m)) /\
     pump_last_time (button_state (after (process_pump_stop rev) m)) = now_ms m /\
     ((pin_now PinPumpStop (after (sleep_ms 5) m) = 0 /\
       emitted (after (process_pump_stop rev) m) = emitted m ++ [("PS" ++ NL)%string]) \/
      (pin_now PinPumpStop (after (sleep_ms 5) m) = 1 /\
       emitted (after (process_pump_stop rev) m) = emitted m)))).
  { destruct (pump_pending m) eqn:Hp.
    - destruct (Z_lt_le_dec (ticks_diff (now_ms m) (pump_last_time (button_state m)))
                            (debounce_ms (button_state m))) as [Hw|Hw].
      + left. unfold after. rewrite process_pump_stop_bounce by assumption.
        split; reflexivity.
      + right. split; [reflexivity|]. split; [lia|].
        destruct (pin_now_01 PinPumpStop (after (sleep_ms 5) m)) as [Hv|Hv].
        * run_with (process_pump_stop_confirm rev m Hp Hw Hv).
          split; [reflexivity|]. left. split; [exact Hv|reflexivity].
        * run_with (process_pump_stop_glitch rev m Hp Hw Hv).
          split; [reflexivity|]. right. split; [exact Hv|reflexivity].
    - left. unfold after. rewrite process_pump_stop_idle by assumption.
      split; reflexivity. }
  split; [exact Henc|]. split; [exact Hov|]. split; [exact Hps|].
  split. { intros Hw. destruct Henc as [H|(_ & Hge & _)]; [exact H|lia]. }
  split. { intros Hw. destruct Hov as [H|(_ & Hge & _)]; [exact H|lia]. }
  split. { intros Hw. destruct Hps as [H|(_ & Hge & _)]; [exact H|lia]. }
  split.
  { intros Hp Hw. rewrite <- Hus in Hw. split; intros Ha.
    - run_with (process_encoder_emit rev m Hp Hw Ha).
      split; [eexists; reflexivity|reflexivity].
    - run_with (process_encoder_low rev m Hp Hw Ha). split; reflexivity. }
  split.
  { intros Hp Hw. rewrite <- Hms in Hw.
    destruct (pin_now_01 PinOverride (after (sleep_ms 5) m)) as [Hv|Hv].
    - run_with (process_override_confirm rev m Hp Hw Hv).
      split; [reflexivity|]. split; [reflexivity|].
      intros Hv'. rewrite Hv in Hv'. discriminate Hv'.
    - run_with (process_override_glitch rev m Hp Hw Hv).
      split; [reflexivity|]. split; [|reflexivity].
      intros Hv'. rewrite Hv in Hv'. discriminate Hv'. }
  split.
  { intros Hp Hw. rewrite <- Hms in Hw.
    destruct (pin_now_01 PinPumpStop (after (sleep_ms 5) m)) as [Hv|Hv].
    - run_with (process_pump_stop_confirm rev m Hp Hw Hv).
      split; [reflexivity|]. split; [reflexivity|].
      intros Hv'. rewrite Hv in Hv'. discriminate Hv'.
    - run_with (process_pump_stop_glitch rev m Hp Hw Hv).
      split; [reflexivity|]. split; [|reflexivity].
      intros Hv'. rewrite Hv in Hv'. discriminate Hv'. }
  intros i. destruct (handler_frame i m) as (_ & He & Ht & Hb).
  split; [exact He|]. split; [exact Ht|exact Hb].
Qed.

Lemma C1_witness :
  config_ok glitching /\
  override_pending glitching = true /\
  50 <= ticks_diff (now_ms glitching) (override_last_time (button_state glitching)) /\
  pin_now PinOverride (after (sleep_ms 5) glitching) = 1 /\
  now_ms glitching = 100 /\
  override_last_time (button_state (after (process_override V1_5) glitching)) = 100 /\
  emitted (after (process_override V1_5) glitching) = emitted glitching.
Proof.
  assert (Hcfg : config_ok glitching) by (repeat split).
  assert (Hw : 50 <= ticks_diff (now_ms glitching)
                       (override_last_time (button_state glitching)))
    by (vm_compute; discriminate).
  assert (Hnow : now_ms glitching = 100) by (vm_compute; reflexivity).
  split; [exact Hcfg|]. split; [reflexivity|]. split; [exact Hw|].
  split; [reflexivity|]. split; [exact Hnow|].
  destruct (C1_debounce V1_5 glitching Hcfg)
    as (_ & _ & _ & _ & _ & _ & _ & Hov & _).
  destruct (Hov eq_refl Hw) as (Ht & _ & Hhigh).
  split; [now rewrite Ht|exact (Hhigh eq_refl)].
Defined.

(** C1 as the spec words it fails for the buttons: the override interrupt
    is pending and outside the window, the pin reads high again at the
    re-read 5 ms later, so nothing is emitted, and yet the override
    timestamp moved from 0 to 100. *)
Lemma C1_counterexample :
  override_pending glitching = true /\
  50 <= ticks_diff (now_ms glitching) (override_last_time (button_state glitching)) /\
  pin_now PinOverride (after (sleep_ms 5) glitching) = 1 /\
  emitted (after (process_override V1_5) glitching) = emitted glitching /\
  override_last_time (button_state glitching) = 0 /\
  override_last_time (button_state (after (process_override V1_5) glitching)) = 100 /\
  override_last_time (button_state (after (process_override V1_5) glitching))
  <> override_last_time (button_state glitching).
Proof.
  split; [reflexivity|].
  split; [vm_compute; discriminate|].
  split; [reflexivity|]. split; [reflexivity|]. split; [reflexivity|].
  split; [reflexivity|]. vm_compute. discriminate.
Qed.

(** ** Reset *)

Lemma system_reset_eq (m : Machine) :
  system_reset m =
  match drain (reset_prologue m) with
  | (Ok _, m1) => (Ok tt, set_interrupt_lock false (after (sleep_ms 10) m1))
  | (Raised, m1) => (Raised, m1)
  end.
Proof.
  break_machine m. unfold reset_prologue. unfold_routine. cbn.
  now destruct (drain _) as [[[]|] m1].
Qed.

Lemma system_reset_cases (m : Machine) :
  exists e',
    (system_reset m
     = (Ok tt, set_interrupt_lock false
                 (after (sleep_ms 10) (set_env e' (reset_prologue m)))) /\
     rx_buf e' = []) \/
    system_reset m = (Raised, set_env e' (reset_prologue m)).
Proof.
  rewrite system_reset_eq.
  destruct (drain_spec (reset_prologue m))
    as (pre & e' & _ & [(-> & Hrx & _)|(-> & _)]); exists e'.
  - left. split; [reflexivity|exact Hrx].
  - now right.
Qed.

(** Whatever the transport does, a reset clears the flags and the counter,
    and leaves the rate window start, the button state and the statistics
    alone; the lock ends clear exactly when the reset returns. *)
Lemma system_reset_effect (m : Machine) :
  pending_flags (after system_reset m) = (false, false, false) /\
  interrupt_count (encoder_state (after system_reset m)) = 0 /\
  last_rate_check (encoder_state (after system_reset m))
  = last_rate_check (encoder_state m) /\
  max_rate (encoder_state (after system_reset m)) = max_rate (encoder_state m) /\
  button_state (after system_reset m) = button_state m /\
  stats (after system_reset m) = stats m /\
  emitted (after system_reset m) = emitted m /\
  interrupt_lock (after system_reset m)
  = match result system_reset m with Ok _ => false | Raised => true end.
Proof.
  unfold after, result.
  destruct (system_reset_cases m) as (e' & [(-> & _)| ->]); repeat split.
Qed.

Lemma system_reset_healthy (m : Machine) :
  faults (env m) = [] ->
  result system_reset m = Ok tt /\ faults (env (after system_reset m)) = [].
Proof.
  intros Hf.
  destruct (drain_rx_healthy (S (List.length (rx_buf (env (reset_prologue m)))))
              (reset_prologue m)) as (e' & Hd & Hf' & _); [exact Hf|lia|].
  unfold result, after at 1. rewrite system_reset_eq. unfold drain. rewrite Hd.
  split; [reflexivity|exact Hf'].
Qed.

(** When the reset returns (no driver call of its buffer clean-up
    raises), it leaves the three pending flags false, the lock false and
    the encoder interrupt counter zero; running it a second time, with
    nothing in between, leaves that same observable state. *)
Lemma reset_idempotent_when_it_returns (m : Machine) :
  result system_reset m = Ok tt ->
  result system_reset (after system_reset m) = Ok tt ->
  observable (after system_reset m) = (false, false, false, false, 0) /\
  observable (after system_reset (after system_reset m))
  = observable (after system_reset m).
Proof.
  intros H1 H2.
  assert (Hobs : forall x, result system_reset x = Ok tt ->
                   observable (after system_reset x) = (false, false, false, false, 0)).
  { intros x Hx. destruct (system_reset_effect x)
      as (Hp & Hc & _ & _ & _ & _ & _ & Hl).
    rewrite Hx in Hl. unfold observable. unfold pending_flags in Hp.
    injection Hp as -> -> ->. now rewrite Hc, Hl. }
  split; [now apply Hobs|]. now rewrite !Hobs.
Qed.

(** C8 fails on the code.  On a board whose second driver call raises,
    the first reset returns with the flags, the lock and the counter clear;
    the second one, run right after it, raises inside its buffer clean-up,
    between [interrupt_lock = True] and [interrupt_lock = False], and leaves
    the lock set: the observable state after two resets differs from the one
    after one reset.  In general the lock ends clear exactly when the reset
    returns, and a reset of a state whose transport has no fault returns. *)
Theorem C8_second_reset_leaves_lock_set :
  observable (boot late_fault_env) = (false, false, false, false, 0) /\
  result system_reset (boot late_fault_env) = Ok tt /\
  observable (after system_reset (boot late_fault_env))
  = (false, false, false, false, 0) /\
  result system_reset (after system_reset (boot late_fault_env)) = Raised /\
  observable (after system_reset (after system_reset (boot late_fault_env)))
  = (false, false, false, true, 0) /\
  observable (after system_reset (after system_reset (boot late_fault_env)))
  <> observable (after system_reset (boot late_fault_env)) /\
  (forall m,
     interrupt_lock (after system_reset m)
     = match result system_reset m with Ok _ => false | Raised => true end) /\
  (forall m,
     faults (env m) = [] ->
     observable (after system_reset (after system_reset m))
     = observable (after system_reset m)).
Proof.
  split; [reflexivity|]. split; [reflexivity|]. split; [reflexivity|].
  split; [reflexivity|]. split; [reflexivity|].
  split; [vm_compute; discriminate|].
  split.
  - intros m. now destruct (system_reset_effect m) as (_ & _ & _ & _ & _ & _ & _ & Hl).
  - intros m Hf.
    destruct (system_reset_healthy m Hf) as (H1 & Hf1).
    destruct (system_reset_healthy (after system_reset m) Hf1) as (H2 & _).
    now destruct (reset_idempotent_when_it_returns m H1 H2).
Qed.

(** ** The rate window *)








(** A rejected encoder interrupt is counted as blocked and sets no flag. *)
Lemma encoder_isr_rejected (m : Machine) :
  interrupt_lock m = false ->
  result check_rate_limit m = Ok false ->
  blocked (stats (after encoder_isr m)) = blocked (stats m) + 1 /\
  pending_flags (after encoder_isr m) = pending_flags m.
Proof.
  intros Hlock Hrej. rewrite encoder_isr_unlocked by assumption. cbv zeta.
  rewrite Hrej. revert Hrej. unfold result, after.
  rewrite check_rate_limit_eq. cbv zeta.
  destruct (ticks_diff _ _ >=? 1000); cbn; [discriminate|].
  intros _. split; reflexivity.
Qed.

(** Encoder interrupts in an open window while the counter has room: each
    is let through and counted, none is blocked. *)
Lemma isr_burst_open (n : nat) :
  forall m,
    interrupt_lock m = false ->
    max_rate (encoder_state m) = 1000 ->
    ticks_diff (now_ms m) (last_rate_check (encoder_state m)) < 1000 ->
    interrupt_count (encoder_state m) + Z.of_nat n <= 1000 ->
    interrupt_lock (isr_burst n m) = false /\
    max_rate (encoder_state (isr_burst n m)) = 1000 /\
    last_rate_check (encoder_state (isr_burst n m))
    = last_rate_check (encoder_state m) /\
    now_ms (isr_burst n m) = now_ms m /\
    interrupt_count (encoder_state (isr_burst n m))
    = interrupt_count (encoder_state m) + Z.of_nat n /\
    blocked (stats (isr_burst n m)) = blocked (stats m).
Proof.
  induction n as [|k IH]; intros m Hlock Hmax Hopen Hroom.
  - simpl. rewrite Z.add_0_r. repeat split; assumption.
  - rewrite Nat2Z.inj_succ in Hroom. simpl isr_burst.
    assert (Hstep : after encoder_isr m
                    = set_encoder_pending true
                        (set_encoder_state
                           (set_interrupt_count
                              (interrupt_count (encoder_state m) + 1)
                              (encoder_state m)) m)).
    { rewrite encoder_isr_unlocked by assumption. cbv zeta.
      unfold result, after. rewrite check_rate_limit_eq. cbv zeta.
      replace (ticks_diff _ _ >=? 1000) with false
        by (symmetry; rewrite Z.geb_leb; apply Z.leb_gt; exact Hopen).
      cbn [fst snd]. rewrite Hmax.
      replace (interrupt_count (encoder_state m) + 1 <=? 1000) with true
        by (symmetry; apply Z.leb_le; pose proof (Nat2Z.is_nonneg k); lia).
      reflexivity. }
    rewrite Hstep.
    match goal with |- context [isr_burst k ?mm] =>
      destruct (IH mm) as (H1 & H2 & H3 & H4 & H5 & H6)
    end; try assumption.
    { cbn. lia. }
    rewrite H1, H2, H3, H4, H5, H6. cbn.
    rewrite Zpos_P_of_succ_nat. repeat split. lia.
Qed.

(** In every state: the interrupt that finds the window expired is let
    through, the 1000 that follow it in the new window are let through, and
    the one after those is the first to be blocked. *)
Lemma window_accepts_1001 (m : Machine) (n : nat) :
  interrupt_lock m = false ->
  max_rate (encoder_state m) = 1000 ->
  1000 <= ticks_diff (now_ms m) (last_rate_check (encoder_state m)) ->
  Z.of_nat n = 1000 ->
  encoder_pending (after encoder_isr m) = true /\
  blocked (stats (after encoder_isr m)) = blocked (stats m) /\
  interrupt_count (encoder_state (isr_burst n (after encoder_isr m))) = 1000 /\
  blocked (stats (isr_burst n (after encoder_isr m))) = blocked (stats m) /\
  blocked (stats (after encoder_isr (isr_burst n (after encoder_isr m))))
  = blocked (stats m) + 1.
Proof.
  intros Hlock Hmax Hexp Hn.
  assert (Hstep : after encoder_isr m
                  = set_encoder_pending true
                      (set_encoder_state
                         (set_last_rate_check (now_ms m)
                            (set_interrupt_count 0 (encoder_state m))) m)).
  { rewrite encoder_isr_unlocked by assumption. cbv zeta.
    unfold result, after. rewrite check_rate_limit_eq. cbv zeta.
    replace (ticks_diff _ _ >=? 1000) with true
      by (symmetry; apply Z.geb_le; exact Hexp).
    reflexivity. }
  set (m1 := after encoder_isr m) in *.
  assert (Hl1 : interrupt_lock m1 = false) by (rewrite Hstep; exact Hlock).
  assert (Hm1 : max_rate (encoder_state m1) = 1000) by (rewrite Hstep; exact Hmax).
  assert (Hc1 : interrupt_count (encoder_state m1) = 0) by (now rewrite Hstep).
  assert (Hb1 : blocked (stats m1) = blocked (stats m)) by (now rewrite Hstep).
  assert (Ho1 : ticks_diff (now_ms m1) (last_rate_check (encoder_state m1)) < 1000).
  { rewrite Hstep. cbn [encoder_state set_encoder_pending set_encoder_state
                        last_rate_check set_last_rate_check].
    change (now_ms (set_encoder_pending true (set_encoder_state _ m)))
      with (now_ms m).
    rewrite ticks_diff_same. lia. }
  destruct (isr_burst_open n m1 Hl1 Hm1 Ho1) as (H1 & H2 & H3 & H4 & H5 & H6).
  { rewrite Hc1, Hn. lia. }
  split; [now rewrite Hstep|]. split; [exact Hb1|].
  split; [rewrite H5, Hc1, Hn; reflexivity|].
  split; [now rewrite H6|].
  destruct (encoder_isr_rejected (isr_burst n m1) H1) as (Hb & _).
  - unfold result. rewrite check_rate_limit_eq. cbv zeta.
    rewrite H3, H4.
    replace (ticks_diff _ _ >=? 1000) with false
      by (symmetry; rewrite Z.geb_leb; apply Z.leb_gt; exact Ho1).
    cbn [fst]. rewrite H2, H5, Hc1, Hn. reflexivity.
  - rewrite Hb, H6, Hb1. reflexivity.
Qed.

(** C2, evaluated on the code.  The interrupt that finds the window
    expired (1000 ms after start-up) opens a new window and is let through
    without being counted; the counter then allows 1000 more.  So 1001
    interrupts of one window are let through, none of them blocked: the
    1001st still sets the pending flag (cleared beforehand, as the main loop
    does), and the 1002nd is the first one rejected; it is counted as
    blocked and sets no flag. *)
Theorem C2_window_lets_1001_through :
  let m1001 := isr_train (window_train 1000) (boot quiet_env) in
  last_rate_check (encoder_state m1001) = 1000 /\
  now_ms m1001 = 1900 /\
  interrupt_count (encoder_state m1001) = 1000 /\
  blocked (stats m1001) = 0 /\
  encoder_pending
    (after encoder_isr
       (advance 900 (set_encoder_pending false
                       (isr_train (window_train 999) (boot quiet_env))))) = true /\
  blocked (stats (isr_train (window_train 1001) (boot quiet_env))) = 1 /\
  encoder_pending
    (after encoder_isr (advance 900 (set_encoder_pending false m1001))) = false.
Proof. vm_compute. repeat split. Qed.

(** * Further properties *)

(** ** Shape of the processing routines *)

(** Whatever the state and the transport, [process_encoder] returns; it
    leaves its flag clear, may write the encoder's [last_a] and
    [last_time], adds to [steps] the number of messages it handed over (at
    most one), and touches the board.  Nothing else changes. *)
Lemma process_encoder_shape (rev : Revision) (m : Machine) :
  exists msgs e' la lt,
    (List.length msgs <= 1)%nat /\
    process_encoder rev m
    = (Ok tt,
       mkMachine (interrupt_lock m) false (override_pending m) (pump_pending m)
         (set_last_a la (set_last_time lt (encoder_state m)))
         (button_state m)
         (set_steps (steps (stats m) + Z.of_nat (List.length msgs)) (stats m))
         e' (emitted m ++ msgs)).
Proof.
  destruct (encoder_pending m) eqn:Hp.
  - destruct (Z_lt_le_dec (ticks_diff (now_us m) (last_time (encoder_state m)))
                          (debounce_us (encoder_state m))) as [Hw|Hw].
    + exists [], (env m), (last_a (encoder_state m)), (last_time (encoder_state m)).
      split; [cbn; lia|]. rewrite process_encoder_bounce by assumption.
      break_machine m. cbn. now rewrite Z.add_0_r, app_nil_r.
    + destruct (pin_now_01 PinA m) as [Ha|Ha].
      * exists [], (env m), 0, (last_time (encoder_state m)).
        split; [cbn; lia|]. rewrite process_encoder_low by assumption.
        break_machine m. cbn. now rewrite Z.add_0_r, app_nil_r.
      * eexists [_], _, 1, (now_us m). split; [cbn; lia|].
        rewrite process_encoder_emit by assumption. reflexivity.
  - exists [], (env m), (last_a (encoder_state m)), (last_time (encoder_state m)).
    split; [cbn; lia|]. rewrite process_encoder_idle by assumption.
    break_machine m. cbn in *. subst. now rewrite Z.add_0_r, app_nil_r.
Qed.

Lemma process_override_shape (rev : Revision) (m : Machine) :
  exists msgs e' t,
    (List.length msgs <= 1)%nat /\
    process_override rev m
    = (Ok tt,
       mkMachine (interrupt_lock m) (encoder_pending m) false (pump_pending m)
         (encoder_state m)
         (set_override_last_time t (button_state m))
         (set_overrides (overrides (stats m) + Z.of_nat (List.length msgs)) (stats m))
         e' (emitted m ++ msgs)).
Proof.
  destruct (override_pending m) eqn:Hp.
  - destruct (Z_lt_le_dec (ticks_diff (now_ms m) (override_last_time (button_state m)))
                          (debounce_ms (button_state m))) as [Hw|Hw].
    + exists [], (env m), (override_last_time (button_state m)).
      split; [cbn; lia|]. rewrite process_override_bounce by assumption.
      break_machine m. cbn. now rewrite Z.add_0_r, app_nil_r.
    + destruct (pin_now_01 PinOverride (after (sleep_ms 5) m)) as [Hv|Hv].
      * eexists [_], _, (now_ms m). split; [cbn; lia|].
        rewrite process_override_confirm by assumption. reflexivity.
      * exists [], (env (after (sleep_ms 5) m)), (now_ms m). split; [cbn; lia|].
        rewrite process_override_glitch by assumption.
        break_machine m. cbn. rewrite Z.add_0_r, app_nil_r. reflexivity.
  - exists [], (env m), (override_last_time (button_state m)).
    split; [cbn; lia|]. rewrite process_override_idle by assumption.
    break_machine m. cbn in *. subst. now rewrite Z.add_0_r, app_nil_r.
Qed.

Lemma process_pump_stop_shape (rev : Revision) (m : Machine) :
  exists msgs e' t,
    (List.length msgs <= 1)%nat /\
    process_pump_stop rev m
    = (Ok tt,
       mkMachine (interrupt_lock m) (encoder_pending m) (override_pending m) false
         (encoder_state m)
         (set_pump_last_time t (button_state m))
         (set_pump_stops (pump_stops (stats m) + Z.of_nat (List.length msgs)) (stats m))
         e' (emitted m ++ msgs)).
Proof.
  destruct (pump_pending m) eqn:Hp.
  - destruct (Z_lt_le_dec (ticks_diff (now_ms m) (pump_last_time (button_state m)))
                          (debounce_ms (button_state m))) as [Hw|Hw].
    + exists [], (env m), (pump_last_time (button_state m)).
      split; [cbn; lia|]. rewrite process_pump_stop_bounce by assumption.
      break_machine m. cbn. now rewrite Z.add_0_r, app_nil_r.
    + destruct (pin_now_01 PinPumpStop (after (sleep_ms 5) m)) as [Hv|Hv].
      * eexists [_], _, (now_ms m). split; [cbn; lia|].
        rewrite process_pump_stop_confirm by assumption. reflexivity.
      * exists [], (env (after (sleep_ms 5) m)), (now_ms m). split; [cbn; lia|].
        rewrite process_pump_stop_glitch by assumption.
        break_machine m. cbn. rewrite Z.add_0_r, app_nil_r. reflexivity.
  - exists [], (env m), (pump_last_time (button_state m)).
    split; [cbn; lia|]. rewrite process_pump_stop_idle by assumption.
    break_machine m. cbn in *. subst. now rewrite Z.add_0_r, app_nil_r.
Qed.

(** ** What the processing routines leave alone *)

(** The three processing routines never raise, whatever the transport
    does; none of them touches [interrupt_lock]; each leaves its own
    pending flag clear and the other two flags as they were (a routine
    never sets a flag); and none touches the rate limiter's counter and
    window start or the other signals' timestamps. *)
Theorem processing_frame (rev : Revision) (m : Machine) :
  (result (process_encoder rev) m = Ok tt /\
   interrupt_lock (after (process_encoder rev) m) = interrupt_lock m /\
   pending_flags (after (process_encoder rev) m)
   = (false, override_pending m, pump_pending m) /\
   button_state (after (process_encoder rev) m) = button_state m /\
   interrupt_count (encoder_state (after (process_encoder rev) m))
   = interrupt_count (encoder_state m) /\
   last_rate_check (encoder_state (after (process_encoder rev) m))
   = last_rate_check (encoder_state m)) /\
  (result (process_override rev) m = Ok tt /\
   interrupt_lock (after (process_override rev) m) = interrupt_lock m /\
   pending_flags (after (process_override rev) m)
   = (encoder_pending m, false, pump_pending m) /\
   encoder_state (after (process_override rev) m) = encoder_state m /\
   pump_last_time (button_state (after (process_override rev) m))
   = pump_last_time (button_state m)) /\
  (result (process_pump_stop rev) m = Ok tt /\
   interrupt_lock (after (process_pump_stop rev) m) = interrupt_lock m /\
   pending_flags (after (process_pump_stop rev) m)
   = (encoder_pending m, override_pending m, false) /\
   encoder_state (after (process_pump_stop rev) m) = encoder_state m /\
   override_last_time (button_state (after (process_pump_stop rev) m))
   = override_last_time (button_state m)).
Proof.
  unfold result, after.
  destruct (process_encoder_shape rev m) as (m1 & e1 & la & lt & _ & ->).
  destruct (process_override_shape rev m) as (m2 & e2 & t2 & _ & ->).
  destruct (process_pump_stop_shape rev m) as (m3 & e3 & t3 & _ & ->).
  repeat split.
Qed.

(** Each routine's statistic counts its emissions: a run adds to its own
    counter exactly the number of messages it handed to the transport, zero
    or one, and leaves the other three counters alone. *)
Theorem stats_count_emissions (rev : Revision) (m : Machine) :
  (exists msgs,
     (List.length msgs <= 1)%nat /\
     emitted (after (process_encoder rev) m) = emitted m ++ msgs /\
     stats (after (process_encoder rev) m)
     = set_steps (steps (stats m) + Z.of_nat (List.length msgs)) (stats m)) /\
  (exists msgs,
     (List.length msgs <= 1)%nat /\
     emitted (after (process_override rev) m) = emitted m ++ msgs /\
     stats (after (process_override rev) m)
     = set_overrides (overrides (stats m) + Z.of_nat (List.length msgs)) (stats m)) /\
  (exists msgs,
     (List.length msgs <= 1)%nat /\
     emitted (after (process_pump_stop rev) m) = emitted m ++ msgs /\
     stats (after (process_pump_stop rev) m)
     = set_pump_stops (pump_stops (stats m) + Z.of_nat (List.length msgs)) (stats m)).
Proof.
  unfold after.
  destruct (process_encoder_shape rev m) as (m1 & e1 & la & lt & H1 & ->).
  destruct (process_override_shape rev m) as (m2 & e2 & t2 & H2 & ->).
  destruct (process_pump_stop_shape rev m) as (m3 & e3 & t3 & H3 & ->).
  split; [exists m1; repeat split; assumption|].
  split; [exists m2; repeat split; assumption|].
  exists m3; repeat split; assumption.
Qed.

(** A reset discards what was pending: after [system_reset], whether it
    returned or raised, each processing routine does nothing at all. *)
Theorem reset_discards_pending (rev : Revision) (m : Machine) :
  process_encoder rev (after system_reset m) = (Ok tt, after system_reset m) /\
  process_override rev (after system_reset m) = (Ok tt, after system_reset m) /\
  process_pump_stop rev (after system_reset m) = (Ok tt, after system_reset m).
Proof.
  destruct (system_reset_effect m) as (Hp & _).
  unfold pending_flags in Hp. injection Hp as He Ho Hs.
  split; [now apply process_encoder_idle|].
  split; [now apply process_override_idle|now apply process_pump_stop_idle].
Qed.

(** ** Interrupt handlers *)

(** Every encoder interrupt is accounted for exactly once: either it is
    accepted (lock clear and rate limiter passing) and the pending flag is
    set with the statistics untouched, or the flag is left as it was and
    [blocked] goes up by one.  With the lock set the rate limiter is not
    consulted: counter and window start stay as they were. *)
Theorem encoder_isr_accounting (m : Machine) :
  (interrupt_lock m = false /\
   result check_rate_limit m = Ok true /\
   encoder_pending (after encoder_isr m) = true /\
   stats (after encoder_isr m) = stats m) \/
  (encoder_pending (after encoder_isr m) = encoder_pending m /\
   stats (after encoder_isr m)
   = set_blocked (blocked (stats m) + 1) (stats m) /\
   ((interrupt_lock m = true /\
     encoder_state (after encoder_isr m) = encoder_state m) \/
    (interrupt_lock m = false /\ result check_rate_limit m = Ok false))).
Proof.
  destruct (interrupt_lock m) eqn:Hlock.
  - right. rewrite encoder_isr_locked by assumption.
    split; [reflexivity|]. split; [reflexivity|]. left. now split.
  - rewrite encoder_isr_unlocked by assumption. cbv zeta.
    unfold result, after. rewrite check_rate_limit_eq. cbv zeta.
    destruct (ticks_diff _ _ >=? 1000); cbn [fst snd].
    + left. repeat split.
    + destruct (_ <=? _).
      * left. repeat split.
      * right. split; [reflexivity|]. split; [reflexivity|]. right. now split.
Qed.

Lemma handler_flags (i : Irq) (m : Machine) :
  (encoder_pending m = true -> encoder_pending (after (handler i) m) = true) /\
  (override_pending m = true -> override_pending (after (handler i) m) = true) /\
  (pump_pending m = true -> pump_pending (after (handler i) m) = true) /\
  (i <> IrqEncoder ->
   encoder_pending (after (handler i) m) = encoder_pending m) /\
  (i <> IrqOverride ->
   override_pending (after (handler i) m) = override_pending m) /\
  (i <> IrqPumpStop ->
   pump_pending (after (handler i) m) = pump_pending m).
Proof.
  destruct i; unfold handler.
  - destruct (interrupt_lock m) eqn:Hlock.
    + rewrite encoder_isr_locked by assumption. cbn.
      repeat split; auto; intros H; now elim H.
    + rewrite encoder_isr_unlocked by assumption. cbv zeta.
      unfold result, after. rewrite check_rate_limit_eq. cbv zeta.
      destruct (ticks_diff _ _ >=? 1000); cbn;
        [repeat split; auto; intros H; now elim H|].
      destruct (_ <=? _); cbn; repeat split; auto; intros H; now elim H.
  - unfold after, override_isr, bind, get.
    destruct (interrupt_lock m); cbn; repeat split; auto; intros H; now elim H.
  - unfold after, pump_stop_isr, bind, get.
    destruct (interrupt_lock m); cbn; repeat split; auto; intros H; now elim H.
Qed.

(** A handler writes no flag but its own, and no handler ever clears a
    flag: through any sequence of interrupts, whatever the lock and the
    delays, a flag that is set stays set. *)
Theorem handlers_keep_pending (evs : list (Z * Irq)) (m : Machine) :
  (forall i,
     (i <> IrqEncoder ->
      encoder_pending (after (handler i) m) = encoder_pending m) /\
     (i <> IrqOverride ->
      override_pending (after (handler i) m) = override_pending m) /\
     (i <> IrqPumpStop ->
      pump_pending (after (handler i) m) = pump_pending m)) /\
  (encoder_pending m = true -> encoder_pending (irq_sequence evs m) = true) /\
  (override_pending m = true -> override_pending (irq_sequence evs m) = true) /\
  (pump_pending m = true -> pump_pending (irq_sequence evs m) = true).
Proof.
  split.
  { intros i. destruct (handler_flags i m) as (_ & _ & _ & H1 & H2 & H3).
    now repeat split. }
  revert m. induction evs as [|[d i] rest IH]; intros m; [now repeat split|].
  simpl irq_sequence.
  destruct (IH (after (handler i) (advance d m))) as (I1 & I2 & I3).
  destruct (handler_flags i (advance d m)) as (H1 & H2 & H3 & _).
  split; [intros H; apply I1, H1; exact H|].
  split; [intros H; apply I2, H2; exact H|intros H; apply I3, H3; exact H].
Qed.

(** ** The health check *)

Lemma ensure_uart_alive_probe_ok (m : Machine) :
  hd false (faults (env m)) = false ->
  ensure_uart_alive m
  = (Ok true,
     set_env (log (IoWrite EmptyString true)
                  (set_faults (tl (faults (env m))) (env m))) m).
Proof.
  intros H. break_machine m. cbn in H.
  unfold ensure_uart_alive, try_except, bind, serial_write, driver_call, ret.
  cbn. destruct fs as [|[|] fs']; [reflexivity|discriminate H|reflexivity].
Qed.

Lemma wire_bytes_snoc_probe (t : list IO) (ok : bool) :
  wire_bytes (t ++ [IoWrite EmptyString ok]) = wire_bytes t.
Proof.
  unfold wire_bytes. rewrite wire_app. generalize (wire t). intros w.
  destruct ok; cbn [wire]; induction w as [|p w IH]; cbn;
    try reflexivity; now rewrite IH.
Qed.

(** On a transport without faults the health check can be called any
    number of times: every call returns true, sends the zero-length probe
    and nothing else (no sleep, no re-initialisation), and leaves the
    clock, the receive buffer, the bytes on the wire and the program state
    as they were. *)
Theorem health_check_idempotent (n : nat) (m : Machine) :
  healthy m ->
  result ensure_uart_alive (Nat.iter n (after ensure_uart_alive) m) = Ok true /\
  healthy (Nat.iter n (after ensure_uart_alive) m) /\
  trace (env (Nat.iter n (after ensure_uart_alive) m))
  = trace (env m) ++ repeat (IoWrite EmptyString true) n /\
  wire_bytes (trace (env (Nat.iter n (after ensure_uart_alive) m)))
  = wire_bytes (trace (env m)) /\
  clock_us (env (Nat.iter n (after ensure_uart_alive) m)) = clock_us (env m) /\
  rx_buf (env (Nat.iter n (after ensure_uart_alive) m)) = rx_buf (env m) /\
  Nat.iter n (after ensure_uart_alive) m
  = set_env (env (Nat.iter n (after ensure_uart_alive) m)) m.
Proof.
  intros Hh. unfold healthy in *.
  assert (Hstep : forall x, faults (env x) = [] ->
            ensure_uart_alive x
            = (Ok true, set_env (log (IoWrite EmptyString true) (env x)) x)).
  { intros x Hx. rewrite ensure_uart_alive_probe_ok by now rewrite Hx.
    rewrite Hx. cbn [tl].
    replace (set_faults [] (env x)) with (env x)
      by (destruct (env x); cbn in *; now subst).
    reflexivity. }
  induction n as [|k IH].
  - cbn. rewrite app_nil_r. unfold result. rewrite Hstep by assumption.
    repeat split; try assumption. now rewrite set_env_same.
  - destruct IH as (_ & Hf & Ht & Hw & Hc & Hr & Hm).
    rewrite !Nat.iter_succ. set (x := Nat.iter k (after ensure_uart_alive) m) in *.
    assert (Hx : after ensure_uart_alive x
                 = set_env (log (IoWrite EmptyString true) (env x)) x).
    { unfold after. now rewrite Hstep. }
    rewrite Hx. cbn [env set_env log faults trace clock_us rx_buf].
    split. { unfold result. now rewrite Hstep. }
    split; [exact Hf|].
    split. { rewrite Ht. rewrite <- app_assoc. f_equal.
             change [IoWrite EmptyString true] with (repeat (IoWrite EmptyString true) 1).
             rewrite <- repeat_app. f_equal. lia. }
    split; [now rewrite wire_bytes_snoc_probe|].
    split; [exact Hc|]. split; [exact Hr|].
    replace (set_env (log (IoWrite EmptyString true) (env x)) x)
      with (set_env (log (IoWrite EmptyString true) (env x)) (set_env (env x) m))
      by (now rewrite <- Hm).
    reflexivity.
Qed.

Lemma health_check_idempotent_witness :
  healthy (boot quiet_env) /\
  trace (env (Nat.iter 3 (after ensure_uart_alive) (boot quiet_env)))
  = [IoWrite EmptyString true; IoWrite EmptyString true; IoWrite EmptyString true].
Proof.
  split; [reflexivity|].
  destruct (health_check_idempotent 3 (boot quiet_env) eq_refl) as (_ & _ & Ht & _).
  exact Ht.
Defined.

(** When the probe raises, the health check recovers without raising:
    it tries [deinit] and ignores whether that worked, sleeps 50 ms, and
    re-creates the UART; it returns true exactly when the constructor did
    not raise, and then the receive buffer is the empty one of the new
    peripheral.  Nothing reaches the wire and the program state is left
    alone. *)
Theorem health_check_recovery (m : Machine) (sched : list bool) :
  faults (env m) = true :: sched ->
  result ensure_uart_alive m = Ok (negb (hd false (tl sched))) /\
  clock_us (env (after ensure_uart_alive m)) = clock_us (env m) + 50000 /\
  faults (env (after ensure_uart_alive m)) = tl (tl sched) /\
  rx_buf (env (after ensure_uart_alive m))
  = (if hd false (tl sched) then rx_buf (env m) else []) /\
  wire (trace (env (after ensure_uart_alive m))) = wire (trace (env m)) /\
  after ensure_uart_alive m = set_env (env (after ensure_uart_alive m)) m.
Proof.
  intros H. break_machine m. cbn in H. subst.
  unfold result, after, ensure_uart_alive, try_except, bind, serial_write,
    serial_deinit, uart_init, driver_call, print, modify, sleep_ms, ret.
  destruct sched as [|[|] [|[|] fs']]; cbn; rewrite ?wire_app; cbn;
    rewrite ?app_nil_r; repeat split.
Qed.

Lemma health_check_recovery_witness :
  faults (env (boot faulty_env)) = [true] /\
  result ensure_uart_alive (boot faulty_env) = Ok true /\
  clock_us (env (after ensure_uart_alive (boot faulty_env))) = 50000.
Proof.
  split; [reflexivity|].
  destruct (health_check_recovery (boot faulty_env) [] eq_refl) as (Hr & Hc & _).
  split; [exact Hr|exact Hc].
Defined.

(** ** The buffer clean-up *)

Lemma drain_rx_discards (fuel : nat) (m : Machine) :
  (List.length (rx_buf (env m)) < fuel)%nat ->
  exists r e' dropped,
    drain_rx fuel m = (r, set_env e' m) /\
    rx_buf (env m) = dropped ++ rx_buf e' /\
    clock_us e' = clock_us (env m) /\
    level e' = level (env m) /\
    wire (trace e') = wire (trace (env m)) /\
    (r = Ok tt -> rx_buf e' = []) /\
    (r = Raised -> faults (env m) <> [] /\
                   (List.length (faults e') < List.length (faults (env m)))%nat).
Proof.
  revert m. induction fuel as [|k IH]; intros m Hlen; [inversion Hlen|].
  rewrite drain_rx_S. unfold serial_any.
  destruct (driver_call_cases IoAny
              (fun e => (Z.of_nat (List.length (rx_buf e)), e)) m)
    as [(fs & Hf & ->)|Hok].
  - exists Raised, (log (IoAny false) (set_faults fs (env m))), [].
    split; [reflexivity|]. cbn. rewrite wire_app. cbn. rewrite app_nil_r.
    repeat split; try discriminate.
    + rewrite Hf. discriminate.
    + rewrite Hf. cbn. lia.
  - cbv zeta in Hok. rewrite Hok. clear Hok. cbn [fst snd set_faults rx_buf].
    destruct (rx_buf (env m)) as [|b rest] eqn:Erx.
    + cbn. eexists (Ok tt), _, []. split; [reflexivity|]. cbn.
      rewrite wire_app, ?Erx. cbn. rewrite app_nil_r.
      repeat split; try discriminate; try assumption; intros; assumption.
    + cbn [List.length].
      replace (Z.of_nat (S (List.length rest)) =? 0) with false
        by (symmetry; apply Z.eqb_neq; lia).
      unfold serial_read1.
      match goal with |- context [driver_call IoRead ?r ?mm] =>
        destruct (driver_call_cases IoRead r mm) as [(fs & Hf & ->)|Hok]
      end.
      * cbn [env set_env log set_faults faults] in Hf.
        eexists Raised, _, []. split; [reflexivity|]. cbn.
        rewrite !wire_app, ?Erx. cbn. rewrite !app_nil_r.
        repeat split; try discriminate; try assumption.
        -- intros E. rewrite E in Hf. discriminate Hf.
        -- destruct (faults (env m)) as [|f0 fs0]; [discriminate Hf|].
           cbn in Hf. rewrite Hf. cbn. lia.
      * cbv zeta in Hok. rewrite Hok. clear Hok.
        cbn [fst snd env set_env log set_faults rx_buf faults trace clock_us level].
        rewrite Erx. cbn [fst snd].
        match goal with |- context [drain_rx k ?mm] =>
          destruct (IH mm) as (r & e' & dropped & Hr & Hrx & Hc & Hl & Hw & Hok & Hbad)
        end.
        { cbn. simpl in Hlen. lia. }
        cbn [env set_env log set_faults set_rx_buf rx_buf faults trace clock_us level]
          in Hrx, Hc, Hl, Hw, Hbad.
        exists r, e', (b :: dropped). rewrite Hr.
        split; [reflexivity|]. split; [cbn; now rewrite Hrx|].
        split; [exact Hc|]. split; [exact Hl|].
        split. { rewrite Hw, !wire_app. cbn. now rewrite !app_nil_r. }
        split; [exact Hok|].
        intros E. destruct (Hbad E) as (Hne & Hlt).
        destruct (faults (env m)) as [|f0 [|f1 fs1]]; cbn in *;
          try (now elim Hne).
        split; [discriminate|lia].
Qed.

(** [periodic_cleanup] only discards: what is left in the receive buffer
    is a tail of what was there, nothing reaches the wire, no time passes
    and the program state is untouched.  When it returns the buffer is
    empty; it raises only when a scheduled fault hit one of its driver
    calls, and then the bytes not yet read are still buffered. *)
Theorem periodic_cleanup_discards (m : Machine) :
  exists dropped,
    rx_buf (env m) = dropped ++ rx_buf (env (after periodic_cleanup m)) /\
    wire (trace (env (after periodic_cleanup m))) = wire (trace (env m)) /\
    clock_us (env (after periodic_cleanup m)) = clock_us (env m) /\
    after periodic_cleanup m = set_env (env (after periodic_cleanup m)) m /\
    (result periodic_cleanup m = Ok tt ->
     rx_buf (env (after periodic_cleanup m)) = []) /\
    (result periodic_cleanup m = Raised -> ~ healthy m).
Proof.
  assert (Heq : periodic_cleanup m
                = drain_rx (S (List.length (rx_buf (env m)))) m) by reflexivity.
  destruct (drain_rx_discards (S (List.length (rx_buf (env m)))) m)
    as (r & e' & dropped & Hr & Hrx & Hc & _ & Hw & Hok & Hbad); [lia|].
  unfold after, result. rewrite Heq, Hr. cbn [fst snd env set_env].
  exists dropped. split; [exact Hrx|]. split; [exact Hw|]. split; [exact Hc|].
  split; [reflexivity|]. split; [exact Hok|].
  intros E. exact (proj1 (Hbad E)).
Qed.

(** ** Debounce against the real clock *)

(** Between half a period and a full period after a reading, [ticks_diff]
    is negative. *)
Lemma ticks_diff_stale (t d : Z) :
  TICKS_HALF <= d < TICKS_PERIOD ->
  ticks_diff ((t + d) mod TICKS_PERIOD) (t mod TICKS_PERIOD) = d - TICKS_PERIOD.
Proof.
  intros Hd. unfold ticks_diff.
  assert (HP : TICKS_PERIOD = 2 * TICKS_HALF) by reflexivity.
  assert (Hh : 0 < TICKS_HALF) by reflexivity.
  rewrite <- Zplus_mod_idemp_l, <- Zminus_mod, Zplus_mod_idemp_l.
  replace (t + d - t + TICKS_HALF)
    with (d + TICKS_HALF - TICKS_PERIOD + 1 * TICKS_PERIOD) by ring.
  rewrite Z_mod_plus_full. rewrite Z.mod_small by lia. ring.
Qed.

(** The encoder debounce in real time.  Let the encoder timestamp have been
    taken at time [t] and a pending interrupt be processed [d] microseconds
    later.  Below 1500 us the edge is dropped.  From 1500 us up to half a
    tick period (2^29 us, about nine minutes) a rising edge emits its step
    and moves the timestamp.  From half a period up to a full period the
    wrapped difference is negative, so the edge is dropped whatever the
    pins read, and the timestamp stays where it was. *)
Theorem encoder_debounce_real_time (rev : Revision) (m : Machine) (t d : Z) :
  debounce_us (encoder_state m) = 1500 ->
  encoder_pending m = true ->
  last_time (encoder_state m) = t mod TICKS_PERIOD ->
  clock_us (env m) = t + d ->
  (- TICKS_HALF <= d < 1500 ->
   emitted (after (process_encoder rev) m) = emitted m /\
   last_time (encoder_state (after (process_encoder rev) m))
   = last_time (encoder_state m)) /\
  (1500 <= d < TICKS_HALF ->
   pin_now PinA m = 1 ->
   emitted (after (process_encoder rev) m)
   = emitted m ++ [encoder_text (pin_now PinB m) (pin_now PinModifier m)] /\
   last_time (encoder_state (after (process_encoder rev) m))
   = (t + d) mod TICKS_PERIOD) /\
  (TICKS_HALF <= d < TICKS_PERIOD ->
   emitted (after (process_encoder rev) m) = emitted m /\
   last_time (encoder_state (after (process_encoder rev) m))
   = last_time (encoder_state m)).
Proof.
  intros Hcfg Hp Hlast Hclock.
  assert (Hnow : now_us m = (t + d) mod TICKS_PERIOD)
    by (unfold now_us; now rewrite Hclock).
  assert (Hh : TICKS_HALF = 536870912) by reflexivity.
  assert (HP : TICKS_PERIOD = 1073741824) by reflexivity.
  split; [|split].
  - intros Hd.
    assert (Hw : ticks_diff (now_us m) (last_time (encoder_state m))
                 < debounce_us (encoder_state m)).
    { rewrite Hnow, Hlast, Hcfg, ticks_diff_elapsed by lia. lia. }
    unfold after. rewrite process_encoder_bounce by assumption. now split.
  - intros Hd Ha.
    assert (Hw : debounce_us (encoder_state m)
                 <= ticks_diff (now_us m) (last_time (encoder_state m))).
    { rewrite Hnow, Hlast, Hcfg, ticks_diff_elapsed by lia. lia. }
    unfold after. rewrite process_encoder_emit by assumption.
    cbn [snd emitted encoder_state last_time set_last_a set_last_time].
    now rewrite Hnow.
  - intros Hd.
    assert (Hw : ticks_diff (now_us m) (last_time (encoder_state m))
                 < debounce_us (encoder_state m)).
    { rewrite Hnow, Hlast, Hcfg, ticks_diff_stale by lia. lia. }
    unfold after. rewrite process_encoder_bounce by assumption. now split.
Qed.

Lemma encoder_debounce_real_time_witness :
  debounce_us (encoder_state stale_turning) = 1500 /\
  encoder_pending stale_turning = true /\
  last_time (encoder_state stale_turning) = 0 mod TICKS_PERIOD /\
  clock_us (env stale_turning) = 0 + 600000000 /\
  pin_now PinA stale_turning = 1 /\
  emitted (after (process_encoder V1_5) stale_turning) = [].
Proof.
  split; [reflexivity|]. split; [reflexivity|]. split; [reflexivity|].
  split; [reflexivity|]. split; [reflexivity|].
  destruct (encoder_debounce_real_time V1_5 stale_turning 0 600000000
              eq_refl eq_refl eq_refl eq_refl) as (_ & _ & Hstale).
  destruct Hstale as (He & _); [vm_compute; split; [discriminate|reflexivity]|].
  exact He.
Defined.

(** The button debounce in real time.  Let a button's timestamp have been
    taken at millisecond [t] and its pending interrupt be processed [d]
    milliseconds later.  Below 50 ms the press is dropped.  From 50 ms up to
    half a tick period (2^29 ms, about six days) the timestamp moves to now
    and the press is emitted when the pin still reads 0 after 5 ms.  From
    half a period up to a full period the wrapped difference is negative:
    the pending flag is cleared, nothing is emitted and the timestamp stays,
    so the press is lost. *)
Theorem button_debounce_real_time (rev : Revision) (m : Machine) (t d : Z) :
  debounce_ms (button_state m) = 50 ->
  clock_us (env m) / 1000 = t + d ->
  (override_pending m = true ->
   override_last_time (button_state m) = t mod TICKS_PERIOD ->
   (- TICKS_HALF <= d < 50 ->
    emitted (after (process_override rev) m) = emitted m /\
    override_last_time (button_state (after (process_override rev) m))
    = override_last_time (button_state m)) /\
   (50 <= d < TICKS_HALF ->
    override_last_time (button_state (after (process_override rev) m))
    = (t + d) mod TICKS_PERIOD /\
    (pin_now PinOverride (after (sleep_ms 5) m) = 0 ->
     emitted (after (process_override rev) m) = emitted m ++ [("OV" ++ NL)%string])) /\
   (TICKS_HALF <= d < TICKS_PERIOD ->
    emitted (after (process_override rev) m) = emitted m /\
    override_last_time (button_state (after (process_override rev) m))
    = override_last_time (button_state m) /\
    override_pending (after (process_override rev) m) = false)) /\
  (pump_pending m = true ->
   pump_last_time (button_state m) = t mod TICKS_PERIOD ->
   (- TICKS_HALF <= d < 50 ->
    emitted (after (process_pump_stop rev) m) = emitted m /\
    pump_last_time (button_state (after (process_pump_stop rev) m))
    = pump_last_time (button_state m)) /\
   (50 <= d < TICKS_HALF ->
    pump_last_time (button_state (after (process_pump_stop rev) m))
    = (t + d) mod TICKS_PERIOD /\
    (pin_now PinPumpStop (after (sleep_ms 5) m) = 0 ->
     emitted (after (process_pump_stop rev) m) = emitted m ++ [("PS" ++ NL)%string])) /\
   (TICKS_HALF <= d < TICKS_PERIOD ->
    emitted (after (process_pump_stop rev) m) = emitted m /\
    pump_last_time (button_state (after (process_pump_stop rev) m))
    = pump_last_time (button_state m) /\
    pump_pending (after (process_pump_stop rev) m) = false)).
Proof.
  intros Hcfg Hclock.
  assert (Hnow : now_ms m = (t + d) mod TICKS_PERIOD)
    by (unfold now_ms; now rewrite Hclock).
  assert (Hh : TICKS_HALF = 536870912) by reflexivity.
  assert (HP : TICKS_PERIOD = 1073741824) by reflexivity.
  split.
  - intros Hp Hlast. split; [|split].
    + intros Hd.
      assert (Hw : ticks_diff (now_ms m) (override_last_time (button_state m))
                   < debounce_ms (button_state m)).
      { rewrite Hnow, Hlast, Hcfg, ticks_diff_elapsed by lia. lia. }
      unfold after. rewrite process_override_bounce by assumption. now split.
    + intros Hd.
      assert (Hw : debounce_ms (button_state m)
                   <= ticks_diff (now_ms m) (override_last_time (button_state m))).
      { rewrite Hnow, Hlast, Hcfg, ticks_diff_elapsed by lia. lia. }
      destruct (pin_now_01 PinOverride (after (sleep_ms 5) m)) as [Hv|Hv].
      * run_with (process_override_confirm rev m Hp Hw Hv).
        split; [cbn; now rewrite Hnow|]. intros _. reflexivity.
      * run_with (process_override_glitch rev m Hp Hw Hv).
        split; [cbn; now rewrite Hnow|].
        intros Hv0. rewrite Hv in Hv0. discriminate Hv0.
    + intros Hd.
      assert (Hw : ticks_diff (now_ms m) (override_last_time (button_state m))
                   < debounce_ms (button_state m)).
      { rewrite Hnow, Hlast, Hcfg, ticks_diff_stale by lia. lia. }
      unfold after. rewrite process_override_bounce by assumption. now repeat split.
  - intros Hp Hlast. split; [|split].
    + intros Hd.
      assert (Hw : ticks_diff (now_ms m) (pump_last_time (button_state m))
                   < debounce_ms (button_state m)).
      { rewrite Hnow, Hlast, Hcfg, ticks_diff_elapsed by lia. lia. }
      unfold after. rewrite process_pump_stop_bounce by assumption. now split.
    + intros Hd.
      assert (Hw : debounce_ms (button_state m)
                   <= ticks_diff (now_ms m) (pump_last_time (button_state m))).
      { rewrite Hnow, Hlast, Hcfg, ticks_diff_elapsed by lia. lia. }
      destruct (pin_now_01 PinPumpStop (after (sleep_ms 5) m)) as [Hv|Hv].
      * run_with (process_pump_stop_confirm rev m Hp Hw Hv).
        split; [cbn; now rewrite Hnow|]. intros _. reflexivity.
      * run_with (process_pump_stop_glitch rev m Hp Hw Hv).
        split; [cbn; now rewrite Hnow|].
        intros Hv0. rewrite Hv in Hv0. discriminate Hv0.
    + intros Hd.
      assert (Hw : ticks_diff (now_ms m) (pump_last_time (button_state m))
                   < debounce_ms (button_state m)).
      { rewrite Hnow, Hlast, Hcfg, ticks_diff_stale by lia. lia. }
      unfold after. rewrite process_pump_stop_bounce by assumption. now repeat split.
Qed.

Lemma button_debounce_real_time_witness :
  debounce_ms (button_state stale_pressed) = 50 /\
  clock_us (env stale_pressed) / 1000 = 0 + 600000000 /\
  override_pending stale_pressed = true /\
  pin_now PinOverride (after (sleep_ms 5) stale_pressed) = 0 /\
  emitted (after (process_override V1_5) stale_pressed) = [] /\
  override_pending (after (process_override V1_5) stale_pressed) = false.
Proof.
  split; [reflexivity|]. split; [reflexivity|]. split; [reflexivity|].
  split; [reflexivity|].
  destruct (button_debounce_real_time V1_5 stale_pressed 0 600000000
              eq_refl eq_refl) as (Hov & _).
  destruct (Hov eq_refl eq_refl) as (_ & _ & Hstale).
  destruct Hstale as (He & _ & Hp); [vm_compute; split; [discriminate|reflexivity]|].
  split; [exact He|exact Hp].
Defined.

(** ** A transport without faults, in full *)

Lemma set_faults_nil (e : Env) : faults e = [] -> set_faults [] e = e.
Proof. destruct e; cbn; intros ->; reflexivity. Qed.

Lemma drain_healthy (m : Machine) :
  healthy m ->
  exists e',
    drain m = (Ok tt, set_env e' m) /\
    faults e' = [] /\ rx_buf e' = [] /\
    wire (trace e') = wire (trace (env m)) /\
    clock_us e' = clock_us (env m) /\
    level e' = level (env m).
Proof.
  intros Hh.
  destruct (drain_rx_healthy (S (List.length (rx_buf (env m)))) m Hh)
    as (e1 & Hd & Hf & Hrx & Hw); [lia|].
  destruct (drain_rx_discards (S (List.length (rx_buf (env m)))) m)
    as (r & e2 & dropped & Hd2 & _ & Hc & Hl & _); [lia|].
  rewrite Hd in Hd2. injection Hd2 as <- He. subst e2.
  exists e1. unfold drain. now repeat split.
Qed.

Lemma wire_bytes_snoc (t : list IO) (message : string) :
  wire_bytes (t ++ [IoWrite message true]) = (wire_bytes t ++ message)%string.
Proof.
  unfold wire_bytes. rewrite wire_app. cbn [wire]. generalize (wire t). intros w.
  induction w as [|p w IH]; cbn.
  - clear. induction message as [|c s IH]; cbn; [reflexivity|now rewrite IH].
  - rewrite IH. clear. induction p as [|c s IH]; cbn; [reflexivity|now rewrite IH].
Qed.

Lemma wire_bytes_of_wire (t u : list IO) :
  wire t = wire u -> wire_bytes t = wire_bytes u.
Proof. unfold wire_bytes. now intros ->. Qed.

Lemma wire_bytes_ext (t u : list IO) (message : string) :
  wire u = wire t ++ [message] ->
  wire_bytes u = (wire_bytes t ++ message)%string.
Proof.
  intros H. rewrite <- wire_bytes_snoc. apply wire_bytes_of_wire.
  rewrite H, wire_app. reflexivity.
Qed.

(** A send on a healthy transport, with everything it leaves behind. *)
Lemma safe_uart_write_healthy_full (rev : Revision) (message : string) (m : Machine) :
  healthy m ->
  exists e',
    safe_uart_write rev message m
    = (Ok true, set_env e' (set_emitted (emitted m ++ [message]) m)) /\
    faults e' = [] /\ rx_buf e' = [] /\
    clock_us e' = clock_us (env m) /\
    level e' = level (env m) /\
    wire (trace e') = wire (trace (env m)) ++ [message].
Proof.
  intros Hh. rewrite safe_uart_write_eq.
  set (m0 := set_emitted (emitted m ++ [message]) m).
  destruct (drain_healthy m0 Hh) as (e1 & Hd & Hf1 & Hrx & Hw & Hc & Hl).
  assert (Hb : (drain ;;; serial_write message ;;; ret true) m0
               = (Ok true, set_env (log (IoWrite message true) e1) m0)).
  { unfold bind. rewrite Hd. unfold serial_write.
    rewrite driver_call_healthy by exact Hf1. reflexivity. }
  rewrite Hb. exists (log (IoWrite message true) e1).
  split; [reflexivity|]. cbn. rewrite wire_app, Hw. now repeat split.
Qed.

Lemma serial_any_healthy (m : Machine) :
  healthy m ->
  serial_any m
  = (Ok (Z.of_nat (List.length (rx_buf (env m)))),
     set_env (log (IoAny true) (env m)) m).
Proof. intros Hh. unfold serial_any. now rewrite driver_call_healthy. Qed.

Lemma ensure_uart_alive_healthy (m : Machine) :
  healthy m ->
  ensure_uart_alive m
  = (Ok true, set_env (log (IoWrite EmptyString true) (env m)) m).
Proof.
  intros Hh. unfold healthy in Hh.
  rewrite ensure_uart_alive_probe_ok by now rewrite Hh.
  rewrite Hh. cbn [tl]. now rewrite set_faults_nil.
Qed.

(** ** A pass of the main loop *)

Lemma bind_ok {A B} (c : M A) (k : A -> M B) (m m' : Machine) (a : A) :
  c m = (Ok a, m') -> bind c k m = k a m'.
Proof. intros H. unfold bind. now rewrite H. Qed.

Lemma bind_raised {A B} (c : M A) (k : A -> M B) (m m' : Machine) :
  c m = (Raised, m') -> bind c k m = (Raised, m').
Proof. intros H. unfold bind. now rewrite H. Qed.

Lemma set_emitted_same (m : Machine) : set_emitted (emitted m ++ []) m = m.
Proof. destruct m. cbn. now rewrite app_nil_r. Qed.

Lemma maintenance_healthy (rev : Revision) (now : Z) (lv : LoopVars) (m : Machine) :
  healthy m ->
  exists e',
    maintenance rev now lv m
    = (Ok (if ticks_diff now (last_cleanup lv) >? 5000 then now
           else last_cleanup lv), set_env e' m) /\
    faults e' = [] /\
    (rx_buf (env m) = [] -> rx_buf e' = []) /\
    clock_us e' = clock_us (env m) /\
    wire_bytes (trace e') = wire_bytes (trace (env m)).
Proof.
  intros Hh. unfold maintenance.
  destruct (ticks_diff now (last_cleanup lv) >? 5000).
  - destruct (drain_healthy m Hh) as (e1 & Hd & Hf & Hrx & Hw & Hc & _).
    unfold periodic_cleanup, gc_collect.
    rewrite (bind_ok _ _ m (set_env e1 m) tt)
      by (rewrite (bind_ok _ _ m m tt eq_refl); exact Hd).
    destruct rev.
    + exists e1. cbn. split; [reflexivity|]. split; [exact Hf|].
      split; [intros _; exact Hrx|]. split; [exact Hc|].
      now apply wire_bytes_of_wire.
    + exists (log (IoWrite EmptyString true) e1).
      rewrite (bind_ok _ _ (set_env e1 m)
                 (set_env (log (IoWrite EmptyString true) e1) m) tt).
      * split; [reflexivity|]. cbn [log faults rx_buf clock_us trace].
        split; [exact Hf|].
        split; [intros _; exact Hrx|]. split; [exact Hc|].
        rewrite wire_bytes_snoc_probe. now apply wire_bytes_of_wire.
      * rewrite (bind_ok _ _ (set_env e1 m)
                   (set_env (log (IoWrite EmptyString true) e1) m) true);
          [reflexivity|].
        now rewrite ensure_uart_alive_healthy.
  - exists (env m). rewrite set_env_same. unfold ret.
    split; [reflexivity|]. split; [exact Hh|]. now repeat split.
Qed.

Lemma heartbeat_healthy (rev : Revision) (now : Z) (lv : LoopVars) (m : Machine) :
  healthy m ->
  rx_buf (env m) = [] ->
  exists e',
    heartbeat rev now lv m
    = (Ok (if heartbeat_due rev now lv then now else last_status lv),
       set_env e'
         (set_emitted
            (emitted m ++ (if heartbeat_due rev now lv
                           then [("OK" ++ NL)%string] else [])) m)) /\
    faults e' = [] /\ rx_buf e' = [] /\
    clock_us e' = clock_us (env m) /\
    wire_bytes (trace e')
    = (wire_bytes (trace (env m))
       ++ (if heartbeat_due rev now lv then ("OK" ++ NL) else EmptyString))%string.
Proof.
  intros Hh Hrx. unfold heartbeat, heartbeat_due.
  assert (Hidle : exists e',
            (Ok (last_status lv), m)
            = (Ok (last_status lv), set_env e' (set_emitted (emitted m ++ []) m)) /\
            faults e' = [] /\ rx_buf e' = [] /\
            clock_us e' = clock_us (env m) /\
            wire_bytes (trace e') = (wire_bytes (trace (env m)) ++ EmptyString)%string).
  { exists (env m). rewrite set_emitted_same, set_env_same.
    split; [reflexivity|]. split; [exact Hh|]. split; [exact Hrx|].
    split; [reflexivity|].
    generalize (wire_bytes (trace (env m))). intros w.
    induction w as [|c w IH]; cbn; [reflexivity|now rewrite <- IH]. }
  destruct rev; [exact Hidle|].
  destruct (ticks_diff now (last_status lv) >? 10000); [|exact Hidle].
  destruct (safe_uart_write_healthy_full V1_5 ("OK" ++ NL)%string m Hh)
    as (e1 & Hs & Hf & Hr & Hc & _ & Hw).
  exists (log (IoPrint "OK") e1).
  rewrite (bind_ok _ _ _ _ _ Hs).
  split; [reflexivity|]. cbn [log faults rx_buf clock_us trace].
  split; [exact Hf|]. split; [exact Hr|]. split; [exact Hc|].
  rewrite <- (wire_bytes_ext _ _ _ Hw). apply wire_bytes_of_wire.
  rewrite wire_app. cbn. now rewrite app_nil_r.
Qed.

Lemma poll_command_empty (rev : Revision) (m : Machine) :
  healthy m ->
  rx_buf (env m) = [] ->
  poll_command rev m = (Ok tt, set_env (log (IoAny true) (env m)) m).
Proof.
  intros Hh Hrx. unfold poll_command.
  rewrite (bind_ok _ _ _ _ _ (serial_any_healthy m Hh)). now rewrite Hrx.
Qed.

(** A pass with nothing to do, with what it leaves behind. *)
Lemma loop_body_quiet (rev : Revision) (lv : LoopVars) (m : Machine) :
  healthy m ->
  pending_flags m = (false, false, false) ->
  rx_buf (env m) = [] ->
  exists e',
    loop_body rev lv m
    = (Ok (mkLoopVars
             (if ticks_diff (now_ms m) (last_cleanup lv) >? 5000
              then now_ms m else last_cleanup lv)
             (if heartbeat_due rev (now_ms m) lv
              then now_ms m else last_status lv)),
       set_emitted
         (emitted m ++ (if heartbeat_due rev (now_ms m) lv
                        then [("OK" ++ NL)%string] else []))
         (set_env e' m)) /\
    faults e' = [] /\ rx_buf e' = [] /\
    clock_us e' = clock_us (env m) + 5000 /\
    wire_bytes (trace e')
    = (wire_bytes (trace (env m))
       ++ (if heartbeat_due rev (now_ms m) lv
           then ("OK" ++ NL) else EmptyString))%string.
Proof.
  intros Hh Hp Hrx. unfold pending_flags in Hp. injection Hp as He Ho Hs.
  destruct (maintenance_healthy rev (now_ms m) lv m Hh)
    as (e1 & Hm & Hf1 & Hrx1 & Hc1 & Hw1).
  specialize (Hrx1 Hrx).
  destruct (heartbeat_healthy rev (now_ms m) lv (set_env e1 m) Hf1 Hrx1)
    as (e2 & Hb & Hf2 & Hrx2 & Hc2 & Hw2).
  set (msgs := if heartbeat_due rev (now_ms m) lv
               then [("OK" ++ NL)%string] else []) in *.
  set (m2 := set_env e2 (set_emitted (emitted (set_env e1 m) ++ msgs) (set_env e1 m))) in *.
  assert (Hpoll : poll_command rev m2 = (Ok tt, set_env (log (IoAny true) e2) m2))
    by (apply poll_command_empty; [exact Hf2|exact Hrx2]).
  exists (env (after (sleep_ms 5) (set_env (log (IoAny true) e2) m2))).
  split.
  { unfold loop_body.
    rewrite (bind_ok ticks_ms _ m m (now_ms m) eq_refl).
    rewrite (bind_ok _ _ m m tt (process_encoder_idle rev m He)).
    rewrite (bind_ok _ _ m m tt (process_override_idle rev m Ho)).
    rewrite (bind_ok _ _ m m tt (process_pump_stop_idle rev m Hs)).
    rewrite (bind_ok _ _ _ _ _ Hm).
    rewrite (bind_ok _ _ _ _ _ Hb).
    rewrite (bind_ok _ _ _ _ _ Hpoll).
    reflexivity. }
  cbn. split; [exact Hf2|]. split; [exact Hrx2|].
  split. { rewrite Hc2. cbn. rewrite Hc1. reflexivity. }
  transitivity (wire_bytes (trace e2)).
  - apply wire_bytes_of_wire. rewrite !wire_app. cbn. now rewrite !app_nil_r.
  - rewrite Hw2. cbn [env set_env]. now rewrite Hw1.
Qed.

(** A pass of the loop with nothing to do (no flag pending, no inbound
    byte, transport without faults) returns after exactly 5 ms, leaves the
    program state alone and keeps the transport healthy.  It sends the
    heartbeat line [OK] exactly when it runs V1.5 and more than 10000 ms
    have passed since [last_status], which then becomes the time read at the
    start of the pass; V1.3 never sends one.  [last_cleanup] moves the
    same way when more than 5000 ms have passed; maintenance puts no byte
    on the wire. *)
Theorem quiet_pass (rev : Revision) (lv : LoopVars) (m : Machine) :
  healthy m ->
  pending_flags m = (false, false, false) ->
  rx_buf (env m) = [] ->
  result (loop_body rev lv) m
  = Ok (mkLoopVars
          (if ticks_diff (now_ms m) (last_cleanup lv) >? 5000
           then now_ms m else last_cleanup lv)
          (if heartbeat_due rev (now_ms m) lv
           then now_ms m else last_status lv)) /\
  emitted (after (loop_body rev lv) m)
  = emitted m ++ (if heartbeat_due rev (now_ms m) lv
                  then [("OK" ++ NL)%string] else []) /\
  wire_bytes (trace (env (after (loop_body rev lv) m)))
  = (wire_bytes (trace (env m))
     ++ (if heartbeat_due rev (now_ms m) lv
         then ("OK" ++ NL) else EmptyString))%string /\
  clock_us (env (after (loop_body rev lv) m)) = clock_us (env m) + 5000 /\
  healthy (after (loop_body rev lv) m) /\
  after (loop_body rev lv) m
  = set_emitted (emitted (after (loop_body rev lv) m))
      (set_env (env (after (loop_body rev lv) m)) m).
Proof.
  intros Hh Hp Hrx.
  destruct (loop_body_quiet rev lv m Hh Hp Hrx) as (e' & Hrun & Hf & _ & Hc & Hw).
  unfold result, after. rewrite Hrun. cbn [fst snd].
  split; [reflexivity|]. split; [reflexivity|].
  split; [exact Hw|]. split; [exact Hc|]. split; [exact Hf|reflexivity].
Qed.

Lemma quiet_pass_witness :
  healthy (advance 10001000 (boot quiet_env)) /\
  pending_flags (advance 10001000 (boot quiet_env)) = (false, false, false) /\
  rx_buf (env (advance 10001000 (boot quiet_env))) = [] /\
  emitted (after (loop_body V1_5 (boot_vars quiet_env))
                 (advance 10001000 (boot quiet_env)))
  = [("OK" ++ NL)%string] /\
  emitted (after (loop_body V1_5 (boot_vars quiet_env))
                 (advance 10000000 (boot quiet_env))) = [].
Proof.
  split; [reflexivity|]. split; [reflexivity|]. split; [reflexivity|].
  destruct (quiet_pass V1_5 (boot_vars quiet_env)
              (advance 10001000 (boot quiet_env)) eq_refl eq_refl eq_refl)
    as (_ & He & _).
  destruct (quiet_pass V1_5 (boot_vars quiet_env)
              (advance 10000000 (boot quiet_env)) eq_refl eq_refl eq_refl)
    as (_ & He0 & _).
  split; [exact He|exact He0].
Defined.

(** Replace [result c m] and [after c m] by what [H : c m = (r, m')] gives. *)
Ltac settle H :=
  let Hr := fresh "Hres" in
  let Ha := fresh "Haft" in
  pose proof (f_equal fst H) as Hr; pose proof (f_equal snd H) as Ha;
  cbn [fst snd] in Hr, Ha;
  match type of Hr with
  | fst (?c ?m) = _ =>
      change (fst (c m)) with (result c m) in Hr;
      change (snd (c m)) with (after c m) in Ha
  end;
  rewrite ?Hr, ?Ha.

Lemma system_reset_healthy_full (m : Machine) :
  healthy m ->
  exists e',
    system_reset m
    = (Ok tt, set_interrupt_lock false
                (after (sleep_ms 10) (set_env e' (reset_prologue m)))) /\
    faults e' = [] /\ rx_buf e' = [] /\
    clock_us e' = clock_us (env m) /\
    wire (trace e') = wire (trace (env m)).
Proof.
  intros Hh. destruct (drain_healthy (reset_prologue m) Hh)
    as (e' & Hd & Hf & Hrx & Hw & Hc & _).
  exists e'. rewrite system_reset_eq, Hd. now repeat split.
Qed.

Lemma serial_read1_healthy (m : Machine) (b : ascii) (rest : list ascii) :
  healthy m ->
  rx_buf (env m) = b :: rest ->
  serial_read1 m
  = (Ok (Some b), set_env (log (IoRead true) (set_rx_buf rest (env m))) m).
Proof.
  intros Hh Hrx. unfold serial_read1. rewrite driver_call_healthy by exact Hh.
  now rewrite Hrx.
Qed.

(** The command step on a transport without faults, with a byte waiting.
    It never raises and takes exactly one byte.  The byte [r] runs
    [system_reset], which leaves flags, lock and counter clear and the
    receive buffer empty.  Any other byte is dropped with no change to the
    program state and no time passing; if it is not valid UTF-8 on its own
    (128 or above), V1.5 also runs the health check, whose probe is then
    the only further driver call, and V1.3 does nothing more. *)
Theorem poll_command_dispatch (rev : Revision) (m : Machine)
        (b : ascii) (rest : list ascii) :
  healthy m ->
  rx_buf (env m) = b :: rest ->
  result (poll_command rev) m = Ok tt /\
  healthy (after (poll_command rev) m) /\
  (b = "r"%char ->
   after (poll_command rev) m
   = after system_reset (after serial_read1 (after serial_any m)) /\
   observable (after (poll_command rev) m) = (false, false, false, false, 0) /\
   rx_buf (env (after (poll_command rev) m)) = []) /\
  (b <> "r"%char ->
   rx_buf (env (after (poll_command rev) m)) = rest /\
   clock_us (env (after (poll_command rev) m)) = clock_us (env m) /\
   after (poll_command rev) m = set_env (env (after (poll_command rev) m)) m /\
   trace (env (after (poll_command rev) m))
   = trace (env m) ++ [IoAny true; IoRead true]
     ++ (if (nat_of_ascii b <? 128)%nat then []
         else match rev with
              | V1_5 => [IoWrite EmptyString true]
              | V1_3 => []
              end)).
Proof.
  intros Hh Hrx.
  set (m1 := set_env (log (IoAny true) (env m)) m).
  assert (Hh1 : healthy m1) by exact Hh.
  assert (Hrx1 : rx_buf (env m1) = b :: rest) by exact Hrx.
  set (m2 := set_env (log (IoRead true) (set_rx_buf rest (env m1))) m1).
  assert (Hh2 : healthy m2) by exact Hh.
  assert (Hany : serial_any m = (Ok (Z.of_nat (S (List.length rest))), m1)).
  { rewrite serial_any_healthy by exact Hh. now rewrite Hrx. }
  assert (Hread : serial_read1 m1 = (Ok (Some b), m2))
    by (now apply serial_read1_healthy).
  assert (Hstart : poll_command rev m
                   = try_except
                       (match decode_utf8 b with
                        | None => raise
                        | Some cmd =>
                            if Ascii.eqb cmd "r"%char then system_reset else ret tt
                        end)
                       (match rev with
                        | V1_5 => ensure_uart_alive ;;; ret tt
                        | V1_3 => ret tt
                        end) m2
                   \/ False).
  { left. unfold poll_command. rewrite (bind_ok _ _ _ _ _ Hany).
    replace (Z.of_nat (S (List.length rest)) =? 0) with false
      by (symmetry; apply Z.eqb_neq; lia).
    unfold try_except. rewrite (bind_ok _ _ _ _ _ Hread). reflexivity. }
  destruct Hstart as [Hstart|[]].
  unfold decode_utf8 in Hstart.
  destruct (nat_of_ascii b <? 128)%nat eqn:Hdec.
  - destruct (Ascii.eqb b "r"%char) eqn:Hr.
    + apply Ascii.eqb_eq in Hr.
      destruct (system_reset_healthy_full m2 Hh2) as (e' & Hreset & Hf & Hrx' & _).
      assert (Hp : poll_command rev m
                   = (Ok tt, set_interrupt_lock false
                               (after (sleep_ms 10) (set_env e' (reset_prologue m2))))).
      { rewrite Hstart. unfold try_except. now rewrite Hreset. }
      settle Hp.
      split; [reflexivity|]. split; [exact Hf|]. split.
      * intros _. split.
        -- unfold after. rewrite Hany. cbn [snd]. rewrite Hread. cbn [snd].
           now rewrite Hreset.
        -- split; [reflexivity|exact Hrx'].
      * intros Hne. now elim Hne.
    + assert (Hp : poll_command rev m = (Ok tt, m2))
        by (rewrite Hstart; reflexivity).
      settle Hp.
      split; [reflexivity|]. split; [exact Hh|]. split.
      * intros E. rewrite E in Hr. discriminate Hr.
      * intros _. cbn. rewrite <- ?app_assoc, ?app_nil_r. now repeat split.
  - assert (Hne : b <> "r"%char).
    { intros E. rewrite E in Hdec. discriminate Hdec. }
    destruct rev.
    + assert (Hp : poll_command V1_3 m = (Ok tt, m2))
        by (rewrite Hstart; reflexivity).
      settle Hp.
      split; [reflexivity|]. split; [exact Hh|]. split.
      * intros E. now elim Hne.
      * intros _. cbn. rewrite <- ?app_assoc, ?app_nil_r. now repeat split.
    + assert (Hp : poll_command V1_5 m
                   = (Ok tt, set_env (log (IoWrite EmptyString true) (env m2)) m2)).
      { rewrite Hstart. unfold try_except, raise.
        rewrite (bind_ok _ _ _ _ _ (ensure_uart_alive_healthy m2 Hh2)).
        reflexivity. }
      settle Hp.
      split; [reflexivity|]. split; [exact Hh|]. split.
      * intros E. now elim Hne.
      * intros _. cbn. rewrite <- ?app_assoc. now repeat split.
Qed.

Lemma poll_command_dispatch_witness :
  let m := set_env (set_rx_buf ["r"%char; "x"%char] quiet_env)
                   (set_encoder_pending true (boot quiet_env)) in
  healthy m /\
  rx_buf (env m) = ["r"%char; "x"%char] /\
  observable (after (poll_command V1_5) m) = (false, false, false, false, 0) /\
  rx_buf (env (after (poll_command V1_5) m)) = [].
Proof.
  cbv zeta. split; [reflexivity|]. split; [reflexivity|].
  destruct (poll_command_dispatch V1_5
              (set_env (set_rx_buf ["r"%char; "x"%char] quiet_env)
                       (set_encoder_pending true (boot quiet_env)))
              "r"%char ["x"%char] eq_refl eq_refl) as (_ & _ & Hr & _).
  destruct (Hr eq_refl) as (_ & Ho & Hrx). split; [exact Ho|exact Hrx].
Defined.

(** ** A reset command that fails *)

Lemma driver_call_ok {A} (ev : bool -> IO) (run : Env -> A * Env) (m : Machine) :
  hd false (faults (env m)) = false ->
  driver_call ev run m
  = (Ok (fst (run (set_faults (tl (faults (env m))) (env m)))),
     set_env (log (ev true)
                  (snd (run (set_faults (tl (faults (env m))) (env m))))) m).
Proof.
  intros H. destruct (driver_call_cases ev run m) as [(fs & Hf & _)|Hok].
  - rewrite Hf in H. discriminate H.
  - exact Hok.
Qed.

Lemma irq_sequence_locked (evs : list (Z * Irq)) (m : Machine) :
  interrupt_lock m = true ->
  pending_flags (irq_sequence evs m) = pending_flags m.
Proof.
  revert m. induction evs as [|[d i] rest IH]; intros m Hlock; [reflexivity|].
  simpl. rewrite IH.
  - now rewrite handler_locked_pending.
  - now rewrite handler_keeps_lock.
Qed.

Lemma run_eq {A} (c : M A) (m : Machine) : c m = (result c m, after c m).
Proof. unfold result, after. now destruct (c m). Qed.

Lemma lock_flags_set_env (e : Env) (x : Machine) :
  interrupt_lock (set_env e x) = interrupt_lock x /\
  pending_flags (set_env e x) = pending_flags x.
Proof. split; reflexivity. Qed.

Lemma serial_any_ok (m : Machine) :
  hd false (faults (env m)) = false ->
  result serial_any m = Ok (Z.of_nat (List.length (rx_buf (env m)))) /\
  faults (env (after serial_any m)) = tl (faults (env m)) /\
  rx_buf (env (after serial_any m)) = rx_buf (env m).
Proof.
  intros H. unfold result, after, serial_any.
  rewrite driver_call_ok by exact H. now repeat split.
Qed.

Lemma serial_read1_ok (m : Machine) (b : ascii) (rest : list ascii) :
  hd false (faults (env m)) = false ->
  rx_buf (env m) = b :: rest ->
  result serial_read1 m = Ok (Some b).
Proof.
  intros H Hrx. unfold result, serial_read1.
  rewrite driver_call_ok by exact H. cbn [fst set_faults rx_buf].
  now rewrite Hrx.
Qed.

Lemma poll_command_reset_raises (rev : Revision) (m m1 m2 m3 : Machine) (n : Z) :
  serial_any m = (Ok n, m1) ->
  n <> 0 ->
  serial_read1 m1 = (Ok (Some "r"%char), m2) ->
  system_reset m2 = (Raised, m3) ->
  exists e', poll_command rev m = (Ok tt, set_env e' m3).
Proof.
  intros Hany Hn Hread Hreset. unfold poll_command.
  rewrite (bind_ok _ _ _ _ _ Hany).
  replace (n =? 0) with false by (symmetry; now apply Z.eqb_neq).
  unfold try_except. rewrite (bind_ok _ _ _ _ _ Hread).
  change (decode_utf8 "r"%char) with (Some "r"%char). cbv iota.
  change (Ascii.eqb "r"%char "r"%char) with true. cbv iota.
  rewrite Hreset. destruct rev.
  - exists (env m3). now rewrite set_env_same.
  - destruct (env_only_ensure_uart_alive m3) as (r & e' & He).
    destruct (never_raises_ensure_uart_alive m3) as (b & Hb).
    rewrite He in Hb. cbn in Hb. subst r.
    exists e'. now rewrite (bind_ok _ _ _ _ _ He).
Qed.

(** When the byte [r] is read and [system_reset] then raises (a driver
    call of its buffer clean-up fails), the command step swallows the
    exception and returns normally; the loop goes on with every pending
    flag clear and [interrupt_lock] still set, so from then on no sequence
    of interrupts sets any pending flag.  This holds in both revisions;
    the health check V1.5 runs in the handler does not touch the lock. *)
Theorem failed_reset_command_locks_out (rev : Revision) (m : Machine)
        (rest : list ascii) :
  rx_buf (env m) = "r"%char :: rest ->
  hd false (faults (env m)) = false ->
  hd false (tl (faults (env m))) = false ->
  result system_reset (after serial_read1 (after serial_any m)) = Raised ->
  result (poll_command rev) m = Ok tt /\
  interrupt_lock (after (poll_command rev) m) = true /\
  forall evs,
    pending_flags (irq_sequence evs (after (poll_command rev) m))
    = (false, false, false).
Proof.
  intros Hrx H1 H2 Hraised.
  destruct (serial_any_ok m H1) as (Hr1 & Hf1 & Hrx1).
  pose proof (run_eq serial_any m) as Hany. rewrite Hr1, Hrx in Hany.
  assert (Hr2 : result serial_read1 (after serial_any m) = Ok (Some "r"%char)).
  { apply (serial_read1_ok _ _ rest); [now rewrite Hf1|now rewrite Hrx1]. }
  pose proof (run_eq serial_read1 (after serial_any m)) as Hread.
  rewrite Hr2 in Hread.
  pose proof (run_eq system_reset (after serial_read1 (after serial_any m)))
    as Hreset.
  rewrite Hraised in Hreset.
  destruct (system_reset_effect (after serial_read1 (after serial_any m)))
    as (Hp & _ & _ & _ & _ & _ & _ & Hl).
  rewrite Hraised in Hl.
  destruct (poll_command_reset_raises rev _ _ _ _ _ Hany
              ltac:(cbn; lia) Hread Hreset) as (e' & Hpoll).
  settle Hpoll.
  destruct (lock_flags_set_env e'
              (after system_reset (after serial_read1 (after serial_any m))))
    as (Hl' & Hp').
  split; [reflexivity|]. split; [now rewrite Hl'|].
  intros evs. rewrite irq_sequence_locked by now rewrite Hl'.
  now rewrite Hp'.
Qed.

Lemma failed_reset_command_locks_out_witness :
  rx_buf (env (boot reset_fault_env)) = ["r"%char] /\
  result system_reset
    (after serial_read1 (after serial_any (boot reset_fault_env))) = Raised /\
  result (poll_command V1_5) (boot reset_fault_env) = Ok tt /\
  interrupt_lock (after (poll_command V1_5) (boot reset_fault_env)) = true /\
  pending_flags
    (irq_sequence [(10, IrqEncoder); (20, IrqOverride)]
       (after (poll_command V1_5) (boot reset_fault_env)))
  = (false, false, false).
Proof.
  split; [reflexivity|]. split; [reflexivity|].
  destruct (failed_reset_command_locks_out V1_5 (boot reset_fault_env) []
              eq_refl eq_refl eq_refl eq_refl) as (Hr & Hl & Hq).
  split; [exact Hr|]. split; [exact Hl|]. exact (Hq _).
Defined.

(** ** The loop on a transport without faults *)

Lemma keeps_going_refl (m : Machine) : healthy m -> keeps_going m m.
Proof. intros H. split; [exact H|]. split; [lia|auto]. Qed.

Lemma keeps_going_trans (a b c : Machine) :
  keeps_going a b -> keeps_going b c -> keeps_going a c.
Proof.
  intros (_ & H1 & H2) (H3 & H4 & H5).
  split; [exact H3|]. split; [lia|auto].
Qed.

Lemma keeps_going_board (e : Env) (m : Machine) :
  faults e = [] -> clock_us (env m) <= clock_us e ->
  keeps_going m (set_env e m).
Proof. intros Hf Hc. split; [exact Hf|]. split; [exact Hc|auto]. Qed.

Lemma process_encoder_keeps (rev : Revision) (m : Machine) :
  healthy m ->
  result (process_encoder rev) m = Ok tt /\
  keeps_going m (after (process_encoder rev) m).
Proof.
  intros Hh. unfold result, after.
  destruct (encoder_pending m) eqn:Hp.
  - destruct (Z_lt_le_dec (ticks_diff (now_us m) (last_time (encoder_state m)))
                          (debounce_us (encoder_state m))) as [Hw|Hw].
    + rewrite process_encoder_bounce by assumption.
      split; [reflexivity|]. split; [exact Hh|]. split; [cbn; lia|auto].
    + destruct (pin_now_01 PinA m) as [Ha|Ha].
      * rewrite process_encoder_low by assumption.
        split; [reflexivity|]. split; [exact Hh|]. split; [cbn; lia|auto].
      * rewrite process_encoder_emit by assumption. cbv zeta.
        match goal with |- context [after (safe_uart_write ?r ?t) ?mm] =>
          destruct (safe_uart_write_healthy_full r t mm Hh)
            as (e' & Hs & Hf & _ & Hc & _);
          settle Hs
        end.
        split; [reflexivity|]. split; [exact Hf|].
        split; [cbn [snd env set_env]; rewrite Hc; cbn; lia|auto].
  - rewrite process_encoder_idle by assumption.
    split; [reflexivity|]. now apply keeps_going_refl.
Qed.

Lemma process_override_keeps (rev : Revision) (m : Machine) :
  healthy m ->
  result (process_override rev) m = Ok tt /\
  keeps_going m (after (process_override rev) m).
Proof.
  intros Hh. unfold result, after.
  destruct (override_pending m) eqn:Hp.
  - destruct (Z_lt_le_dec (ticks_diff (now_ms m) (override_last_time (button_state m)))
                          (debounce_ms (button_state m))) as [Hw|Hw].
    + rewrite process_override_bounce by assumption.
      split; [reflexivity|]. split; [exact Hh|]. split; [cbn; lia|auto].
    + destruct (pin_now_01 PinOverride (after (sleep_ms 5) m)) as [Hv|Hv].
      * rewrite process_override_confirm by assumption. cbv zeta.
        match goal with |- context [after (safe_uart_write ?r ?t) ?mm] =>
          destruct (safe_uart_write_healthy_full r t mm Hh)
            as (e' & Hs & Hf & _ & Hc & _);
          settle Hs
        end.
        split; [reflexivity|]. split; [exact Hf|].
        split; [cbn [snd env set_env log clock_us]; rewrite Hc; cbn; lia|auto].
      * rewrite process_override_glitch by assumption.
        split; [reflexivity|]. split; [exact Hh|]. split; [cbn; lia|auto].
  - rewrite process_override_idle by assumption.
    split; [reflexivity|]. now apply keeps_going_refl.
Qed.

Lemma process_pump_stop_keeps (rev : Revision) (m : Machine) :
  healthy m ->
  result (process_pump_stop rev) m = Ok tt /\
  keeps_going m (after (process_pump_stop rev) m).
Proof.
  intros Hh. unfold result, after.
  destruct (pump_pending m) eqn:Hp.
  - destruct (Z_lt_le_dec (ticks_diff (now_ms m) (pump_last_time (button_state m)))
                          (debounce_ms (button_state m))) as [Hw|Hw].
    + rewrite process_pump_stop_bounce by assumption.
      split; [reflexivity|]. split; [exact Hh|]. split; [cbn; lia|auto].
    + destruct (pin_now_01 PinPumpStop (after (sleep_ms 5) m)) as [Hv|Hv].
      * rewrite process_pump_stop_confirm by assumption. cbv zeta.
        match goal with |- context [after (safe_uart_write ?r ?t) ?mm] =>
          destruct (safe_uart_write_healthy_full r t mm Hh)
            as (e' & Hs & Hf & _ & Hc & _);
          settle Hs
        end.
        split; [reflexivity|]. split; [exact Hf|].
        split; [cbn [snd env set_env log clock_us]; rewrite Hc; cbn; lia|auto].
      * rewrite process_pump_stop_glitch by assumption.
        split; [reflexivity|]. split; [exact Hh|]. split; [cbn; lia|auto].
  - rewrite process_pump_stop_idle by assumption.
    split; [reflexivity|]. now apply keeps_going_refl.
Qed.

Lemma maintenance_keeps (rev : Revision) (now : Z) (lv : LoopVars) (m : Machine) :
  healthy m ->
  exists lc m', maintenance rev now lv m = (Ok lc, m') /\ keeps_going m m'.
Proof.
  intros Hh.
  destruct (maintenance_healthy rev now lv m Hh) as (e' & Hm & Hf & _ & Hc & _).
  eexists _, _. split; [exact Hm|]. apply keeps_going_board; [exact Hf|lia].
Qed.

Lemma heartbeat_keeps (rev : Revision) (now : Z) (lv : LoopVars) (m : Machine) :
  healthy m ->
  exists ls m', heartbeat rev now lv m = (Ok ls, m') /\ keeps_going m m'.
Proof.
  intros Hh. unfold heartbeat.
  assert (Hidle : exists ls m',
            ret (last_status lv) m = (Ok ls, m') /\ keeps_going m m').
  { eexists _, _. split; [reflexivity|]. now apply keeps_going_refl. }
  destruct rev; [exact Hidle|].
  destruct (ticks_diff now (last_status lv) >? 10000); [|exact Hidle].
  destruct (safe_uart_write_healthy_full V1_5 ("OK" ++ NL)%string m Hh)
    as (e1 & Hs & Hf & _ & Hc & _).
  eexists _, _. rewrite (bind_ok _ _ _ _ _ Hs). split; [reflexivity|].
  split; [exact Hf|]. split; [cbn; lia|auto].
Qed.

Lemma poll_command_keeps (rev : Revision) (m : Machine) :
  healthy m ->
  exists m', poll_command rev m = (Ok tt, m') /\ keeps_going m m'.
Proof.
  intros Hh. destruct (rx_buf (env m)) as [|b rest] eqn:Hrx.
  - eexists. split; [now apply poll_command_empty|].
    apply keeps_going_board; [exact Hh|cbn; lia].
  - set (m1 := set_env (log (IoAny true) (env m)) m).
    set (m2 := set_env (log (IoRead true) (set_rx_buf rest (env m1))) m1).
    assert (Hh2 : healthy m2) by exact Hh.
    assert (Hk2 : keeps_going m m2).
    { split; [exact Hh|]. split; [cbn; lia|auto]. }
    assert (Hany : serial_any m = (Ok (Z.of_nat (S (List.length rest))), m1)).
    { rewrite serial_any_healthy by exact Hh. now rewrite Hrx. }
    assert (Hread : serial_read1 m1 = (Ok (Some b), m2))
      by (now apply serial_read1_healthy).
    unfold poll_command. rewrite (bind_ok _ _ _ _ _ Hany).
    replace (Z.of_nat (S (List.length rest)) =? 0) with false
      by (symmetry; apply Z.eqb_neq; lia).
    unfold try_except. rewrite (bind_ok _ _ _ _ _ Hread).
    clearbody m2. clear Hany Hread. clearbody m1.
    destruct (decode_utf8 b) as [cmd|].
    + destruct (Ascii.eqb cmd "r"%char).
      * destruct (system_reset_healthy_full m2 Hh2) as (e' & Hreset & Hf & _ & Hc & _).
        rewrite Hreset. eexists. split; [reflexivity|].
        apply (keeps_going_trans _ m2); [exact Hk2|].
        split; [exact Hf|]. split; [cbn; rewrite Hc; lia|reflexivity].
      * eexists. split; [reflexivity|exact Hk2].
    + unfold raise. destruct rev.
      * eexists. split; [reflexivity|exact Hk2].
      * rewrite (bind_ok _ _ _ _ _ (ensure_uart_alive_healthy m2 Hh2)).
        eexists. split; [reflexivity|].
        apply (keeps_going_trans _ m2); [exact Hk2|].
        apply keeps_going_board; [exact Hh2|cbn; lia].
Qed.

Lemma loop_body_keeps (rev : Revision) (lv : LoopVars) (m : Machine) :
  healthy m ->
  exists lv' m',
    loop_body rev lv m = (Ok lv', m') /\
    healthy m' /\
    clock_us (env m) + 5000 <= clock_us (env m') /\
    (interrupt_lock m = false -> interrupt_lock m' = false).
Proof.
  intros Hh. unfold loop_body.
  rewrite (bind_ok ticks_ms _ m m (now_ms m) eq_refl).
  destruct (process_encoder_keeps rev m Hh) as (Hr1 & Hk1).
  pose proof (run_eq (process_encoder rev) m) as He1. rewrite Hr1 in He1.
  rewrite (bind_ok _ _ _ _ _ He1).
  set (m1 := after (process_encoder rev) m) in *. clearbody m1. clear He1 Hr1.
  destruct (process_override_keeps rev m1 (proj1 Hk1)) as (Hr2 & Hk2).
  pose proof (run_eq (process_override rev) m1) as He2. rewrite Hr2 in He2.
  rewrite (bind_ok _ _ _ _ _ He2).
  set (m2 := after (process_override rev) m1) in *. clearbody m2. clear He2 Hr2.
  destruct (process_pump_stop_keeps rev m2 (proj1 Hk2)) as (Hr3 & Hk3).
  pose proof (run_eq (process_pump_stop rev) m2) as He3. rewrite Hr3 in He3.
  rewrite (bind_ok _ _ _ _ _ He3).
  set (m3 := after (process_pump_stop rev) m2) in *. clearbody m3. clear He3 Hr3.
  destruct (maintenance_keeps rev (now_ms m) lv m3 (proj1 Hk3))
    as (lc & m4 & He4 & Hk4).
  rewrite (bind_ok _ _ _ _ _ He4).
  destruct (heartbeat_keeps rev (now_ms m) lv m4 (proj1 Hk4))
    as (ls & m5 & He5 & Hk5).
  rewrite (bind_ok _ _ _ _ _ He5).
  destruct (poll_command_keeps rev m5 (proj1 Hk5)) as (m6 & He6 & Hk6).
  rewrite (bind_ok _ _ _ _ _ He6).
  pose proof (keeps_going_trans _ _ _ Hk1
                (keeps_going_trans _ _ _ Hk2
                   (keeps_going_trans _ _ _ Hk3
                      (keeps_going_trans _ _ _ Hk4
                         (keeps_going_trans _ _ _ Hk5 Hk6)))))
    as (Hf & Hc & Hl).
  eexists _, _. split; [reflexivity|].
  split; [exact Hf|]. split; [cbn; lia|exact Hl].
Qed.

Lemma iterate_keeps (rev : Revision) (n : nat) :
  forall lv m,
    healthy m ->
    exists lv' m',
      iterate n rev lv m = (Ok lv', m') /\
      healthy m' /\
      clock_us (env m) + 5000 * Z.of_nat n <= clock_us (env m') /\
      (interrupt_lock m = false -> interrupt_lock m' = false).
Proof.
  induction n as [|k IH]; intros lv m Hh.
  - exists lv, m. split; [reflexivity|]. split; [exact Hh|].
    split; [cbn; lia|auto].
  - destruct (loop_body_keeps rev lv m Hh) as (lv1 & m1 & He & Hf & Hc & Hl).
    destruct (IH lv1 m1 Hf) as (lv2 & m2 & He2 & Hf2 & Hc2 & Hl2).
    exists lv2, m2. simpl iterate. rewrite (bind_ok _ _ _ _ _ He).
    split; [exact He2|]. split; [exact Hf2|].
    split; [rewrite Nat2Z.inj_succ; lia|auto].
Qed.

(** On a transport without faults the loop keeps running: any number of
    passes complete without raising, so the [except Exception] handler of
    the program is never entered; the transport stays without faults; every
    pass takes at least 5 ms; and if [interrupt_lock] was clear at the
    start it is clear after every pass (a reset command included). *)
Theorem loop_runs_on_healthy_transport (rev : Revision) (n : nat)
        (lv : LoopVars) (m : Machine) :
  healthy m ->
  (exists lv', result (iterate n rev lv) m = Ok lv') /\
  main rev n lv m = (Ok tt, after (iterate n rev lv) m) /\
  healthy (after (iterate n rev lv) m) /\
  clock_us (env m) + 5000 * Z.of_nat n
  <= clock_us (env (after (iterate n rev lv) m)) /\
  (interrupt_lock m = false ->
   interrupt_lock (after (iterate n rev lv) m) = false).
Proof.
  intros Hh.
  destruct (iterate_keeps rev n lv m Hh) as (lv' & m' & He & Hf & Hc & Hl).
  settle He.
  split; [now exists lv'|].
  split. { unfold main, try_except. now rewrite (bind_ok _ _ _ _ _ He). }
  split; [exact Hf|]. split; [exact Hc|exact Hl].
Qed.

Lemma loop_runs_on_healthy_transport_witness :
  healthy pressed /\
  result (main V1_5 3 (boot_vars pressed_env)) pressed = Ok tt /\
  interrupt_lock (after (iterate 3 V1_5 (boot_vars pressed_env)) pressed) = false.
Proof.
  split; [reflexivity|].
  destruct (loop_runs_on_healthy_transport V1_5 3 (boot_vars pressed_env)
              pressed eq_refl) as (_ & Hm & _ & _ & Hl).
  split; [unfold result; now rewrite Hm|exact (Hl eq_refl)].
Defined.

(** ** What the whole program keeps *)

Lemma steady_refl (m : Machine) : steady m m.
Proof.
  repeat split; try reflexivity.
  - exists []. split; [now rewrite app_nil_r|constructor].
  - exists []. split; [now rewrite app_nil_r|constructor].
Qed.

Lemma steady_trans (a b c : Machine) : steady a b -> steady b c -> steady a c.
Proof.
  intros (A1 & A2 & A3 & (ms1 & A4 & A5) & (ws1 & A6 & A7))
         (B1 & B2 & B3 & (ms2 & B4 & B5) & (ws2 & B6 & B7)).
  split; [congruence|]. split; [congruence|]. split; [congruence|]. split.
  - exists (ms1 ++ ms2). split; [now rewrite B4, A4, app_assoc|].
    now apply Forall_app.
  - exists (ws1 ++ ws2). split; [now rewrite B6, A6, app_assoc|].
    now apply Forall_app.
Qed.

Lemma respects_ret {A} (a : A) : respects (ret a).
Proof. intros m. apply steady_refl. Qed.

Lemma respects_raise {A} : respects (@raise A).
Proof. intros m. apply steady_refl. Qed.

Lemma respects_get {A} (f : Machine -> A) : respects (get f).
Proof. intros m. apply steady_refl. Qed.

Lemma respects_bind {A B} (c : M A) (k : A -> M B) :
  respects c -> (forall a, respects (k a)) -> respects (bind c k).
Proof.
  intros Hc Hk m. specialize (Hc m). unfold after, bind in *.
  destruct (c m) as [[a|] m1]; [|exact Hc].
  apply (steady_trans _ m1); [exact Hc|apply Hk].
Qed.

Lemma respects_try {A} (body handler : M A) :
  respects body -> respects handler -> respects (try_except body handler).
Proof.
  intros Hb Hh m. specialize (Hb m). unfold after, try_except in *.
  destruct (body m) as [[a|] m1]; [exact Hb|].
  apply (steady_trans _ m1); [exact Hb|apply Hh].
Qed.

Lemma respects_modify (f : Machine -> Machine) :
  (forall m, steady m (f m)) -> respects (modify f).
Proof. intros H m. apply H. Qed.

Lemma steady_board (e : Env) (m : Machine) (ws : list string) :
  wire (trace e) = wire (trace (env m)) ++ ws ->
  Forall wire_payload ws ->
  steady m (set_env e m).
Proof.
  intros Hw Hf. repeat split; try reflexivity.
  - exists []. split; [now rewrite app_nil_r|constructor].
  - exists ws. now split.
Qed.

Lemma respects_driver_call {A} (ev : bool -> IO) (run : Env -> A * Env) :
  (forall e, trace (snd (run e)) = trace e) ->
  (forall ok, Forall wire_payload (wire [ev ok])) ->
  respects (driver_call ev run).
Proof.
  intros Hrun Hev m. unfold after.
  destruct (driver_call_cases ev run m) as [(fs & _ & ->)|Hok].
  - cbn [snd]. apply (steady_board _ _ (wire [ev false])); [|apply Hev].
    cbn. now rewrite wire_app.
  - cbv zeta in Hok. rewrite Hok. cbn [snd].
    apply (steady_board _ _ (wire [ev true])); [|apply Hev].
    cbn. rewrite wire_app, Hrun. reflexivity.
Qed.

Lemma respects_serial_any : respects serial_any.
Proof.
  apply respects_driver_call; [reflexivity|intros []; constructor].
Qed.

Lemma respects_serial_read1 : respects serial_read1.
Proof.
  apply respects_driver_call.
  - intros e. now destruct (rx_buf e).
  - intros []; constructor.
Qed.

Lemma respects_serial_write (message : string) :
  wire_payload message -> respects (serial_write message).
Proof.
  intros H. apply respects_driver_call; [reflexivity|].
  intros []; cbn; [now constructor|constructor].
Qed.

Lemma respects_serial_deinit : respects serial_deinit.
Proof.
  apply respects_driver_call; [reflexivity|intros []; constructor].
Qed.

Lemma respects_uart_init : respects uart_init.
Proof.
  apply respects_driver_call; [reflexivity|intros []; constructor].
Qed.

Lemma respects_print (text : string) : respects (print text).
Proof.
  intros m. unfold after, print, modify. cbn [snd].
  apply (steady_board _ _ []); [|constructor].
  cbn. rewrite wire_app. reflexivity.
Qed.

Lemma respects_sleep_ms (n : Z) : respects (sleep_ms n).
Proof.
  intros m. unfold after, sleep_ms, modify. cbn [snd].
  apply (steady_board _ _ []); [|constructor].
  cbn. rewrite wire_app. reflexivity.
Qed.

(** Writes to the program state that stay clear of the configuration. *)
Lemma steady_program (m m' : Machine) :
  debounce_us (encoder_state m') = debounce_us (encoder_state m) ->
  max_rate (encoder_state m') = max_rate (encoder_state m) ->
  debounce_ms (button_state m') = debounce_ms (button_state m) ->
  emitted m' = emitted m ->
  env m' = env m ->
  steady m m'.
Proof.
  intros H1 H2 H3 H4 H5. repeat split; try assumption.
  - exists []. split; [now rewrite app_nil_r|constructor].
  - exists []. rewrite H5. split; [now rewrite app_nil_r|constructor].
Qed.

Ltac respects_step :=
  lazymatch goal with
  | |- respects (bind _ _) => apply respects_bind; [|intros ?]
  | |- respects (try_except _ _) => apply respects_try
  | |- respects (ret _) => apply respects_ret
  | |- respects raise => apply respects_raise
  | |- respects (get _) => apply respects_get
  | |- respects (print _) => apply respects_print
  | |- respects (sleep_ms _) => apply respects_sleep_ms
  | |- respects serial_any => apply respects_serial_any
  | |- respects serial_read1 => apply respects_serial_read1
  | |- respects serial_deinit => apply respects_serial_deinit
  | |- respects uart_init => apply respects_uart_init
  | |- respects (modify _) =>
      apply respects_modify; intros ?; apply steady_program; reflexivity
  | |- respects (if ?b then _ else _) => destruct b
  | |- respects (match ?x with _ => _ end) => destruct x
  end.

Lemma respects_drain_rx (fuel : nat) : respects (drain_rx fuel).
Proof.
  induction fuel as [|k IH]; simpl; repeat respects_step. exact IH.
Qed.

Lemma respects_drain : respects drain.
Proof.
  intros m. unfold after, drain.
  exact (respects_drain_rx (S (List.length (rx_buf (env m)))) m).
Qed.

Lemma respects_ensure_uart_alive : respects ensure_uart_alive.
Proof.
  unfold ensure_uart_alive. repeat respects_step.
  apply respects_serial_write. now left.
Qed.

Lemma respects_safe_uart_write (rev : Revision) (message : string) :
  on_protocol message -> respects (safe_uart_write rev message).
Proof.
  intros Hm. unfold safe_uart_write.
  apply respects_bind.
  { apply respects_modify. intros m. repeat split; try reflexivity.
    - exists [message]. split; [reflexivity|now constructor].
    - exists []. split; [cbn; now rewrite app_nil_r|constructor]. }
  intros _. apply respects_try.
  - apply respects_bind; [apply respects_drain|intros _].
    apply respects_bind; [apply respects_serial_write; now right|intros _].
    apply respects_ret.
  - destruct rev; [apply respects_ret|].
    apply respects_bind; [apply respects_print|intros _].
    apply respects_bind; [apply respects_ensure_uart_alive|intros _].
    apply respects_ret.
Qed.

Ltac on_protocol_tac :=
  unfold on_protocol, protocol_lines; vm_compute;
  repeat (first [left; reflexivity | right]).

Lemma respects_check_rate_limit : respects check_rate_limit.
Proof.
  unfold check_rate_limit, ticks_ms, upd_encoder. repeat respects_step.
Qed.

Lemma respects_handler (i : Irq) : respects (handler i).
Proof.
  destruct i; unfold handler, encoder_isr, override_isr, pump_stop_isr, upd_stats.
  - apply respects_bind; [apply respects_get|intros lock].
    apply respects_bind.
    + destruct (negb lock); [apply respects_check_rate_limit|apply respects_ret].
    + intros pass. repeat respects_step.
  - repeat respects_step.
  - repeat respects_step.
Qed.

Lemma respects_process_encoder (rev : Revision) : respects (process_encoder rev).
Proof.
  unfold process_encoder, ticks_us, pin_value, upd_stats, upd_encoder.
  repeat respects_step.
  apply respects_safe_uart_write.
  destruct (_ =? 0), (_ =? 0); on_protocol_tac.
Qed.

Lemma respects_process_override (rev : Revision) : respects (process_override rev).
Proof.
  unfold process_override, ticks_ms, pin_value, upd_stats, upd_button.
  repeat respects_step.
  apply respects_safe_uart_write. on_protocol_tac.
Qed.

Lemma respects_process_pump_stop (rev : Revision) : respects (process_pump_stop rev).
Proof.
  unfold process_pump_stop, ticks_ms, pin_value, upd_stats, upd_button.
  repeat respects_step.
  apply respects_safe_uart_write. on_protocol_tac.
Qed.

Lemma respects_periodic_cleanup : respects periodic_cleanup.
Proof.
  unfold periodic_cleanup, gc_collect.
  apply respects_bind; [apply respects_ret|intros _; apply respects_drain].
Qed.

Lemma respects_system_reset : respects system_reset.
Proof.
  unfold system_reset, pin_value, ticks_us, upd_encoder.
  repeat respects_step. apply respects_periodic_cleanup.
Qed.

Lemma respects_poll_command (rev : Revision) : respects (poll_command rev).
Proof.
  unfold poll_command. repeat respects_step;
    first [apply respects_system_reset | apply respects_ensure_uart_alive].
Qed.

Lemma respects_maintenance (rev : Revision) (now : Z) (lv : LoopVars) :
  respects (maintenance rev now lv).
Proof.
  unfold maintenance. repeat respects_step;
    first [apply respects_periodic_cleanup | apply respects_ensure_uart_alive].
Qed.

Lemma respects_heartbeat (rev : Revision) (now : Z) (lv : LoopVars) :
  respects (heartbeat rev now lv).
Proof.
  unfold heartbeat. repeat respects_step.
  apply respects_safe_uart_write. on_protocol_tac.
Qed.

Lemma respects_loop_body (rev : Revision) (lv : LoopVars) :
  respects (loop_body rev lv).
Proof.
  unfold loop_body, ticks_ms.
  repeat respects_step;
    first [ apply respects_process_encoder | apply respects_process_override
          | apply respects_process_pump_stop | apply respects_maintenance
          | apply respects_heartbeat | apply respects_poll_command ].
Qed.

Lemma respects_iterate (rev : Revision) (n : nat) :
  forall lv, respects (iterate n rev lv).
Proof.
  induction n as [|k IH]; intros lv; simpl.
  - apply respects_ret.
  - apply respects_bind; [apply respects_loop_body|intros lv'; apply IH].
Qed.

Lemma respects_main (rev : Revision) (n : nat) (lv : LoopVars) :
  respects (main rev n lv).
Proof.
  unfold main. apply respects_try.
  - apply respects_bind; [apply respects_iterate|intros _; apply respects_ret].
  - unfold on_exception. destruct rev; [apply respects_system_reset|].
    apply respects_bind; [apply respects_print|intros _].
    apply respects_bind; [apply respects_ensure_uart_alive|intros _].
    apply respects_system_reset.
Qed.

Lemma steady_irq_sequence (evs : list (Z * Irq)) :
  forall m, steady m (irq_sequence evs m).
Proof.
  induction evs as [|[d i] rest IH]; intros m; [apply steady_refl|].
  simpl irq_sequence.
  apply (steady_trans _ (advance d m)).
  - unfold advance. apply (steady_board _ _ []); [|constructor].
    cbn. now rewrite app_nil_r.
  - apply (steady_trans _ (after (handler i) (advance d m)));
      [apply respects_handler|apply IH].
Qed.

Lemma steady_config (m m' : Machine) : steady m m' -> config_ok m -> config_ok m'.
Proof.
  intros (H1 & H2 & H3 & _) (C1 & C2 & C3). repeat split; congruence.
Qed.

(** The configuration is constant.  Start-up sets the encoder window to
    1500 us, the maximum rate to 1000 and the button window to 50 ms, and
    nothing ever writes them again: not the program run for any number of
    passes (whatever the transport does, exception handler included), not a
    reset, not any sequence of interrupts. *)
Theorem configuration_is_constant (rev : Revision) (n : nat) (lv : LoopVars)
        (evs : list (Z * Irq)) (e : Env) (m : Machine) :
  config_ok (boot e) /\
  (config_ok m ->
   config_ok (after (main rev n lv) m) /\
   config_ok (after (iterate n rev lv) m) /\
   config_ok (after system_reset m) /\
   config_ok (irq_sequence evs m)).
Proof.
  split; [repeat split|]. intros Hc.
  split; [exact (steady_config _ _ (respects_main rev n lv m) Hc)|].
  split; [exact (steady_config _ _ (respects_iterate rev n lv m) Hc)|].
  split; [exact (steady_config _ _ (respects_system_reset m) Hc)|].
  exact (steady_config _ _ (steady_irq_sequence evs m) Hc).
Qed.

Lemma configuration_is_constant_witness :
  config_ok pressed /\
  config_ok (after (main V1_5 2 (boot_vars pressed_env)) pressed).
Proof.
  split; [repeat split|].
  destruct (configuration_is_constant V1_5 2 (boot_vars pressed_env) []
              pressed_env pressed) as (_ & H).
  destruct H as (Hm & _); [repeat split|]. exact Hm.
Defined.

(** The program speaks the protocol and nothing else.  Whatever the
    transport does and however many passes run (exception handler
    included), every message handed to the transport is one of the seven
    protocol lines, and every payload that reaches the UART is either one of
    those lines or the zero-length probe of the health check.  Interrupt
    handlers send nothing. *)
Theorem only_protocol_lines (rev : Revision) (n : nat) (lv : LoopVars)
        (evs : list (Z * Irq)) (m : Machine) :
  (exists msgs,
     emitted (after (main rev n lv) m) = emitted m ++ msgs /\
     Forall on_protocol msgs) /\
  (exists ws,
     wire (trace (env (after (main rev n lv) m)))
     = wire (trace (env m)) ++ ws /\
     Forall wire_payload ws) /\
  emitted (irq_sequence evs m) = emitted m /\
  wire (trace (env (irq_sequence evs m))) = wire (trace (env m)).
Proof.
  destruct (respects_main rev n lv m) as (_ & _ & _ & He & Hw).
  split; [exact He|]. split; [exact Hw|]. clear He Hw.
  revert m. induction evs as [|[d i] rest IH]; intros m; [now split|].
  simpl irq_sequence.
  destruct (IH (after (handler i) (advance d m))) as (I1 & I2).
  destruct (handler_frame i (advance d m)) as (H1 & H2 & _).
  rewrite I1, I2, H1, H2. now split.
Qed.

(** ** After an exception *)

Lemma same_run {A} (c c' : M A) (m m' : Machine) :
  c m = c' m' -> result c m = result c' m' /\ after c m = after c' m'.
Proof. intros H. unfold result, after. now rewrite H. Qed.

Lemma on_exception_run (rev : Revision) (m1 : Machine) :
  exists m2, on_exception rev m1 = system_reset m2.
Proof.
  unfold on_exception. destruct rev; [now exists m1|].
  rewrite (bind_ok (print "Main loop exception:") _ m1
             (after (print "Main loop exception:") m1) tt eq_refl).
  set (m2 := after (print "Main loop exception:") m1). clearbody m2.
  destruct (never_raises_ensure_uart_alive m2) as (b & Hb).
  pose proof (run_eq ensure_uart_alive m2) as He.
  change (fst (ensure_uart_alive m2)) with (result ensure_uart_alive m2) in Hb.
  rewrite Hb in He. rewrite (bind_ok _ _ _ _ _ He). now eexists.
Qed.

(** An exception that escapes a pass ends the loop for good.  The
    [except Exception] handler runs once (in V1.5 it prints and runs the
    health check first), then [system_reset]; no further pass runs, however
    long the program is observed.  The handler leaves every pending flag
    clear; [interrupt_lock] ends clear when its reset returned, and set when
    the reset raised too. *)
Theorem exception_ends_the_loop (rev : Revision) (n : nat) (lv : LoopVars)
        (m : Machine) :
  result (loop_body rev lv) m = Raised ->
  main rev (S n) lv m = main rev 1 lv m /\
  pending_flags (after (main rev 1 lv) m) = (false, false, false) /\
  interrupt_lock (after (main rev 1 lv) m)
  = match result (main rev 1 lv) m with Ok _ => false | Raised => true end.
Proof.
  intros Hraised.
  pose proof (run_eq (loop_body rev lv) m) as Hbody. rewrite Hraised in Hbody.
  set (m1 := after (loop_body rev lv) m) in *. clearbody m1.
  assert (Hmain : forall k, main rev (S k) lv m = on_exception rev m1).
  { intros k. unfold main, try_except. simpl iterate.
    rewrite (bind_raised _ _ m m1); [reflexivity|].
    now rewrite (bind_raised _ _ m m1). }
  split; [now rewrite !Hmain|].
  destruct (on_exception_run rev m1) as (m2 & Hrun).
  destruct (same_run _ _ _ _ (eq_trans (Hmain 0%nat) Hrun)) as (-> & ->).
  destruct (system_reset_effect m2) as (Hp & _ & _ & _ & _ & _ & _ & Hl).
  split; [exact Hp|exact Hl].
Qed.

Lemma exception_ends_the_loop_witness :
  result (loop_body V1_5 (boot_vars late_faulty_env)) (boot late_faulty_env)
  = Raised /\
  main V1_5 5 (boot_vars late_faulty_env) (boot late_faulty_env)
  = main V1_5 1 (boot_vars late_faulty_env) (boot late_faulty_env) /\
  interrupt_lock
    (after (main V1_5 1 (boot_vars late_faulty_env)) (boot late_faulty_env))
  = false.
Proof.
  assert (Hr : result (loop_body V1_5 (boot_vars late_faulty_env))
                      (boot late_faulty_env) = Raised)
    by (vm_compute; reflexivity).
  split; [exact Hr|].
  destruct (exception_ends_the_loop V1_5 4 (boot_vars late_faulty_env)
              (boot late_faulty_env) Hr) as (Hm & _ & Hl).
  split; [exact Hm|]. rewrite Hl. vm_compute. reflexivity.
Defined.

(** ** How long a pass takes *)

Lemma takes_weaken {A} (lo hh hi lo' hh' hi' : Z) (c : M A) :
  takes lo hh hi c -> lo' <= lo -> hh <= hh' -> hi <= hi' ->
  takes lo' hh' hi' c.
Proof.
  intros H Hl Hh Hi m. destruct (H m) as (Hc & Ho & Hhe).
  split; [lia|]. split.
  - intros a Ha. specialize (Ho a Ha). lia.
  - intros Hm. destruct (Hhe Hm). split; [assumption|lia].
Qed.

Lemma takes_ret {A} (a : A) : takes 0 0 0 (ret a).
Proof.
  intros m. unfold after, result, ret. cbn. split; [lia|].
  split; [intros; lia|]. intros H. split; [exact H|lia].
Qed.

Lemma takes_raise {A} : takes 0 0 0 (@raise A).
Proof.
  intros m. unfold after, result, raise. cbn. split; [lia|].
  split; [intros; lia|]. intros H. split; [exact H|lia].
Qed.

Lemma takes_get {A} (f : Machine -> A) : takes 0 0 0 (get f).
Proof.
  intros m. unfold after, result, get. cbn. split; [lia|].
  split; [intros; lia|]. intros H. split; [exact H|lia].
Qed.

Lemma takes_modify (f : Machine -> Machine) :
  (forall m, env (f m) = env m) -> takes 0 0 0 (modify f).
Proof.
  intros Hf m. unfold after, result, modify, healthy. cbn. rewrite Hf.
  split; [lia|]. split; [intros; lia|]. intros H. split; [exact H|lia].
Qed.

Lemma takes_print (text : string) : takes 0 0 0 (print text).
Proof.
  intros m. unfold after, result, print, modify, healthy. cbn.
  split; [lia|]. split; [intros; lia|]. intros H. split; [exact H|lia].
Qed.

Lemma takes_sleep_ms (n : Z) :
  0 <= n -> takes (n * 1000) (n * 1000) (n * 1000) (sleep_ms n).
Proof.
  intros Hn m. unfold after, result, sleep_ms, modify, healthy. cbn.
  split; [lia|]. split; [intros; lia|]. intros H. split; [exact H|lia].
Qed.

Lemma takes_driver_call {A} (ev : bool -> IO) (run : Env -> A * Env) :
  (forall e, clock_us (snd (run e)) = clock_us e /\
             faults (snd (run e)) = faults e) ->
  takes 0 0 0 (driver_call ev run).
Proof.
  intros Hrun m. unfold after, result, driver_call, healthy.
  destruct (faults (env m)) as [|[|] fs] eqn:Ef.
  - destruct (Hrun (set_faults (tl []) (env m))) as (Hc & Hf).
    destruct (run _) as [a e']. cbn in *.
    split; [lia|]. split; [intros; lia|]. intros _. split; [exact Hf|lia].
  - cbn. split; [lia|]. split; [intros; lia|]. intros H. discriminate H.
  - destruct (Hrun (set_faults (tl (false :: fs)) (env m))) as (Hc & Hf).
    destruct (run _) as [a e']. cbn in *.
    split; [lia|]. split; [intros; lia|]. intros H. discriminate H.
Qed.

Lemma takes_bind {A B} (lo hh hi lo' hh' hi' : Z) (c : M A) (k : A -> M B) :
  takes lo hh hi c ->
  (forall a, takes lo' hh' hi' (k a)) ->
  0 <= hh' -> 0 <= hi' ->
  takes (lo + lo') (hh + hh') (hi + hi') (bind c k).
Proof.
  intros Hc Hk Hh' Hi' m. destruct (Hc m) as (H1 & H2 & H3).
  unfold after, result, bind in *.
  destruct (c m) as [[a|] m1]; cbn [fst snd] in *.
  - destruct (Hk a m1) as (K1 & K2 & K3). unfold after, result in *.
    split; [lia|]. split.
    + intros b Hb. specialize (H2 a eq_refl). specialize (K2 b Hb). lia.
    + intros Hm. destruct (H3 Hm) as (Hm1 & Hb1).
      destruct (K3 Hm1) as (Hm2 & Hb2). split; [exact Hm2|lia].
  - split; [lia|]. split; [intros b Hb; discriminate Hb|].
    intros Hm. destruct (H3 Hm) as (Hm1 & Hb1). split; [exact Hm1|lia].
Qed.

(** When the body raised after at most [r], the handler starts from there. *)
Lemma takes_try_after {A} (lo hh hi lo' hh' hi' r : Z) (body handler : M A) :
  takes lo hh hi body ->
  (forall m, result body m = Raised ->
             clock_us (env (after body m)) <= clock_us (env m) + r) ->
  takes lo' hh' hi' handler ->
  takes (Z.min lo lo') (hh + hh') (Z.max hi (r + hi')) (try_except body handler).
Proof.
  intros Hb Hr Hh m. destruct (Hb m) as (H1 & H2 & H3). specialize (Hr m).
  unfold after, result, try_except in *.
  destruct (body m) as [[a|] m1]; cbn [fst snd] in *.
  - split; [lia|]. split.
    + intros b Hbq. specialize (H2 a eq_refl). lia.
    + intros Hm. destruct (H3 Hm) as (Hm1 & Hb1). split; [exact Hm1|].
      destruct (Hh m1) as (_ & _ & K3). destruct (K3 Hm1) as (_ & K4).
      destruct (Hh m1) as (K1 & _). lia.
  - specialize (Hr eq_refl).
    destruct (Hh m1) as (K1 & K2 & K3). unfold after, result in *.
    split; [lia|]. split.
    + intros b Hbq. specialize (K2 b Hbq). lia.
    + intros Hm. destruct (H3 Hm) as (Hm1 & Hb1).
      destruct (K3 Hm1) as (Hm2 & Hb2). split; [exact Hm2|lia].
Qed.

Lemma takes_try {A} (lo hh hi lo' hh' hi' : Z) (body handler : M A) :
  takes lo hh hi body ->
  takes lo' hh' hi' handler ->
  takes (Z.min lo lo') (hh + hh') (hi + hi') (try_except body handler).
Proof.
  intros Hb Hh.
  apply (takes_weaken (Z.min lo lo') (hh + hh') (Z.max hi (hi + hi'))).
  - apply takes_try_after; [exact Hb| |exact Hh].
    intros m _. destruct (Hb m) as (H1 & _). lia.
  - lia.
  - lia.
  - intros. assert (0 <= hi') by (destruct (Hh (boot quiet_env)) as (K & _); lia). lia.
Qed.

Lemma takes_if {A} (lo hh hi lo' hh' hi' : Z) (b : bool) (c1 c2 : M A) :
  takes lo hh hi c1 ->
  takes lo' hh' hi' c2 ->
  takes (Z.min lo lo') (Z.max hh hh') (Z.max hi hi') (if b then c1 else c2).
Proof.
  intros H1 H2. destruct b.
  - apply (takes_weaken lo hh hi); [exact H1|lia..].
  - apply (takes_weaken lo' hh' hi'); [exact H2|lia..].
Qed.

Create HintDb takes.

Ltac takes_step :=
  cbv beta match zeta;
  lazymatch goal with
  | |- takes _ _ _ (bind _ _) => eapply takes_bind; [|intros ?| |]
  | |- takes _ _ _ (try_except _ _) => eapply takes_try
  | |- takes _ _ _ (if _ then _ else _) => eapply takes_if
  | |- takes _ _ _ (ret _) => apply takes_ret
  | |- takes _ _ _ raise => apply takes_raise
  | |- takes _ _ _ (get _) => apply takes_get
  | |- takes _ _ _ (print _) => apply takes_print
  | |- takes _ _ _ (sleep_ms _) => apply takes_sleep_ms; lia
  | |- takes _ _ _ (modify _) => apply takes_modify; intros ?; reflexivity
  | |- takes _ _ _ (driver_call _ _) =>
      apply takes_driver_call; intros ?; split; reflexivity
  | |- takes _ _ _ _ => solve [eauto 1 with takes nocore]
  end.

Ltac takes_budget := unfold fault_budget, pass_budget; lia.

Ltac takes_auto :=
  eapply takes_weaken; [repeat takes_step; takes_budget|takes_budget..].

Lemma takes_serial_any : takes 0 0 0 serial_any.
Proof. unfold serial_any. takes_step. Qed.

Lemma takes_serial_read1 : takes 0 0 0 serial_read1.
Proof.
  unfold serial_read1. apply takes_driver_call. intros e.
  destruct (rx_buf e); split; reflexivity.
Qed.

Lemma takes_serial_write (message : string) : takes 0 0 0 (serial_write message).
Proof. unfold serial_write. takes_step. Qed.

Lemma takes_serial_deinit : takes 0 0 0 serial_deinit.
Proof. unfold serial_deinit. takes_step. Qed.

Lemma takes_uart_init : takes 0 0 0 uart_init.
Proof. unfold uart_init. takes_step. Qed.

#[local] Hint Resolve takes_serial_any takes_serial_read1 takes_serial_write
  takes_serial_deinit takes_uart_init : takes.

Lemma takes_drain_rx (fuel : nat) : takes 0 0 0 (drain_rx fuel).
Proof.
  induction fuel as [|k IH]; cbn [drain_rx]; [apply takes_ret|].
  eapply takes_weaken.
  - eapply takes_bind; [apply takes_serial_any|intros n| |].
    + eapply takes_if; [apply takes_ret|].
      eapply takes_bind; [apply takes_serial_read1|intros _; apply IH|lia|lia].
    + lia.
    + lia.
  - lia.
  - lia.
  - lia.
Qed.

Lemma takes_drain : takes 0 0 0 drain.
Proof. intros m. exact (takes_drain_rx _ m). Qed.

#[local] Hint Resolve takes_drain : takes.

Lemma takes_when_healthy {A} (lo hh hi hh' : Z) (c : M A) :
  takes lo hh hi c ->
  (forall m, healthy m ->
             healthy (after c m) /\
             clock_us (env (after c m)) <= clock_us (env m) + hh') ->
  takes lo hh' hi c.
Proof.
  intros H Hh m. destruct (H m) as (H1 & H2 & _).
  split; [exact H1|]. split; [exact H2|]. apply Hh.
Qed.

Lemma takes_ensure_uart_alive : takes 0 0 50000 ensure_uart_alive.
Proof.
  apply (takes_when_healthy 0 50000 50000).
  - unfold ensure_uart_alive. takes_auto.
  - intros m Hm. unfold after. rewrite (ensure_uart_alive_healthy m Hm).
    cbn. split; [exact Hm|lia].
Qed.

#[local] Hint Resolve takes_ensure_uart_alive : takes.

Lemma takes_safe_uart_write (rev : Revision) (message : string) :
  takes 0 0 (fault_budget rev) (safe_uart_write rev message).
Proof. unfold safe_uart_write. destruct rev; takes_auto. Qed.

#[local] Hint Resolve takes_safe_uart_write : takes.

Lemma takes_process_encoder (rev : Revision) :
  takes 0 0 (fault_budget rev) (process_encoder rev).
Proof.
  unfold process_encoder, pin_value, ticks_us, upd_stats, upd_encoder.
  destruct rev; takes_auto.
Qed.

Lemma takes_process_override (rev : Revision) :
  takes 0 5000 (5000 + fault_budget rev) (process_override rev).
Proof.
  unfold process_override, pin_value, ticks_ms, upd_stats, upd_button.
  destruct rev; takes_auto.
Qed.

Lemma takes_process_pump_stop (rev : Revision) :
  takes 0 5000 (5000 + fault_budget rev) (process_pump_stop rev).
Proof.
  unfold process_pump_stop, pin_value, ticks_ms, upd_stats, upd_button.
  destruct rev; takes_auto.
Qed.

Lemma takes_periodic_cleanup : takes 0 0 0 periodic_cleanup.
Proof. unfold periodic_cleanup, gc_collect. takes_auto. Qed.

#[local] Hint Resolve takes_periodic_cleanup : takes.

Lemma takes_system_reset : takes 10000 10000 10000 system_reset.
Proof.
  unfold system_reset, pin_value, ticks_us, upd_encoder. takes_auto.
Qed.

#[local] Hint Resolve takes_process_encoder takes_process_override
  takes_process_pump_stop takes_system_reset : takes.

Lemma takes_maintenance (rev : Revision) (now : Z) (lv : LoopVars) :
  takes 0 0 (fault_budget rev) (maintenance rev now lv).
Proof. unfold maintenance. destruct rev; takes_auto. Qed.

Lemma takes_heartbeat (rev : Revision) (now : Z) (lv : LoopVars) :
  takes 0 0 (fault_budget rev) (heartbeat rev now lv).
Proof. unfold heartbeat. destruct rev; takes_auto. Qed.

#[local] Hint Resolve takes_maintenance takes_heartbeat : takes.

(** A reset that raises has not slept. *)
Lemma system_reset_raised_no_time (m : Machine) :
  result system_reset m = Raised ->
  clock_us (env (after system_reset m)) = clock_us (env m).
Proof.
  unfold result, after. rewrite system_reset_eq.
  destruct (takes_drain (reset_prologue m)) as (Hc & _).
  pose proof (run_eq drain (reset_prologue m)) as Hd.
  set (m1 := after drain (reset_prologue m)) in *. clearbody m1.
  rewrite Hd. destruct (result drain (reset_prologue m)) as [[]|];
    cbn [fst snd]; [discriminate|].
  intros _. unfold reset_prologue in Hc. cbn in Hc. lia.
Qed.


Lemma takes_command_body : takes 0 10000 10000 command_body.
Proof.
  unfold command_body.
  apply (takes_weaken (0 + 0) (0 + 10000) (0 + 10000)); [|lia..].
  eapply takes_bind; [apply takes_serial_read1|intros ob|lia|lia].
  destruct ob as [b|]; [destruct (decode_utf8 b) as [cmd|]|];
    [|eapply takes_weaken; [apply takes_raise|lia..]..].
  eapply takes_weaken; [eapply takes_if; [apply takes_system_reset|apply takes_ret]|lia..].
Qed.

Lemma command_body_raised_no_time (m : Machine) :
  result command_body m = Raised ->
  clock_us (env (after command_body m)) <= clock_us (env m) + 0.
Proof.
  intros Hr. unfold command_body in *.
  destruct (takes_serial_read1 m) as (Hc & _).
  pose proof (run_eq serial_read1 m) as Hread.
  set (m1 := after serial_read1 m) in *. clearbody m1.
  destruct (result serial_read1 m) as [ob|].
  - match type of Hr with result (bind _ ?k) _ = _ =>
      destruct (same_run _ _ _ _ (bind_ok serial_read1 k m m1 ob Hread))
        as (Hres & Haft)
    end.
    rewrite Haft. rewrite Hres in Hr. clear Hres Haft Hread.
    destruct ob as [b|]; [destruct (decode_utf8 b) as [cmd|]|];
      [|unfold after, raise; cbn [snd]; lia..].
    destruct (Ascii.eqb cmd "r"%char).
    + rewrite (system_reset_raised_no_time m1 Hr). lia.
    + discriminate Hr.
  - match type of Hr with result (bind _ ?k) _ = _ =>
      destruct (same_run _ _ _ _ (bind_raised serial_read1 k m m1 Hread))
        as (_ & Haft)
    end.
    rewrite Haft. unfold after. cbn [snd]. lia.
Qed.

Lemma takes_poll_command (rev : Revision) :
  takes 0 10000 (Z.max 10000 (fault_budget rev)) (poll_command rev).
Proof.
  unfold poll_command. fold command_body.
  assert (Hh : takes 0 0 (fault_budget rev)
                 (match rev with
                  | V1_5 => ensure_uart_alive ;;; ret tt
                  | V1_3 => ret tt
                  end)) by (destruct rev; takes_auto).
  pose proof (takes_try_after _ _ _ _ _ _ 0 _ _ takes_command_body
                command_body_raised_no_time Hh) as Ht.
  destruct rev; eapply takes_weaken.
  all: try (eapply takes_bind;
              [apply takes_serial_any
              |intros n; eapply takes_if; [apply takes_ret|exact Ht]|..]).
  all: unfold fault_budget; lia.
Qed.

#[local] Hint Resolve takes_poll_command : takes.

Lemma takes_loop_body (rev : Revision) (lv : LoopVars) :
  takes 5000 25000 (pass_budget rev) (loop_body rev lv).
Proof. unfold loop_body, ticks_ms. destruct rev; takes_auto. Qed.

Lemma takes_iterate (rev : Revision) (n : nat) :
  forall lv,
    takes (5000 * Z.of_nat n) (25000 * Z.of_nat n)
          (pass_budget rev * Z.of_nat n) (iterate n rev lv).
Proof.
  induction n as [|k IH]; intros lv.
  - cbn [iterate]. eapply takes_weaken; [apply takes_ret|lia..].
  - cbn [iterate]. eapply takes_weaken.
    + eapply takes_bind; [apply takes_loop_body|intros lv'; apply IH|..];
        destruct rev; unfold pass_budget; lia.
    + lia.
    + lia.
    + lia.
Qed.

(** How long a pass of the loop takes.  Whatever the transport does, a
    pass never moves the clock back and takes at most 25 ms in V1.3 and at
    most 315 ms in V1.5 (its health check sleeps 50 ms each time it has to
    recover); a pass that returns has taken at least the 5 ms of its final
    sleep; and on a transport without faults a pass takes at most 25 ms in
    both revisions (two 5 ms confirmations, the 10 ms of a reset command,
    the final 5 ms).  The bounds add up over any number of passes. *)
Theorem pass_duration (rev : Revision) (n : nat) (lv : LoopVars) (m : Machine) :
  (clock_us (env m) <= clock_us (env (after (loop_body rev lv) m))
   <= clock_us (env m) + pass_budget rev) /\
  (forall lv', result (loop_body rev lv) m = Ok lv' ->
               clock_us (env m) + 5000
               <= clock_us (env (after (loop_body rev lv) m))) /\
  (healthy m ->
   clock_us (env (after (loop_body rev lv) m)) <= clock_us (env m) + 25000) /\
  (clock_us (env m) <= clock_us (env (after (iterate n rev lv) m))
   <= clock_us (env m) + pass_budget rev * Z.of_nat n) /\
  (forall lv', result (iterate n rev lv) m = Ok lv' ->
               clock_us (env m) + 5000 * Z.of_nat n
               <= clock_us (env (after (iterate n rev lv) m))) /\
  (healthy m ->
   clock_us (env (after (iterate n rev lv) m))
   <= clock_us (env m) + 25000 * Z.of_nat n).
Proof.
  destruct (takes_loop_body rev lv m) as (H1 & H2 & H3).
  destruct (takes_iterate rev n lv m) as (K1 & K2 & K3).
  split; [exact H1|]. split; [exact H2|].
  split; [intros Hm; apply (H3 Hm)|].
  split; [exact K1|]. split; [exact K2|].
  intros Hm; apply (K3 Hm).
Qed.

(** ** The two revisions on a transport without faults *)

Lemma safe_uart_write_any_revision (rev : Revision) (message : string) (m : Machine) :
  healthy m ->
  safe_uart_write rev message m = safe_uart_write V1_3 message m.
Proof.
  intros Hh.
  destruct (drain_healthy (set_emitted (emitted m ++ [message]) m) Hh)
    as (e1 & Hd & Hf1 & _).
  assert (Hb : (drain ;;; serial_write message ;;; ret true)
                 (set_emitted (emitted m ++ [message]) m)
               = (Ok true, set_env (log (IoWrite message true) e1)
                             (set_emitted (emitted m ++ [message]) m))).
  { unfold bind. rewrite Hd. unfold serial_write.
    rewrite driver_call_healthy by exact Hf1. reflexivity. }
  rewrite !safe_uart_write_eq, Hb. reflexivity.
Qed.

Lemma after_any_revision (rev : Revision) (message : string) (m : Machine) :
  healthy m ->
  after (safe_uart_write rev message) m = after (safe_uart_write V1_3 message) m.
Proof. intros Hh. unfold after. now rewrite safe_uart_write_any_revision. Qed.

Lemma process_encoder_any_revision (rev : Revision) (m : Machine) :
  healthy m -> process_encoder rev m = process_encoder V1_3 m.
Proof.
  intros Hh.
  destruct (encoder_pending m) eqn:Hp;
    [|now rewrite !process_encoder_idle by exact Hp].
  destruct (Z.lt_ge_cases (ticks_diff (now_us m) (last_time (encoder_state m)))
                          (debounce_us (encoder_state m))) as [Hw|Hw];
    [now rewrite !process_encoder_bounce by assumption|].
  destruct (pin_now_01 PinA m) as [Ha|Ha];
    [now rewrite !process_encoder_low by assumption|].
  rewrite !process_encoder_emit by assumption. cbv zeta.
  rewrite (after_any_revision rev) by exact Hh. reflexivity.
Qed.

Lemma process_override_any_revision (rev : Revision) (m : Machine) :
  healthy m -> process_override rev m = process_override V1_3 m.
Proof.
  intros Hh.
  destruct (override_pending m) eqn:Hp;
    [|now rewrite !process_override_idle by exact Hp].
  destruct (Z.lt_ge_cases
              (ticks_diff (now_ms m) (override_last_time (button_state m)))
              (debounce_ms (button_state m))) as [Hw|Hw];
    [now rewrite !process_override_bounce by assumption|].
  destruct (pin_now_01 PinOverride (after (sleep_ms 5) m)) as [Ha|Ha];
    [|now rewrite !process_override_glitch by assumption].
  rewrite !process_override_confirm by assumption. cbv zeta.
  rewrite (after_any_revision rev) by exact Hh. reflexivity.
Qed.

Lemma process_pump_stop_any_revision (rev : Revision) (m : Machine) :
  healthy m -> process_pump_stop rev m = process_pump_stop V1_3 m.
Proof.
  intros Hh.
  destruct (pump_pending m) eqn:Hp;
    [|now rewrite !process_pump_stop_idle by exact Hp].
  destruct (Z.lt_ge_cases
              (ticks_diff (now_ms m) (pump_last_time (button_state m)))
              (debounce_ms (button_state m))) as [Hw|Hw];
    [now rewrite !process_pump_stop_bounce by assumption|].
  destruct (pin_now_01 PinPumpStop (after (sleep_ms 5) m)) as [Ha|Ha];
    [|now rewrite !process_pump_stop_glitch by assumption].
  rewrite !process_pump_stop_confirm by assumption. cbv zeta.
  rewrite (after_any_revision rev) by exact Hh. reflexivity.
Qed.

(** The two revisions differ only in how they handle failure.  On a
    transport without faults a send, and each of the three processing
    routines, does exactly the same in V1.3 and in V1.5: same result, same
    program state, same traffic. *)
Theorem revisions_agree_without_faults (message : string) (m : Machine) :
  healthy m ->
  safe_uart_write V1_5 message m = safe_uart_write V1_3 message m /\
  process_encoder V1_5 m = process_encoder V1_3 m /\
  process_override V1_5 m = process_override V1_3 m /\
  process_pump_stop V1_5 m = process_pump_stop V1_3 m.
Proof.
  intros Hh.
  split; [exact (safe_uart_write_any_revision V1_5 message m Hh)|].
  split; [exact (process_encoder_any_revision V1_5 m Hh)|].
  split; [exact (process_override_any_revision V1_5 m Hh)|].
  exact (process_pump_stop_any_revision V1_5 m Hh).
Qed.

Lemma revisions_agree_without_faults_witness :
  healthy pressed /\
  process_override V1_5 pressed = process_override V1_3 pressed /\
  emitted (after (process_override V1_5) pressed) = [("OV" ++ NL)%string].
Proof.
  split; [reflexivity|].
  destruct (revisions_agree_without_faults "OK" pressed eq_refl)
    as (_ & _ & Ho & _).
  split; [exact Ho|]. vm_compute. reflexivity.
Defined.

(** ** A send that fails *)

Lemma wire_no_write (rest : list IO) :
  forallb (fun io => negb (is_write io)) rest = true -> wire rest = [].
Proof.
  induction rest as [|io rest IH]; [reflexivity|].
  simpl. intros H. apply andb_prop in H. destruct H as [Hio Hrest].
  destruct io as [| |p ok| | | |]; try discriminate Hio; now apply IH.
Qed.

Lemma wire_failed_call (message : string) (bad : IO) :
  failed_call message bad -> wire [bad] = [].
Proof. intros [->|[->| ->]]; reflexivity. Qed.

Lemma append_empty (s : string) : (s ++ EmptyString)%string = s.
Proof. induction s as [|c s IH]; cbn; [reflexivity|now rewrite IH]. Qed.

(** A send is all or nothing: the bytes of the message reach the wire
    when it returns true, and no byte does when it returns false. *)
Lemma send_all_or_nothing (rev : Revision) (message : string) (m : Machine) :
  wire_bytes (trace (env (after (safe_uart_write rev message) m)))
  = (wire_bytes (trace (env m))
     ++ match result (safe_uart_write rev message) m with
        | Ok true => message
        | _ => EmptyString
        end)%string.
Proof.
  destruct (safe_uart_write_spec rev message m)
    as (pre & e' & Ha & Hpre & [(Hr & Hrx & Ht)|(Hr & bad & m1 & Hbad & Ht1 & Hrev)]);
    rewrite Ha, Hr; cbn [env set_env set_emitted].
  - rewrite Ht, app_assoc, wire_bytes_snoc. f_equal.
    apply wire_bytes_of_wire. rewrite wire_app, (wire_discard pre Hpre).
    apply app_nil_r.
  - rewrite append_empty. destruct rev.
    + destruct Hrev as (_ & Ht). rewrite Ht. apply wire_bytes_of_wire.
      rewrite !wire_app, (wire_discard pre Hpre), (wire_failed_call _ _ Hbad).
      now rewrite !app_nil_r.
    + destruct Hrev as (_ & ok & rest & Ht & Hrest). rewrite Ht.
      rewrite <- (wire_bytes_snoc_probe (trace (env m)) ok).
      apply wire_bytes_of_wire.
      change ([bad; IoPrint "UART write failed:"; IoWrite EmptyString ok] ++ rest)
        with ([bad] ++ [IoPrint "UART write failed:"]
              ++ [IoWrite EmptyString ok] ++ rest).
      rewrite !wire_app, (wire_discard pre Hpre), (wire_failed_call _ _ Hbad),
        (wire_no_write rest Hrest).
      cbn [wire app]. now rewrite !app_nil_r.
Qed.

Lemma drain_first_fault (m : Machine) :
  hd false (faults (env m)) = true ->
  exists m1, drain m = (Raised, m1).
Proof.
  intros H. unfold drain. rewrite drain_rx_S. unfold serial_any, driver_call.
  destruct (faults (env m)) as [|[|] fs]; try discriminate H.
  eexists. reflexivity.
Qed.

Lemma send_first_fault (rev : Revision) (message : string) (m : Machine) :
  hd false (faults (env m)) = true ->
  result (safe_uart_write rev message) m = Ok false.
Proof.
  intros H.
  destruct (drain_first_fault (set_emitted (emitted m ++ [message]) m) H)
    as (m1 & Hd).
  unfold result. rewrite safe_uart_write_eq.
  rewrite (bind_raised _ _ _ _ Hd).
  destruct rev; [reflexivity|].
  rewrite (bind_ok (print "UART write failed:") _ m1
             (after (print "UART write failed:") m1) tt eq_refl).
  destruct (never_raises_ensure_uart_alive (after (print "UART write failed:") m1))
    as (b & Hb).
  pose proof (run_eq ensure_uart_alive (after (print "UART write failed:") m1)) as He.
  unfold result in He. rewrite Hb in He.
  rewrite (bind_ok _ _ _ _ _ He). reflexivity.
Qed.

Lemma send_lost (rev : Revision) (message : string) (m : Machine) :
  hd false (faults (env m)) = true ->
  wire_bytes (trace (env (after (safe_uart_write rev message) m)))
  = wire_bytes (trace (env m)).
Proof.
  intros H. rewrite send_all_or_nothing, (send_first_fault rev message m H).
  apply append_empty.
Qed.

(** The routines ignore what [safe_uart_write] returns.  When the first
    driver call of a send raises, the message is lost (no byte of it reaches
    the wire, and nothing sends it again: the pending flag is already
    clear), yet the routine returns normally, counts the event in its
    statistic, and the encoder moves its debounce timestamp as for a
    delivered step. *)
Theorem failed_send_is_counted (rev : Revision) (m : Machine) :
  hd false (faults (env m)) = true ->
  (encoder_pending m = true ->
   debounce_us (encoder_state m)
   <= ticks_diff (now_us m) (last_time (encoder_state m)) ->
   pin_now PinA m = 1 ->
   result (process_encoder rev) m = Ok tt /\
   wire_bytes (trace (env (after (process_encoder rev) m)))
   = wire_bytes (trace (env m)) /\
   steps (stats (after (process_encoder rev) m)) = steps (stats m) + 1 /\
   last_time (encoder_state (after (process_encoder rev) m)) = now_us m /\
   encoder_pending (after (process_encoder rev) m) = false) /\
  (override_pending m = true ->
   debounce_ms (button_state m)
   <= ticks_diff (now_ms m) (override_last_time (button_state m)) ->
   pin_now PinOverride (after (sleep_ms 5) m) = 0 ->
   result (process_override rev) m = Ok tt /\
   wire_bytes (trace (env (after (process_override rev) m)))
   = wire_bytes (trace (env m)) /\
   overrides (stats (after (process_override rev) m)) = overrides (stats m) + 1 /\
   override_pending (after (process_override rev) m) = false) /\
  (pump_pending m = true ->
   debounce_ms (button_state m)
   <= ticks_diff (now_ms m) (pump_last_time (button_state m)) ->
   pin_now PinPumpStop (after (sleep_ms 5) m) = 0 ->
   result (process_pump_stop rev) m = Ok tt /\
   wire_bytes (trace (env (after (process_pump_stop rev) m)))
   = wire_bytes (trace (env m)) /\
   pump_stops (stats (after (process_pump_stop rev) m)) = pump_stops (stats m) + 1 /\
   pump_pending (after (process_pump_stop rev) m) = false).
Proof.
  intros Hf. split; [|split]; intros Hp Hw Hv.
  - pose proof (process_encoder_emit rev m Hp Hw Hv) as Hrun. cbv zeta in Hrun.
    settle Hrun. cbn [stats encoder_state encoder_pending env set_steps steps
                      set_last_a set_last_time last_time].
    split; [reflexivity|]. split; [|now repeat split].
    rewrite send_lost by exact Hf.
    unfold after, print, modify. cbn. apply wire_bytes_of_wire.
    rewrite wire_app. cbn. apply app_nil_r.
  - pose proof (process_override_confirm rev m Hp Hw Hv) as Hrun. cbv zeta in Hrun.
    settle Hrun. cbn [stats override_pending env set_overrides overrides].
    split; [reflexivity|]. split; [|now repeat split].
    transitivity (wire_bytes (trace (env (after (safe_uart_write rev ("OV" ++ NL)%string)
      (after (sleep_ms 5)
         (set_button_state
            (set_override_last_time (now_ms m) (button_state m))
            (set_override_pending false m))))))).
    { apply wire_bytes_of_wire. cbn [log trace]. rewrite wire_app. cbn.
      apply app_nil_r. }
    rewrite send_lost by exact Hf.
    unfold after, sleep_ms, modify. cbn. apply wire_bytes_of_wire.
    rewrite wire_app. cbn. apply app_nil_r.
  - pose proof (process_pump_stop_confirm rev m Hp Hw Hv) as Hrun. cbv zeta in Hrun.
    settle Hrun. cbn [stats pump_pending env set_pump_stops pump_stops].
    split; [reflexivity|]. split; [|now repeat split].
    transitivity (wire_bytes (trace (env (after (safe_uart_write rev ("PS" ++ NL)%string)
      (after (sleep_ms 5)
         (set_button_state
            (set_pump_last_time (now_ms m) (button_state m))
            (set_pump_pending false m))))))).
    { apply wire_bytes_of_wire. cbn [log trace]. rewrite wire_app. cbn.
      apply app_nil_r. }
    rewrite send_lost by exact Hf.
    unfold after, sleep_ms, modify. cbn. apply wire_bytes_of_wire.
    rewrite wire_app. cbn. apply app_nil_r.
Qed.


Lemma failed_send_is_counted_witness :
  hd false (faults (env jammed)) = true /\
  override_pending jammed = true /\
  debounce_ms (button_state jammed)
  <= ticks_diff (now_ms jammed) (override_last_time (button_state jammed)) /\
  pin_now PinOverride (after (sleep_ms 5) jammed) = 0 /\
  wire_bytes (trace (env (after (process_override V1_5) jammed)))
  = wire_bytes (trace (env jammed)) /\
  overrides (stats (after (process_override V1_5) jammed))
  = overrides (stats jammed) + 1.
Proof.
  assert (Hw : debounce_ms (button_state jammed)
               <= ticks_diff (now_ms jammed)
                    (override_last_time (button_state jammed)))
    by (vm_compute; discriminate).
  split; [reflexivity|]. split; [reflexivity|]. split; [exact Hw|].
  split; [reflexivity|].
  destruct (failed_send_is_counted V1_5 jammed eq_refl) as (_ & Hov & _).
  destruct (Hov eq_refl Hw eq_refl) as (_ & Hwire & Hcount & _).
  split; [exact Hwire|exact Hcount].
Defined.

(** ** The heartbeat period *)

Lemma iterate_app (rev : Revision) (a b : nat) :
  forall lv m lv1 m1,
    iterate a rev lv m = (Ok lv1, m1) ->
    iterate (a + b) rev lv m = iterate b rev lv1 m1.
Proof.
  induction a as [|a IH]; intros lv m lv1 m1 Ha.
  - cbn in Ha. injection Ha as -> ->. reflexivity.
  - cbn [iterate Nat.add] in *. unfold bind in *.
    destruct (loop_body rev lv m) as [[lv0|] m0]; [|discriminate Ha].
    now apply IH.
Qed.

Lemma heartbeat_not_due (lv : LoopVars) (m : Machine) (T j : Z) :
  last_status lv = T mod TICKS_PERIOD ->
  clock_us (env m) / 1000 = T + j ->
  0 <= j <= 10000 ->
  heartbeat_due V1_5 (now_ms m) lv = false.
Proof.
  intros Hl Hc Hj. unfold heartbeat_due, now_ms. rewrite Hl, Hc.
  rewrite ticks_diff_elapsed.
  - rewrite Z.gtb_ltb. apply Z.ltb_ge. lia.
  - assert (TICKS_HALF = 536870912) by reflexivity. lia.
Qed.

Lemma heartbeat_is_due (lv : LoopVars) (m : Machine) (T j : Z) :
  last_status lv = T mod TICKS_PERIOD ->
  clock_us (env m) / 1000 = T + j ->
  10000 < j < TICKS_HALF ->
  heartbeat_due V1_5 (now_ms m) lv = true.
Proof.
  intros Hl Hc Hj. unfold heartbeat_due, now_ms. rewrite Hl, Hc.
  rewrite ticks_diff_elapsed.
  - apply Z.gtb_lt. lia.
  - lia.
Qed.

(** Passes with nothing to do during which no heartbeat falls due. *)
Lemma quiet_passes (rev : Revision) (n : nat) :
  forall (lv : LoopVars) (m : Machine) (T j : Z),
    healthy m ->
    pending_flags m = (false, false, false) ->
    rx_buf (env m) = [] ->
    0 <= j ->
    clock_us (env m) / 1000 = T + 5 * j ->
    (rev = V1_5 ->
     last_status lv = T mod TICKS_PERIOD /\ j + Z.of_nat n <= 2001) ->
    exists lv' m',
      iterate n rev lv m = (Ok lv', m') /\
      healthy m' /\
      pending_flags m' = (false, false, false) /\
      rx_buf (env m') = [] /\
      emitted m' = emitted m /\
      clock_us (env m') / 1000 = T + 5 * (j + Z.of_nat n) /\
      last_status lv' = last_status lv.
Proof.
  induction n as [|n IH]; intros lv m T j Hh Hp Hrx Hj Hc Hrev.
  - exists lv, m. cbn [iterate]. split; [reflexivity|].
    repeat split; try assumption. rewrite Hc. f_equal. lia.
  - destruct (loop_body_quiet rev lv m Hh Hp Hrx)
      as (e' & Hrun & Hf & Hrx' & Hc' & _).
    assert (Hdue : heartbeat_due rev (now_ms m) lv = false).
    { destruct rev; [reflexivity|].
      destruct (Hrev eq_refl) as (Hl & Hn).
      apply (heartbeat_not_due lv m T (5 * j)); [exact Hl|exact Hc|lia]. }
    rewrite Hdue in Hrun. rewrite app_nil_r in Hrun.
    set (lv1 := mkLoopVars
                  (if ticks_diff (now_ms m) (last_cleanup lv) >? 5000
                   then now_ms m else last_cleanup lv) (last_status lv)) in *.
    set (m1 := set_emitted (emitted m) (set_env e' m)) in *.
    destruct (IH lv1 m1 T (j + 1)) as (lv' & m' & Hit & H1 & H2 & H3 & H4 & H5 & H6).
    + exact Hf.
    + exact Hp.
    + exact Hrx'.
    + lia.
    + subst m1. cbn [env set_env set_emitted]. rewrite Hc'.
      replace (clock_us (env m) + 5000) with (clock_us (env m) + 5 * 1000) by lia.
      rewrite Z.div_add by lia. rewrite Hc. lia.
    + intros ->. destruct (Hrev eq_refl) as (Hl & Hn). split; [exact Hl|lia].
    + exists lv', m'. cbn [iterate]. rewrite (bind_ok _ _ _ _ _ Hrun).
      split; [exact Hit|]. split; [exact H1|]. split; [exact H2|].
      split; [exact H3|]. split; [exact H4|].
      split; [rewrite H5; f_equal; lia|exact H6].
Qed.

(** The heartbeat period on an idle board.  V1.5, on a transport without
    faults, with nothing pending and nothing to read, starting when
    [last_status] was just taken: the first 2001 passes send nothing, and
    pass 2002 (which starts 10005 ms later, the first start more than
    10000 ms after [last_status]) sends the line [OK] once.  V1.3 never
    sends anything on an idle board. *)
Theorem heartbeat_period (lv : LoopVars) (m : Machine) :
  healthy m ->
  pending_flags m = (false, false, false) ->
  rx_buf (env m) = [] ->
  last_status lv = now_ms m ->
  (forall n, (n <= 2001)%nat ->
             emitted (after (iterate n V1_5 lv) m) = emitted m) /\
  emitted (after (iterate 2002 V1_5 lv) m) = emitted m ++ [("OK" ++ NL)%string] /\
  clock_us (env (after (iterate 2001 V1_5 lv) m)) / 1000
  = clock_us (env m) / 1000 + 10005 /\
  (forall n lv0, emitted (after (iterate n V1_3 lv0) m) = emitted m).
Proof.
  intros Hh Hp Hrx Hl.
  assert (Hc : clock_us (env m) / 1000 = clock_us (env m) / 1000 + 5 * 0) by lia.
  assert (H5 : forall n, (n <= 2001)%nat ->
            exists lv' m',
              iterate n V1_5 lv m = (Ok lv', m') /\
              healthy m' /\ pending_flags m' = (false, false, false) /\
              rx_buf (env m') = [] /\ emitted m' = emitted m /\
              clock_us (env m') / 1000
              = clock_us (env m) / 1000 + 5 * (0 + Z.of_nat n) /\
              last_status lv' = last_status lv).
  { intros n Hn.
    apply (quiet_passes V1_5 n lv m (clock_us (env m) / 1000) 0 Hh Hp Hrx);
      [lia|exact Hc|]. intros _. split; [exact Hl|lia]. }
  split.
  { intros n Hn. destruct (H5 n Hn) as (lv' & m' & Hit & _ & _ & _ & He & _).
    unfold after. now rewrite Hit. }
  destruct (H5 2001%nat (le_n _)) as (lv' & m' & Hit & H1 & H2 & H3 & H4 & H6 & H7).
  split.
  { change 2002%nat with (2001 + 1)%nat. unfold after.
    rewrite (iterate_app V1_5 2001 1 lv m lv' m' Hit). cbn [iterate].
    destruct (loop_body_quiet V1_5 lv' m' H1 H2 H3) as (e' & Hrun & _).
    rewrite (bind_ok _ _ _ _ _ Hrun). unfold ret. cbn [snd set_emitted emitted].
    rewrite H4.
    rewrite (heartbeat_is_due lv' m' (clock_us (env m) / 1000) 10005);
      [reflexivity| | |].
    - now rewrite H7.
    - rewrite H6. replace (Z.of_nat 2001) with 2001 by (vm_compute; reflexivity). lia.
    - assert (TICKS_HALF = 536870912) by reflexivity. lia. }
  split.
  { unfold after. rewrite Hit. cbn [snd]. rewrite H6.
    replace (Z.of_nat 2001) with 2001 by (vm_compute; reflexivity). lia. }
  intros n lv0.
  destruct (quiet_passes V1_3 n lv0 m (clock_us (env m) / 1000) 0 Hh Hp Hrx)
    as (lv3 & m3 & Hit3 & _ & _ & _ & He & _); [lia|exact Hc|discriminate|].
  unfold after. now rewrite Hit3.
Qed.

Lemma heartbeat_period_witness :
  healthy (boot quiet_env) /\
  pending_flags (boot quiet_env) = (false, false, false) /\
  rx_buf (env (boot quiet_env)) = [] /\
  last_status (boot_vars quiet_env) = now_ms (boot quiet_env) /\
  emitted (after (iterate 2001 V1_5 (boot_vars quiet_env)) (boot quiet_env)) = [] /\
  emitted (after (iterate 2002 V1_5 (boot_vars quiet_env)) (boot quiet_env))
  = [("OK" ++ NL)%string].
Proof.
  split; [reflexivity|]. split; [reflexivity|]. split; [reflexivity|].
  split; [reflexivity|].
  destruct (heartbeat_period (boot_vars quiet_env) (boot quiet_env)
              eq_refl eq_refl eq_refl eq_refl) as (Hq & Hb & _).
  split; [exact (Hq 2001%nat (le_n _))|exact Hb].
Defined.

(** ** Commands waiting during a busy pass *)

Lemma loop_body_split (rev : Revision) (lv : LoopVars) (m : Machine) :
  loop_body rev lv m
  = (lv' <- before_poll rev lv ;;
     poll_command rev ;;;
     sleep_ms 5 ;;;
     ret lv') m.
Proof.
  unfold loop_body, before_poll, bind, ticks_ms, get, ret.
  destruct (process_encoder rev m) as [[[]|] m1]; [|reflexivity].
  destruct (process_override rev m1) as [[[]|] m2]; [|reflexivity].
  destruct (process_pump_stop rev m2) as [[[]|] m3]; [|reflexivity].
  destruct (maintenance rev (now_ms m) lv m3) as [[lc|] m4]; [|reflexivity].
  destruct (heartbeat rev (now_ms m) lv m4) as [[ls|] m5]; reflexivity.
Qed.

Lemma drained_or_quiet_refl (m : Machine) : healthy m -> drained_or_quiet m m.
Proof. intros H. split; [exact H|]. right. now split. Qed.

Lemma drained_or_quiet_trans (a b c : Machine) :
  drained_or_quiet a b -> drained_or_quiet b c -> drained_or_quiet a c.
Proof.
  intros (_ & Hab) (Hc & Hbc). split; [exact Hc|].
  destruct Hbc as [Hbc|(He & Hr)]; [now left|].
  destruct Hab as [Hab|(He' & Hr')].
  - left. now rewrite Hr.
  - right. split; [now rewrite He|now rewrite Hr].
Qed.

Lemma send_drains (rev : Revision) (message : string) (m : Machine) :
  healthy m ->
  healthy (after (safe_uart_write rev message) m) /\
  rx_buf (env (after (safe_uart_write rev message) m)) = [].
Proof.
  intros Hh.
  destruct (safe_uart_write_healthy_full rev message m Hh)
    as (e' & Hrun & Hf & Hrx & _).
  settle Hrun. split; [exact Hf|exact Hrx].
Qed.

Lemma process_encoder_drains (rev : Revision) (m : Machine) :
  healthy m ->
  exists m', process_encoder rev m = (Ok tt, m') /\ drained_or_quiet m m'.
Proof.
  intros Hh.
  destruct (encoder_pending m) eqn:Hp;
    [|rewrite process_encoder_idle by exact Hp; eexists; split;
      [reflexivity|now apply drained_or_quiet_refl]].
  destruct (Z.lt_ge_cases (ticks_diff (now_us m) (last_time (encoder_state m)))
                          (debounce_us (encoder_state m))) as [Hw|Hw];
    [rewrite process_encoder_bounce by assumption; eexists; split;
     [reflexivity|split; [exact Hh|right; now split]]|].
  destruct (pin_now_01 PinA m) as [Ha|Ha];
    [rewrite process_encoder_low by assumption; eexists; split;
     [reflexivity|split; [exact Hh|right; now split]]|].
  rewrite process_encoder_emit by assumption. cbv zeta.
  eexists. split; [reflexivity|].
  match goal with |- context [after (safe_uart_write rev ?t) ?mm] =>
    destruct (send_drains rev t mm Hh) as (Hf & Hrx) end.
  split; [exact Hf|left; exact Hrx].
Qed.

Lemma process_override_drains (rev : Revision) (m : Machine) :
  healthy m ->
  exists m', process_override rev m = (Ok tt, m') /\ drained_or_quiet m m'.
Proof.
  intros Hh.
  destruct (override_pending m) eqn:Hp;
    [|rewrite process_override_idle by exact Hp; eexists; split;
      [reflexivity|now apply drained_or_quiet_refl]].
  destruct (Z.lt_ge_cases
              (ticks_diff (now_ms m) (override_last_time (button_state m)))
              (debounce_ms (button_state m))) as [Hw|Hw];
    [rewrite process_override_bounce by assumption; eexists; split;
     [reflexivity|split; [exact Hh|right; now split]]|].
  destruct (pin_now_01 PinOverride (after (sleep_ms 5) m)) as [Ha|Ha];
    [|rewrite process_override_glitch by assumption; eexists; split;
      [reflexivity|split; [exact Hh|right; now split]]].
  rewrite process_override_confirm by assumption. cbv zeta.
  eexists. split; [reflexivity|].
  match goal with |- context [after (safe_uart_write rev ?t) ?mm] =>
    destruct (send_drains rev t mm Hh) as (Hf & Hrx) end.
  split; [exact Hf|left; exact Hrx].
Qed.

Lemma process_pump_stop_drains (rev : Revision) (m : Machine) :
  healthy m ->
  exists m', process_pump_stop rev m = (Ok tt, m') /\ drained_or_quiet m m'.
Proof.
  intros Hh.
  destruct (pump_pending m) eqn:Hp;
    [|rewrite process_pump_stop_idle by exact Hp; eexists; split;
      [reflexivity|now apply drained_or_quiet_refl]].
  destruct (Z.lt_ge_cases
              (ticks_diff (now_ms m) (pump_last_time (button_state m)))
              (debounce_ms (button_state m))) as [Hw|Hw];
    [rewrite process_pump_stop_bounce by assumption; eexists; split;
     [reflexivity|split; [exact Hh|right; now split]]|].
  destruct (pin_now_01 PinPumpStop (after (sleep_ms 5) m)) as [Ha|Ha];
    [|rewrite process_pump_stop_glitch by assumption; eexists; split;
      [reflexivity|split; [exact Hh|right; now split]]].
  rewrite process_pump_stop_confirm by assumption. cbv zeta.
  eexists. split; [reflexivity|].
  match goal with |- context [after (safe_uart_write rev ?t) ?mm] =>
    destruct (send_drains rev t mm Hh) as (Hf & Hrx) end.
  split; [exact Hf|left; exact Hrx].
Qed.

Lemma maintenance_drains (rev : Revision) (now : Z) (lv : LoopVars) (m : Machine) :
  healthy m ->
  exists lc m',
    maintenance rev now lv m = (Ok lc, m') /\
    drained_or_quiet m m' /\
    (5000 < ticks_diff now (last_cleanup lv) -> rx_buf (env m') = []).
Proof.
  intros Hh. unfold maintenance.
  destruct (ticks_diff now (last_cleanup lv) >? 5000) eqn:Hdue.
  - destruct (drain_healthy m Hh) as (e1 & Hd & Hf1 & Hrx1 & _).
    assert (Hpc : periodic_cleanup m = (Ok tt, set_env e1 m))
      by (unfold periodic_cleanup, gc_collect, bind, ret; exact Hd).
    rewrite (bind_ok _ _ _ _ _ Hpc).
    destruct rev.
    + eexists _, _. split; [reflexivity|].
      split; [split; [exact Hf1|left; exact Hrx1]|intros _; exact Hrx1].
    + assert (He : (ensure_uart_alive ;;; ret tt) (set_env e1 m)
                   = (Ok tt, set_env (log (IoWrite EmptyString true) e1) m)).
      { rewrite (bind_ok _ _ _ _ _ (ensure_uart_alive_healthy (set_env e1 m) Hf1)).
        reflexivity. }
      rewrite (bind_ok _ _ _ _ _ He).
      eexists _, _. split; [reflexivity|].
      split; [split; [exact Hf1|left; exact Hrx1]|intros _; exact Hrx1].
  - eexists _, _. split; [reflexivity|].
    split; [now apply drained_or_quiet_refl|].
    intros Hgt. apply Z.ltb_lt in Hgt. rewrite Z.gtb_ltb in Hdue.
    rewrite Hgt in Hdue. discriminate Hdue.
Qed.

Lemma heartbeat_drains (rev : Revision) (now : Z) (lv : LoopVars) (m : Machine) :
  healthy m ->
  exists ls m',
    heartbeat rev now lv m = (Ok ls, m') /\ drained_or_quiet m m'.
Proof.
  intros Hh. unfold heartbeat.
  destruct rev;
    [eexists _, _; split; [reflexivity|now apply drained_or_quiet_refl]|].
  destruct (ticks_diff now (last_status lv) >? 10000);
    [|eexists _, _; split; [reflexivity|now apply drained_or_quiet_refl]].
  destruct (safe_uart_write_healthy_full V1_5 ("OK" ++ NL)%string m Hh)
    as (e' & Hrun & Hf & Hrx & _).
  rewrite (bind_ok _ _ _ _ _ Hrun).
  eexists _, _. split; [reflexivity|].
  split; [exact Hf|left; exact Hrx].
Qed.

Lemma before_poll_drains (rev : Revision) (lv : LoopVars) (m : Machine) :
  healthy m ->
  exists lv' m',
    before_poll rev lv m = (Ok lv', m') /\
    drained_or_quiet m m' /\
    (5000 < ticks_diff (now_ms m) (last_cleanup lv) -> rx_buf (env m') = []).
Proof.
  intros Hh. unfold before_poll.
  rewrite (bind_ok ticks_ms _ m m (now_ms m) eq_refl).
  destruct (process_encoder_drains rev m Hh) as (m1 & H1 & R1).
  rewrite (bind_ok _ _ _ _ _ H1).
  destruct (process_override_drains rev m1 (proj1 R1)) as (m2 & H2 & R2).
  rewrite (bind_ok _ _ _ _ _ H2).
  destruct (process_pump_stop_drains rev m2 (proj1 R2)) as (m3 & H3 & R3).
  rewrite (bind_ok _ _ _ _ _ H3).
  destruct (maintenance_drains rev (now_ms m) lv m3 (proj1 R3))
    as (lc & m4 & H4 & R4 & Hdue).
  rewrite (bind_ok _ _ _ _ _ H4).
  destruct (heartbeat_drains rev (now_ms m) lv m4 (proj1 R4))
    as (ls & m5 & H5 & R5).
  rewrite (bind_ok _ _ _ _ _ H5).
  exists (mkLoopVars lc ls), m5. split; [reflexivity|]. split.
  - exact (drained_or_quiet_trans _ _ _ R1
             (drained_or_quiet_trans _ _ _ R2
                (drained_or_quiet_trans _ _ _ R3
                   (drained_or_quiet_trans _ _ _ R4 R5)))).
  - intros Hgt. specialize (Hdue Hgt).
    destruct R5 as (_ & [H|(_ & H)]); [exact H|now rewrite H].
Qed.

(** A busy pass throws the waiting command away.  On a transport without
    faults, when a pass sends anything (an encoder step, [OV], [PS], the
    heartbeat) or runs its periodic maintenance, the bytes that were waiting
    in the receive buffer have been discarded by the time the command step
    runs: [serial.any()] finds nothing, so no byte is read and a reset
    command [r] that was waiting is never executed. *)
Theorem busy_pass_discards_command (rev : Revision) (lv : LoopVars)
        (m : Machine) :
  healthy m ->
  emitted (after (before_poll rev lv) m) <> emitted m \/
  5000 < ticks_diff (now_ms m) (last_cleanup lv) ->
  rx_buf (env (after (before_poll rev lv) m)) = [] /\
  poll_command rev (after (before_poll rev lv) m)
  = (Ok tt, set_env (log (IoAny true) (env (after (before_poll rev lv) m)))
              (after (before_poll rev lv) m)) /\
  after (loop_body rev lv) m
  = after (sleep_ms 5)
      (set_env (log (IoAny true) (env (after (before_poll rev lv) m)))
         (after (before_poll rev lv) m)).
Proof.
  intros Hh Hbusy.
  destruct (before_poll_drains rev lv m Hh) as (lv' & m5 & Hrun & (Hh5 & R) & Hdue).
  assert (Hsplit : after (loop_body rev lv) m
                   = after (poll_command rev ;;; sleep_ms 5 ;;; ret lv') m5).
  { unfold after. rewrite loop_body_split. now rewrite (bind_ok _ _ _ _ _ Hrun). }
  assert (Ha : after (before_poll rev lv) m = m5)
    by (unfold after; now rewrite Hrun).
  rewrite Hsplit, !Ha. rewrite Ha in Hbusy. clear Hrun Hsplit Ha.
  assert (Hrx : rx_buf (env m5) = []).
  { destruct Hbusy as [Hne|Hgt]; [|exact (Hdue Hgt)].
    destruct R as [H|(He & _)]; [exact H|]. now elim Hne. }
  pose proof (poll_command_empty rev m5 Hh5 Hrx) as Hpoll.
  split; [exact Hrx|]. split; [exact Hpoll|].
  unfold after at 1. rewrite (bind_ok _ _ _ _ _ Hpoll). reflexivity.
Qed.

Lemma busy_pass_discards_command_witness :
  healthy pressed_with_command /\
  rx_buf (env pressed_with_command) = ["r"%char] /\
  emitted (after (before_poll V1_5 (boot_vars pressed_env)) pressed_with_command)
  <> emitted pressed_with_command /\
  rx_buf (env (after (before_poll V1_5 (boot_vars pressed_env))
                     pressed_with_command)) = [].
Proof.
  assert (Hne : emitted (after (before_poll V1_5 (boot_vars pressed_env))
                               pressed_with_command)
                <> emitted pressed_with_command)
    by (vm_compute; discriminate).
  split; [reflexivity|]. split; [reflexivity|]. split; [exact Hne|].
  destruct (busy_pass_discards_command V1_5 (boot_vars pressed_env)
              pressed_with_command eq_refl (or_introl Hne)) as (Hrx & _).
  exact Hrx.
Defined.

(** ** Who sets and who clears the pending flags *)

Lemma never_sets_ret {A} (a : A) : never_sets (ret a).
Proof. intros m. unfold after, ret. cbn. auto. Qed.

Lemma never_sets_raise {A} : never_sets (@raise A).
Proof. intros m. unfold after, raise. cbn. auto. Qed.

Lemma never_sets_get {A} (f : Machine -> A) : never_sets (get f).
Proof. intros m. unfold after, get. cbn. auto. Qed.

Lemma never_sets_modify (f : Machine -> Machine) :
  (forall m,
     (encoder_pending (f m) = true -> encoder_pending m = true) /\
     (override_pending (f m) = true -> override_pending m = true) /\
     (pump_pending (f m) = true -> pump_pending m = true)) ->
  never_sets (modify f).
Proof. intros H m. unfold after, modify. cbn. apply H. Qed.

Lemma never_sets_bind {A B} (c : M A) (k : A -> M B) :
  never_sets c -> (forall a, never_sets (k a)) -> never_sets (bind c k).
Proof.
  intros Hc Hk m. destruct (Hc m) as (H1 & H2 & H3).
  unfold after, bind in *. destruct (c m) as [[a|] m1]; cbn [snd] in *.
  - destruct (Hk a m1) as (K1 & K2 & K3). unfold after in *. auto.
  - auto.
Qed.

Lemma never_sets_try {A} (body handler : M A) :
  never_sets body -> never_sets handler -> never_sets (try_except body handler).
Proof.
  intros Hb Hh m. destruct (Hb m) as (H1 & H2 & H3).
  unfold after, try_except in *. destruct (body m) as [[a|] m1]; cbn [snd] in *.
  - auto.
  - destruct (Hh m1) as (K1 & K2 & K3). unfold after in *. auto.
Qed.

Lemma never_sets_driver_call {A} (ev : bool -> IO) (run : Env -> A * Env) :
  never_sets (driver_call ev run).
Proof.
  intros m. unfold after, driver_call.
  destruct (faults (env m)) as [|[|] fs]; try destruct (run _); cbn; auto.
Qed.

Create HintDb never_sets.

Ltac never_sets_step :=
  cbv beta match zeta;
  lazymatch goal with
  | |- never_sets (bind _ _) => apply never_sets_bind; [|intros ?]
  | |- never_sets (try_except _ _) => apply never_sets_try
  | |- never_sets (if ?b then _ else _) => destruct b
  | |- never_sets (ret _) => apply never_sets_ret
  | |- never_sets raise => apply never_sets_raise
  | |- never_sets (get _) => apply never_sets_get
  | |- never_sets (modify _) =>
      apply never_sets_modify; intros ?; cbn; repeat split;
      (assumption || discriminate || auto)
  | |- never_sets (driver_call _ _) => apply never_sets_driver_call
  | |- never_sets _ => solve [auto 1 with never_sets nocore]
  end.

Lemma never_sets_drain_rx (fuel : nat) : never_sets (drain_rx fuel).
Proof.
  induction fuel as [|k IH]; cbn [drain_rx]; [apply never_sets_ret|].
  unfold serial_any, serial_read1. repeat never_sets_step.
Qed.

Lemma never_sets_drain : never_sets drain.
Proof. intros m. exact (never_sets_drain_rx _ m). Qed.

#[local] Hint Resolve never_sets_drain : never_sets.

Lemma never_sets_ensure_uart_alive : never_sets ensure_uart_alive.
Proof.
  unfold ensure_uart_alive, serial_write, serial_deinit, uart_init, print, sleep_ms.
  repeat never_sets_step.
Qed.

#[local] Hint Resolve never_sets_ensure_uart_alive : never_sets.

Lemma never_sets_safe_uart_write (rev : Revision) (message : string) :
  never_sets (safe_uart_write rev message).
Proof.
  unfold safe_uart_write, serial_write, print. destruct rev; repeat never_sets_step.
Qed.

Lemma never_sets_system_reset : never_sets system_reset.
Proof.
  intros m. destruct (system_reset_effect m) as (Hp & _).
  unfold pending_flags in Hp. injection Hp as -> -> ->.
  repeat split; discriminate.
Qed.

Lemma never_sets_periodic_cleanup : never_sets periodic_cleanup.
Proof. unfold periodic_cleanup, gc_collect. repeat never_sets_step. Qed.

#[local] Hint Resolve never_sets_safe_uart_write never_sets_system_reset
  never_sets_periodic_cleanup : never_sets.

Lemma never_sets_process_encoder (rev : Revision) : never_sets (process_encoder rev).
Proof.
  intros m. unfold after.
  destruct (process_encoder_shape rev m) as (msgs & e' & la & lt & _ & ->).
  cbn. repeat split; (assumption || discriminate || auto).
Qed.

Lemma never_sets_process_override (rev : Revision) : never_sets (process_override rev).
Proof.
  intros m. unfold after.
  destruct (process_override_shape rev m) as (msgs & e' & t & _ & ->).
  cbn. repeat split; (assumption || discriminate || auto).
Qed.

Lemma never_sets_process_pump_stop (rev : Revision) : never_sets (process_pump_stop rev).
Proof.
  intros m. unfold after.
  destruct (process_pump_stop_shape rev m) as (msgs & e' & t & _ & ->).
  cbn. repeat split; (assumption || discriminate || auto).
Qed.

Lemma never_sets_poll_command (rev : Revision) : never_sets (poll_command rev).
Proof.
  unfold poll_command, serial_any, serial_read1.
  apply never_sets_bind; [apply never_sets_driver_call|intros n].
  destruct (n =? 0); [apply never_sets_ret|].
  apply never_sets_try.
  - apply never_sets_bind; [apply never_sets_driver_call|intros ob].
    destruct ob as [b|]; [destruct (decode_utf8 b) as [cmd|]|];
      repeat never_sets_step.
  - destruct rev; repeat never_sets_step.
Qed.

Lemma never_sets_maintenance (rev : Revision) (now : Z) (lv : LoopVars) :
  never_sets (maintenance rev now lv).
Proof. unfold maintenance. destruct rev; repeat never_sets_step. Qed.

Lemma never_sets_heartbeat (rev : Revision) (now : Z) (lv : LoopVars) :
  never_sets (heartbeat rev now lv).
Proof. unfold heartbeat, print. destruct rev; repeat never_sets_step. Qed.

#[local] Hint Resolve never_sets_process_encoder never_sets_process_override
  never_sets_process_pump_stop never_sets_poll_command never_sets_maintenance
  never_sets_heartbeat : never_sets.

Lemma never_sets_loop_body (rev : Revision) (lv : LoopVars) :
  never_sets (loop_body rev lv).
Proof. unfold loop_body, ticks_ms, sleep_ms. repeat never_sets_step. Qed.

Lemma never_sets_iterate (rev : Revision) (n : nat) :
  forall lv, never_sets (iterate n rev lv).
Proof.
  induction n as [|k IH]; intros lv; cbn [iterate]; [apply never_sets_ret|].
  apply never_sets_bind; [apply never_sets_loop_body|intros lv'; apply IH].
Qed.

Lemma never_sets_on_exception (rev : Revision) : never_sets (on_exception rev).
Proof. unfold on_exception, print. destruct rev; repeat never_sets_step. Qed.

Lemma never_sets_main (rev : Revision) (n : nat) (lv : LoopVars) :
  never_sets (main rev n lv).
Proof.
  unfold main. apply never_sets_try; [|apply never_sets_on_exception].
  apply never_sets_bind; [apply never_sets_iterate|intros _; apply never_sets_ret].
Qed.

Lemma never_sets_clear {A} (c : M A) (m : Machine) :
  never_sets c ->
  pending_flags m = (false, false, false) ->
  pending_flags (after c m) = (false, false, false).
Proof.
  intros Hc Hp. unfold pending_flags in *. injection Hp as He Ho Hs.
  destruct (Hc m) as (H1 & H2 & H3).
  destruct (encoder_pending (after c m));
    [specialize (H1 eq_refl); congruence|].
  destruct (override_pending (after c m));
    [specialize (H2 eq_refl); congruence|].
  destruct (pump_pending (after c m));
    [specialize (H3 eq_refl); congruence|].
  reflexivity.
Qed.

Lemma after_bind_ok {A B} (c : M A) (k : A -> M B) (m m' : Machine) (a : A) :
  c m = (Ok a, m') -> after (bind c k) m = after (k a) m'.
Proof. intros H. unfold after. now rewrite (bind_ok c k m m' a H). Qed.

(** The three routines at the head of a pass leave nothing pending. *)
Lemma routines_clear_flags (rev : Revision) (m : Machine) :
  exists m3,
    (process_encoder rev ;;; process_override rev ;;; process_pump_stop rev) m
    = (Ok tt, m3) /\
    pending_flags m3 = (false, false, false).
Proof.
  destruct (process_encoder_shape rev m) as (ms1 & e1 & la & lt & _ & H1).
  rewrite (bind_ok _ _ _ _ _ H1).
  match type of H1 with _ = (_, ?x) => set (m1 := x) in * end.
  destruct (process_override_shape rev m1) as (ms2 & e2 & t2 & _ & H2).
  rewrite (bind_ok _ _ _ _ _ H2).
  match type of H2 with _ = (_, ?x) => set (m2 := x) in * end.
  destruct (process_pump_stop_shape rev m2) as (ms3 & e3 & t3 & _ & H3).
  rewrite H3. eexists. split; [reflexivity|]. reflexivity.
Qed.

Lemma loop_body_clears_flags (rev : Revision) (lv : LoopVars) (m : Machine) :
  pending_flags (after (loop_body rev lv) m) = (false, false, false).
Proof.
  destruct (routines_clear_flags rev m) as (m3 & Hrun & Hp).
  unfold bind in Hrun.
  destruct (process_encoder rev m) as [[[]|] m1] eqn:E1; [|discriminate Hrun].
  destruct (process_override rev m1) as [[[]|] m2] eqn:E2; [|discriminate Hrun].
  unfold loop_body.
  rewrite (after_bind_ok ticks_ms _ m m (now_ms m) eq_refl).
  rewrite (after_bind_ok _ _ _ _ _ E1).
  rewrite (after_bind_ok _ _ _ _ _ E2).
  rewrite (after_bind_ok _ _ _ _ _ Hrun).
  apply never_sets_clear; [|exact Hp].
  unfold sleep_ms. repeat never_sets_step.
Qed.

(** Only an interrupt handler sets a pending flag, and a pass services
    them all.  Whatever the transport does, no flag is pending at the end of
    a pass, whether the pass returned or raised; the same holds once the
    program has run for one pass or more, its exception handler included;
    and the program, run for any number of passes, sets no flag that was
    not set before. *)
Theorem pass_services_every_flag (rev : Revision) (n : nat) (lv : LoopVars)
        (m : Machine) :
  pending_flags (after (loop_body rev lv) m) = (false, false, false) /\
  pending_flags (after (main rev (S n) lv) m) = (false, false, false) /\
  (encoder_pending (after (main rev n lv) m) = true -> encoder_pending m = true) /\
  (override_pending (after (main rev n lv) m) = true -> override_pending m = true) /\
  (pump_pending (after (main rev n lv) m) = true -> pump_pending m = true).
Proof.
  split; [apply loop_body_clears_flags|].
  split; [|exact (never_sets_main rev n lv m)].
  pose proof (loop_body_clears_flags rev lv m) as Hp.
  pose proof (run_eq (loop_body rev lv) m) as Hrun.
  set (m1 := after (loop_body rev lv) m) in *. clearbody m1.
  destruct (result (loop_body rev lv) m) as [lv1|].
  - assert (Hmain : main rev (S n) lv m = main rev n lv1 m1).
    { unfold main, try_except. cbn [iterate].
      assert (Hb : (iterate (S n) rev lv ;;; ret tt) m
                   = (iterate n rev lv1 ;;; ret tt) m1).
      { cbn [iterate]. unfold bind at 1 3. unfold bind at 1. now rewrite Hrun. }
      cbn [iterate] in Hb. now rewrite Hb. }
    destruct (same_run _ _ _ _ Hmain) as (_ & ->).
    apply never_sets_clear; [apply never_sets_main|exact Hp].
  - assert (Hmain : main rev (S n) lv m = on_exception rev m1).
    { unfold main, try_except. cbn [iterate].
      rewrite (bind_raised _ _ m m1); [reflexivity|].
      now rewrite (bind_raised _ _ m m1). }
    destruct (same_run _ _ _ _ Hmain) as (_ & ->).
    apply never_sets_clear; [apply never_sets_on_exception|exact Hp].
Qed.

(** ** Events per pass *)

Lemma keeps_stats_ret {A} (a : A) : keeps_stats (ret a).
Proof. intros m. reflexivity. Qed.

Lemma keeps_stats_raise {A} : keeps_stats (@raise A).
Proof. intros m. reflexivity. Qed.

Lemma keeps_stats_get {A} (f : Machine -> A) : keeps_stats (get f).
Proof. intros m. reflexivity. Qed.

Lemma keeps_stats_modify (f : Machine -> Machine) :
  (forall m, stats (f m) = stats m) -> keeps_stats (modify f).
Proof. intros H m. unfold after, modify. cbn. apply H. Qed.

Lemma keeps_stats_bind {A B} (c : M A) (k : A -> M B) :
  keeps_stats c -> (forall a, keeps_stats (k a)) -> keeps_stats (bind c k).
Proof.
  intros Hc Hk m. specialize (Hc m). unfold after, bind in *.
  destruct (c m) as [[a|] m1]; cbn [snd] in *; [|exact Hc].
  specialize (Hk a m1). unfold after in Hk. congruence.
Qed.

Lemma keeps_stats_try {A} (body handler : M A) :
  keeps_stats body -> keeps_stats handler -> keeps_stats (try_except body handler).
Proof.
  intros Hb Hh m. specialize (Hb m). unfold after, try_except in *.
  destruct (body m) as [[a|] m1]; cbn [snd] in *; [exact Hb|].
  specialize (Hh m1). unfold after in Hh. congruence.
Qed.

Lemma keeps_stats_driver_call {A} (ev : bool -> IO) (run : Env -> A * Env) :
  keeps_stats (driver_call ev run).
Proof.
  intros m. unfold after, driver_call.
  destruct (faults (env m)) as [|[|] fs]; try destruct (run _); reflexivity.
Qed.

Create HintDb keeps_stats.

Ltac keeps_stats_step :=
  cbv beta match zeta;
  lazymatch goal with
  | |- keeps_stats (bind _ _) => apply keeps_stats_bind; [|intros ?]
  | |- keeps_stats (try_except _ _) => apply keeps_stats_try
  | |- keeps_stats (if ?b then _ else _) => destruct b
  | |- keeps_stats (ret _) => apply keeps_stats_ret
  | |- keeps_stats raise => apply keeps_stats_raise
  | |- keeps_stats (get _) => apply keeps_stats_get
  | |- keeps_stats (modify _) => apply keeps_stats_modify; intros ?; reflexivity
  | |- keeps_stats (driver_call _ _) => apply keeps_stats_driver_call
  | |- keeps_stats _ => solve [auto 1 with keeps_stats nocore]
  end.

Lemma keeps_stats_drain_rx (fuel : nat) : keeps_stats (drain_rx fuel).
Proof.
  induction fuel as [|k IH]; cbn [drain_rx]; [apply keeps_stats_ret|].
  unfold serial_any, serial_read1. repeat keeps_stats_step.
Qed.

Lemma keeps_stats_drain : keeps_stats drain.
Proof. intros m. exact (keeps_stats_drain_rx _ m). Qed.

#[local] Hint Resolve keeps_stats_drain : keeps_stats.

Lemma keeps_stats_ensure_uart_alive : keeps_stats ensure_uart_alive.
Proof.
  unfold ensure_uart_alive, serial_write, serial_deinit, uart_init, print, sleep_ms.
  repeat keeps_stats_step.
Qed.

#[local] Hint Resolve keeps_stats_ensure_uart_alive : keeps_stats.

Lemma keeps_stats_safe_uart_write (rev : Revision) (message : string) :
  keeps_stats (safe_uart_write rev message).
Proof.
  unfold safe_uart_write, serial_write, print. destruct rev; repeat keeps_stats_step.
Qed.

Lemma keeps_stats_system_reset : keeps_stats system_reset.
Proof. intros m. now destruct (system_reset_effect m) as (_ & _ & _ & _ & _ & Hs & _). Qed.

Lemma keeps_stats_periodic_cleanup : keeps_stats periodic_cleanup.
Proof. unfold periodic_cleanup, gc_collect. repeat keeps_stats_step. Qed.

#[local] Hint Resolve keeps_stats_safe_uart_write keeps_stats_system_reset
  keeps_stats_periodic_cleanup : keeps_stats.

Lemma keeps_stats_poll_command (rev : Revision) : keeps_stats (poll_command rev).
Proof.
  unfold poll_command, serial_any, serial_read1.
  apply keeps_stats_bind; [apply keeps_stats_driver_call|intros n].
  destruct (n =? 0); [apply keeps_stats_ret|].
  apply keeps_stats_try.
  - apply keeps_stats_bind; [apply keeps_stats_driver_call|intros ob].
    destruct ob as [b|]; [destruct (decode_utf8 b) as [cmd|]|];
      repeat keeps_stats_step.
  - destruct rev; repeat keeps_stats_step.
Qed.

Lemma keeps_stats_maintenance (rev : Revision) (now : Z) (lv : LoopVars) :
  keeps_stats (maintenance rev now lv).
Proof. unfold maintenance. destruct rev; repeat keeps_stats_step. Qed.

Lemma keeps_stats_heartbeat (rev : Revision) (now : Z) (lv : LoopVars) :
  keeps_stats (heartbeat rev now lv).
Proof. unfold heartbeat, print. destruct rev; repeat keeps_stats_step. Qed.

#[local] Hint Resolve keeps_stats_poll_command keeps_stats_maintenance
  keeps_stats_heartbeat : keeps_stats.

(** A pass adds at most one to each of the three event counters. *)
Lemma loop_body_counts (rev : Revision) (lv : LoopVars) (m : Machine) :
  steps (stats m) <= steps (stats (after (loop_body rev lv) m))
  <= steps (stats m) + 1 /\
  overrides (stats m) <= overrides (stats (after (loop_body rev lv) m))
  <= overrides (stats m) + 1 /\
  pump_stops (stats m) <= pump_stops (stats (after (loop_body rev lv) m))
  <= pump_stops (stats m) + 1 /\
  blocked (stats (after (loop_body rev lv) m)) = blocked (stats m).
Proof.
  destruct (process_encoder_shape rev m) as (ms1 & e1 & la & lt & L1 & H1).
  match type of H1 with _ = (_, ?x) => set (m1 := x) in * end.
  destruct (process_override_shape rev m1) as (ms2 & e2 & t2 & L2 & H2).
  match type of H2 with _ = (_, ?x) => set (m2 := x) in * end.
  destruct (process_pump_stop_shape rev m2) as (ms3 & e3 & t3 & L3 & H3).
  match type of H3 with _ = (_, ?x) => set (m3 := x) in * end.
  assert (Hs : stats (after (loop_body rev lv) m) = stats m3).
  { unfold loop_body.
    rewrite (after_bind_ok ticks_ms _ m m (now_ms m) eq_refl).
    rewrite (after_bind_ok _ _ _ _ _ H1).
    rewrite (after_bind_ok _ _ _ _ _ H2).
    rewrite (after_bind_ok _ _ _ _ _ H3).
    clearbody m3.
    assert (Hk : keeps_stats
                   (lc <- maintenance rev (now_ms m) lv ;;
                    ls <- heartbeat rev (now_ms m) lv ;;
                    poll_command rev ;;; sleep_ms 5 ;;; ret (mkLoopVars lc ls)))
      by (unfold sleep_ms; repeat keeps_stats_step).
    exact (Hk m3). }
  rewrite Hs. subst m3 m2 m1. cbn. lia.
Qed.

Lemma handler_counts (i : Irq) (m : Machine) :
  steps (stats (after (handler i) m)) = steps (stats m) /\
  overrides (stats (after (handler i) m)) = overrides (stats m) /\
  pump_stops (stats (after (handler i) m)) = pump_stops (stats m).
Proof.
  destruct i; unfold handler.
  - destruct (interrupt_lock m) eqn:E.
    + rewrite encoder_isr_locked by assumption. now cbn.
    + rewrite encoder_isr_unlocked by assumption. cbv zeta.
      unfold result, after. rewrite check_rate_limit_eq. cbv zeta.
      destruct (ticks_diff _ _ >=? 1000); cbn [fst snd]; [now cbn|].
      destruct (_ <=? _); now cbn.
  - unfold after, override_isr, bind, get. now destruct (interrupt_lock m).
  - unfold after, pump_stop_isr, bind, get. now destruct (interrupt_lock m).
Qed.

Lemma irq_sequence_counts (evs : list (Z * Irq)) :
  forall m,
    steps (stats (irq_sequence evs m)) = steps (stats m) /\
    overrides (stats (irq_sequence evs m)) = overrides (stats m) /\
    pump_stops (stats (irq_sequence evs m)) = pump_stops (stats m).
Proof.
  induction evs as [|[d i] evs IH]; intros m; cbn [irq_sequence]; [now repeat split|].
  destruct (IH (after (handler i) (advance d m))) as (-> & -> & ->).
  exact (handler_counts i (advance d m)).
Qed.

Lemma irq_sequence_clock (evs : list (Z * Irq)) :
  forall m,
    Forall (fun ev => 0 <= fst ev) evs ->
    clock_us (env m) <= clock_us (env (irq_sequence evs m)).
Proof.
  induction evs as [|[d i] evs IH]; intros m Hd; cbn [irq_sequence]; [lia|].
  inversion Hd as [|? ? Hd0 Hd']; subst. cbn [fst] in Hd0.
  specialize (IH (after (handler i) (advance d m)) Hd').
  destruct (handler_frame i (advance d m)) as (He & _).
  rewrite He in IH. cbn in IH. lia.
Qed.

Lemma run_cons (rev : Revision) (evs : list (Z * Irq))
      (rest : list (list (Z * Irq))) (lv : LoopVars) (m : Machine) :
  run rev (evs :: rest) lv m
  = (lv' <- loop_body rev lv ;; run rev rest lv') (irq_sequence evs m).
Proof. reflexivity. Qed.

(** At most one event of each kind per pass.  However many interrupts
    fire between two passes (a pending flag holds one bit), a pass counts
    at most one encoder step, one override and one pump stop: over any run
    of passes with bursts of interrupts in between, whatever the transport
    does, each of the three event counters grows by at most the number of
    passes, and passes that all return take 5 ms each at least, so no more
    than 200 events of a kind are reported per second of sleep. *)
Theorem one_event_per_pass (rev : Revision) (sched : list (list (Z * Irq)))
        (lv : LoopVars) (m : Machine) :
  (steps (stats m) <= steps (stats (after (run rev sched lv) m))
   <= steps (stats m) + Z.of_nat (List.length sched)) /\
  (overrides (stats m) <= overrides (stats (after (run rev sched lv) m))
   <= overrides (stats m) + Z.of_nat (List.length sched)) /\
  (pump_stops (stats m) <= pump_stops (stats (after (run rev sched lv) m))
   <= pump_stops (stats m) + Z.of_nat (List.length sched)) /\
  (Forall (Forall (fun ev => 0 <= fst ev)) sched ->
   forall lv', result (run rev sched lv) m = Ok lv' ->
               clock_us (env m) + 5000 * Z.of_nat (List.length sched)
               <= clock_us (env (after (run rev sched lv) m))).
Proof.
  revert lv m. induction sched as [|evs rest IH]; intros lv m.
  - cbn. repeat split; lia.
  - destruct (irq_sequence_counts evs m) as (I1 & I2 & I3).
    pose proof (irq_sequence_clock evs m) as Ic.
    pose proof (run_cons rev evs rest lv m) as Hcons.
    set (m0 := irq_sequence evs m) in *. clearbody m0.
    destruct (loop_body_counts rev lv m0) as (B1 & B2 & B3 & _).
    destruct (takes_loop_body rev lv m0) as (_ & Bt & _).
    pose proof (run_eq (loop_body rev lv) m0) as Hrun.
    set (m1 := after (loop_body rev lv) m0) in *. clearbody m1.
    replace (Z.of_nat (List.length (evs :: rest)))
      with (Z.of_nat (List.length rest) + 1) by (cbn [List.length]; lia).
    destruct (result (loop_body rev lv) m0) as [lv1|].
    + destruct (same_run _ _ _ _
                  (eq_trans Hcons (bind_ok _ _ _ _ _ Hrun))) as (Hres & Haft).
      rewrite Haft, Hres.
      destruct (IH lv1 m1) as (R1 & R2 & R3 & Rt).
      split; [lia|]. split; [lia|]. split; [lia|].
      intros Hd lv' Hok. inversion Hd as [|? ? Hd0 Hd']; subst.
      specialize (Rt Hd' lv' Hok). specialize (Ic Hd0).
      specialize (Bt lv1 eq_refl). lia.
    + destruct (same_run _ _ _ _
                  (eq_trans Hcons (bind_raised _ _ _ _ Hrun))) as (Hres & Haft).
      rewrite Haft, Hres. unfold after, result. cbn [fst snd].
      split; [lia|]. split; [lia|]. split; [lia|].
      intros _ lv' Hok. discriminate Hok.
Qed.
